(** * InvoiceRecong: a shallow embedding of [src/InvoiceRecong.py]

    The development follows the Python class [InvoiceRecognition]:
    Python strings are lists of Unicode code points, the [invoice_info]
    dictionary is a finite map that the extractors mutate in place, the
    regular expressions of the source are written as data and run by a
    small backtracking matcher with the semantics of Python's [re], and
    amounts are IEEE 754 binary64 numbers given by their bit patterns. *)

From Stdlib Require Import ZArith NArith Lia List String Ascii Bool Sorted.
From stdpp Require Import base option list gmap.

Local Open Scope N_scope.

(** ** Python strings *)

(** A Python [str] is a sequence of code points; [len] is [length]. *)
Abbreviation char := N (only parsing).
Abbreviation str := (list N) (only parsing).

(** Source literals are written as UTF-8 [string]s and decoded. *)
Fixpoint utf8_decode (bs : list N) : str :=
  match bs with
  | [] => []
  | b :: r =>
    if b <? 128 then b :: utf8_decode r
    else if b <? 224 then
      match r with
      | b2 :: r' => ((b - 192) * 64 + (b2 - 128)) :: utf8_decode r'
      | _ => []
      end
    else if b <? 240 then
      match r with
      | b2 :: b3 :: r' =>
        ((b - 224) * 4096 + (b2 - 128) * 64 + (b3 - 128)) :: utf8_decode r'
      | _ => []
      end
    else
      match r with
      | b2 :: b3 :: b4 :: r' =>
        ((b - 240) * 262144 + (b2 - 128) * 4096 + (b3 - 128) * 64 + (b4 - 128))
          :: utf8_decode r'
      | _ => []
      end
  end.

Definition u (s : string) : str :=
  utf8_decode (map N_of_ascii (list_ascii_of_string s)).
Arguments u s%_string : simpl never.

(** A one-character literal. *)
Definition ch (s : string) : char := hd 0 (u s).
Arguments ch s%_string : simpl never.

Definition nl : char := 10.

Definition str_eqb (a b : str) : bool := bool_decide (a = b).

(** [not s] for a string: only the empty string is falsy. *)
Definition falsy (s : str) : bool := match s with [] => true | _ => false end.

Fixpoint startswith (p s : str) : bool :=
  match p, s with
  | [], _ => true
  | a :: p', b :: s' => (a =? b) && startswith p' s'
  | _ :: _, [] => false
  end.

(** [sub in s] *)
Fixpoint contains (sub s : str) : bool :=
  startswith sub s ||
  match s with
  | [] => false
  | _ :: s' => contains sub s'
  end.

(** [s.split(sep)] for a one-character separator: never the empty list. *)
Fixpoint split (sep : char) (s : str) : list str :=
  match s with
  | [] => [[]]
  | c :: s' =>
    if c =? sep then [] :: split sep s'
    else match split sep s' with
         | l :: ls => (c :: l) :: ls
         | [] => [[c]]
         end
  end.

(** [sep.join(lines)], used to write multi-line inputs. *)
Fixpoint join (sep : char) (ls : list str) : str :=
  match ls with
  | [] => []
  | [l] => l
  | l :: ls' => l ++ sep :: join sep ls'
  end.

(** [match not in l] / [x in l] for lists of strings. *)
Definition mem (x : str) (l : list str) : bool := existsb (str_eqb x) l.

(** ** Unicode tables

    [\d], [\s], [\w], [str.strip] and [float] consult the Unicode database
    of the interpreter.  The embedding takes these tables as a parameter;
    [py_tables] below is the instance of CPython 3.11 (Unicode 14). *)
Record UnicodeTables := {
  uni_decimal : char -> option N;   (* Py_UNICODE_TODECIMAL *)
  uni_space : char -> bool;         (* Py_UNICODE_ISSPACE *)
  uni_word : char -> bool;          (* Py_UNICODE_ISALNUM or '_' *)
  uni_caseless : char -> char -> bool
    (* [uni_caseless c x]: pattern literal [c] matches [x] under re.IGNORECASE *)
}.

Definition in_ranges (rs : list (N * N)) (c : char) : bool :=
  existsb (fun r => (fst r <=? c) && (c <=? snd r)) rs.
(** First code points of the blocks of ten decimal digits (category Nd). *)
Definition decimal_blocks : list N :=
  [48; 1632; 1776; 1984; 2406; 2534; 2662; 2790; 2918; 3046; 3174; 3302;
   3430; 3558; 3664; 3792; 3872; 4160; 4240; 6112; 6160; 6470; 6608; 6784;
   6800; 6992; 7088; 7232; 7248; 42528; 43216; 43264; 43472; 43504; 43600;
   44016; 65296; 66720; 68912; 69734; 69872; 69942; 70096; 70384; 70736;
   70864; 71248; 71360; 71472; 71904; 72016; 72784; 73040; 73120; 92768;
   92864; 93008; 120782; 120792; 120802; 120812; 120822; 123200; 123632;
   125264; 130032]%N.

(** Code points with [str.isspace]. *)
Definition space_ranges : list (N * N) :=
  [(9, 13); (28, 32); (133, 133); (160, 160); (5760, 5760); (8192, 8202);
   (8232, 8233); (8239, 8239); (8287, 8287); (12288, 12288)]%N.

(** Code points with [str.isalnum], and the underscore. *)
Definition word_ranges : list (N * N) :=
  [(48, 57); (65, 90); (95, 95); (97, 122); (170, 170); (178, 179);
   (181, 181); (185, 186); (188, 190); (192, 214); (216, 246); (248, 705);
   (710, 721); (736, 740); (748, 748); (750, 750); (880, 884); (886, 887);
   (890, 893); (895, 895); (902, 902); (904, 906); (908, 908); (910, 929);
   (931, 1013); (1015, 1153); (1162, 1327); (1329, 1366); (1369, 1369);
   (1376, 1416); (1488, 1514); (1519, 1522); (1568, 1610); (1632, 1641);
   (1646, 1647); (1649, 1747); (1749, 1749); (1765, 1766); (1774, 1788);
   (1791, 1791); (1808, 1808); (1810, 1839); (1869, 1957); (1969, 1969);
   (1984, 2026); (2036, 2037); (2042, 2042); (2048, 2069); (2074, 2074);
   (2084, 2084); (2088, 2088); (2112, 2136); (2144, 2154); (2160, 2183);
   (2185, 2190); (2208, 2249); (2308, 2361); (2365, 2365); (2384, 2384);
   (2392, 2401); (2406, 2415); (2417, 2432); (2437, 2444); (2447, 2448);
   (2451, 2472); (2474, 2480); (2482, 2482); (2486, 2489); (2493, 2493);
   (2510, 2510); (2524, 2525); (2527, 2529); (2534, 2545); (2548, 2553);
   (2556, 2556); (2565, 2570); (2575, 2576); (2579, 2600); (2602, 2608);
   (2610, 2611); (2613, 2614); (2616, 2617); (2649, 2652); (2654, 2654);
   (2662, 2671); (2674, 2676); (2693, 2701); (2703, 2705); (2707, 2728);
   (2730, 2736); (2738, 2739); (2741, 2745); (2749, 2749); (2768, 2768);
   (2784, 2785); (2790, 2799); (2809, 2809); (2821, 2828); (2831, 2832);
   (2835, 2856); (2858, 2864); (2866, 2867); (2869, 2873); (2877, 2877);
   (2908, 2909); (2911, 2913); (2918, 2927); (2929, 2935); (2947, 2947);
   (2949, 2954); (2958, 2960); (2962, 2965); (2969, 2970); (2972, 2972);
   (2974, 2975); (2979, 2980); (2984, 2986); (2990, 3001); (3024, 3024);
   (3046, 3058); (3077, 3084); (3086, 3088); (3090, 3112); (3114, 3129);
   (3133, 3133); (3160, 3162); (3165, 3165); (3168, 3169); (3174, 3183);
   (3192, 3198); (3200, 3200); (3205, 3212); (3214, 3216); (3218, 3240);
   (3242, 3251); (3253, 3257); (3261, 3261); (3293, 3294); (3296, 3297);
   (3302, 3311); (3313, 3314); (3332, 3340); (3342, 3344); (3346, 3386);
   (3389, 3389); (3406, 3406); (3412, 3414); (3416, 3425); (3430, 3448);
   (3450, 3455); (3461, 3478); (3482, 3505); (3507, 3515); (3517, 3517);
   (3520, 3526); (3558, 3567); (3585, 3632); (3634, 3635); (3648, 3654);
   (3664, 3673); (3713, 3714); (3716, 3716); (3718, 3722); (3724, 3747);
   (3749, 3749); (3751, 3760); (3762, 3763); (3773, 3773); (3776, 3780);
   (3782, 3782); (3792, 3801); (3804, 3807); (3840, 3840); (3872, 3891);
   (3904, 3911); (3913, 3948); (3976, 3980); (4096, 4138); (4159, 4169);
   (4176, 4181); (4186, 4189); (4193, 4193); (4197, 4198); (4206, 4208);
   (4213, 4225); (4238, 4238); (4240, 4249); (4256, 4293); (4295, 4295);
   (4301, 4301); (4304, 4346); (4348, 4680); (4682, 4685); (4688, 4694);
   (4696, 4696); (4698, 4701); (4704, 4744); (4746, 4749); (4752, 4784);
   (4786, 4789); (4792, 4798); (4800, 4800); (4802, 4805); (4808, 4822);
   (4824, 4880); (4882, 4885); (4888, 4954); (4969, 4988); (4992, 5007);
   (5024, 5109); (5112, 5117); (5121, 5740); (5743, 5759); (5761, 5786);
   (5792, 5866); (5870, 5880); (5888, 5905); (5919, 5937); (5952, 5969);
   (5984, 5996); (5998, 6000); (6016, 6067); (6103, 6103); (6108, 6108);
   (6112, 6121); (6128, 6137); (6160, 6169); (6176, 6264); (6272, 6276);
   (6279, 6312); (6314, 6314); (6320, 6389); (6400, 6430); (6470, 6509);
   (6512, 6516); (6528, 6571); (6576, 6601); (6608, 6618); (6656, 6678);
   (6688, 6740); (6784, 6793); (6800, 6809); (6823, 6823); (6917, 6963);
   (6981, 6988); (6992, 7001); (7043, 7072); (7086, 7141); (7168, 7203);
   (7232, 7241); (7245, 7293); (7296, 7304); (7312, 7354); (7357, 7359);
   (7401, 7404); (7406, 7411); (7413, 7414); (7418, 7418); (7424, 7615);
   (7680, 7957); (7960, 7965); (7968, 8005); (8008, 8013); (8016, 8023);
   (8025, 8025); (8027, 8027); (8029, 8029); (8031, 8061); (8064, 8116);
   (8118, 8124); (8126, 8126); (8130, 8132); (8134, 8140); (8144, 8147);
   (8150, 8155); (8160, 8172); (8178, 8180); (8182, 8188); (8304, 8305);
   (8308, 8313); (8319, 8329); (8336, 8348); (8450, 8450); (8455, 8455);
   (8458, 8467); (8469, 8469); (8473, 8477); (8484, 8484); (8486, 8486);
   (8488, 8488); (8490, 8493); (8495, 8505); (8508, 8511); (8517, 8521);
   (8526, 8526); (8528, 8585); (9312, 9371); (9450, 9471); (10102, 10131);
   (11264, 11492); (11499, 11502); (11506, 11507); (11517, 11517);
   (11520, 11557); (11559, 11559); (11565, 11565); (11568, 11623);
   (11631, 11631); (11648, 11670); (11680, 11686); (11688, 11694);
   (11696, 11702); (11704, 11710); (11712, 11718); (11720, 11726);
   (11728, 11734); (11736, 11742); (11823, 11823); (12293, 12295);
   (12321, 12329); (12337, 12341); (12344, 12348); (12353, 12438);
   (12445, 12447); (12449, 12538); (12540, 12543); (12549, 12591);
   (12593, 12686); (12690, 12693); (12704, 12735); (12784, 12799);
   (12832, 12841); (12872, 12879); (12881, 12895); (12928, 12937);
   (12977, 12991); (13312, 19903); (19968, 42124); (42192, 42237);
   (42240, 42508); (42512, 42539); (42560, 42606); (42623, 42653);
   (42656, 42735); (42775, 42783); (42786, 42888); (42891, 42954);
   (42960, 42961); (42963, 42963); (42965, 42969); (42994, 43009);
   (43011, 43013); (43015, 43018); (43020, 43042); (43056, 43061);
   (43072, 43123); (43138, 43187); (43216, 43225); (43250, 43255);
   (43259, 43259); (43261, 43262); (43264, 43301); (43312, 43334);
   (43360, 43388); (43396, 43442); (43471, 43481); (43488, 43492);
   (43494, 43518); (43520, 43560); (43584, 43586); (43588, 43595);
   (43600, 43609); (43616, 43638); (43642, 43642); (43646, 43695);
   (43697, 43697); (43701, 43702); (43705, 43709); (43712, 43712);
   (43714, 43714); (43739, 43741); (43744, 43754); (43762, 43764);
   (43777, 43782); (43785, 43790); (43793, 43798); (43808, 43814);
   (43816, 43822); (43824, 43866); (43868, 43881); (43888, 44002);
   (44016, 44025); (44032, 55203); (55216, 55238); (55243, 55291);
   (63744, 64109); (64112, 64217); (64256, 64262); (64275, 64279);
   (64285, 64285); (64287, 64296); (64298, 64310); (64312, 64316);
   (64318, 64318); (64320, 64321); (64323, 64324); (64326, 64433);
   (64467, 64829); (64848, 64911); (64914, 64967); (65008, 65019);
   (65136, 65140); (65142, 65276); (65296, 65305); (65313, 65338);
   (65345, 65370); (65382, 65470); (65474, 65479); (65482, 65487);
   (65490, 65495); (65498, 65500); (65536, 65547); (65549, 65574);
   (65576, 65594); (65596, 65597); (65599, 65613); (65616, 65629);
   (65664, 65786); (65799, 65843); (65856, 65912); (65930, 65931);
   (66176, 66204); (66208, 66256); (66273, 66299); (66304, 66339);
   (66349, 66378); (66384, 66421); (66432, 66461); (66464, 66499);
   (66504, 66511); (66513, 66517); (66560, 66717); (66720, 66729);
   (66736, 66771); (66776, 66811); (66816, 66855); (66864, 66915);
   (66928, 66938); (66940, 66954); (66956, 66962); (66964, 66965);
   (66967, 66977); (66979, 66993); (66995, 67001); (67003, 67004);
   (67072, 67382); (67392, 67413); (67424, 67431); (67456, 67461);
   (67463, 67504); (67506, 67514); (67584, 67589); (67592, 67592);
   (67594, 67637); (67639, 67640); (67644, 67644); (67647, 67669);
   (67672, 67702); (67705, 67742); (67751, 67759); (67808, 67826);
   (67828, 67829); (67835, 67867); (67872, 67897); (67968, 68023);
   (68028, 68047); (68050, 68096); (68112, 68115); (68117, 68119);
   (68121, 68149); (68160, 68168); (68192, 68222); (68224, 68255);
   (68288, 68295); (68297, 68324); (68331, 68335); (68352, 68405);
   (68416, 68437); (68440, 68466); (68472, 68497); (68521, 68527);
   (68608, 68680); (68736, 68786); (68800, 68850); (68858, 68899);
   (68912, 68921); (69216, 69246); (69248, 69289); (69296, 69297);
   (69376, 69415); (69424, 69445); (69457, 69460); (69488, 69505);
   (69552, 69579); (69600, 69622); (69635, 69687); (69714, 69743);
   (69745, 69746); (69749, 69749); (69763, 69807); (69840, 69864);
   (69872, 69881); (69891, 69926); (69942, 69951); (69956, 69956);
   (69959, 69959); (69968, 70002); (70006, 70006); (70019, 70066);
   (70081, 70084); (70096, 70106); (70108, 70108); (70113, 70132);
   (70144, 70161); (70163, 70187); (70272, 70278); (70280, 70280);
   (70282, 70285); (70287, 70301); (70303, 70312); (70320, 70366);
   (70384, 70393); (70405, 70412); (70415, 70416); (70419, 70440);
   (70442, 70448); (70450, 70451); (70453, 70457); (70461, 70461);
   (70480, 70480); (70493, 70497); (70656, 70708); (70727, 70730);
   (70736, 70745); (70751, 70753); (70784, 70831); (70852, 70853);
   (70855, 70855); (70864, 70873); (71040, 71086); (71128, 71131);
   (71168, 71215); (71236, 71236); (71248, 71257); (71296, 71338);
   (71352, 71352); (71360, 71369); (71424, 71450); (71472, 71483);
   (71488, 71494); (71680, 71723); (71840, 71922); (71935, 71942);
   (71945, 71945); (71948, 71955); (71957, 71958); (71960, 71983);
   (71999, 71999); (72001, 72001); (72016, 72025); (72096, 72103);
   (72106, 72144); (72161, 72161); (72163, 72163); (72192, 72192);
   (72203, 72242); (72250, 72250); (72272, 72272); (72284, 72329);
   (72349, 72349); (72368, 72440); (72704, 72712); (72714, 72750);
   (72768, 72768); (72784, 72812); (72818, 72847); (72960, 72966);
   (72968, 72969); (72971, 73008); (73030, 73030); (73040, 73049);
   (73056, 73061); (73063, 73064); (73066, 73097); (73112, 73112);
   (73120, 73129); (73440, 73458); (73648, 73648); (73664, 73684);
   (73728, 74649); (74752, 74862); (74880, 75075); (77712, 77808);
   (77824, 78894); (82944, 83526); (92160, 92728); (92736, 92766);
   (92768, 92777); (92784, 92862); (92864, 92873); (92880, 92909);
   (92928, 92975); (92992, 92995); (93008, 93017); (93019, 93025);
   (93027, 93047); (93053, 93071); (93760, 93846); (93952, 94026);
   (94032, 94032); (94099, 94111); (94176, 94177); (94179, 94179);
   (94208, 100343); (100352, 101589); (101632, 101640); (110576, 110579);
   (110581, 110587); (110589, 110590); (110592, 110882); (110928, 110930);
   (110948, 110951); (110960, 111355); (113664, 113770); (113776, 113788);
   (113792, 113800); (113808, 113817); (119520, 119539); (119648, 119672);
   (119808, 119892); (119894, 119964); (119966, 119967); (119970, 119970);
   (119973, 119974); (119977, 119980); (119982, 119993); (119995, 119995);
   (119997, 120003); (120005, 120069); (120071, 120074); (120077, 120084);
   (120086, 120092); (120094, 120121); (120123, 120126); (120128, 120132);
   (120134, 120134); (120138, 120144); (120146, 120485); (120488, 120512);
   (120514, 120538); (120540, 120570); (120572, 120596); (120598, 120628);
   (120630, 120654); (120656, 120686); (120688, 120712); (120714, 120744);
   (120746, 120770); (120772, 120779); (120782, 120831); (122624, 122654);
   (123136, 123180); (123191, 123197); (123200, 123209); (123214, 123214);
   (123536, 123565); (123584, 123627); (123632, 123641); (124896, 124902);
   (124904, 124907); (124909, 124910); (124912, 124926); (124928, 125124);
   (125127, 125135); (125184, 125251); (125259, 125259); (125264, 125273);
   (126065, 126123); (126125, 126127); (126129, 126132); (126209, 126253);
   (126255, 126269); (126464, 126467); (126469, 126495); (126497, 126498);
   (126500, 126500); (126503, 126503); (126505, 126514); (126516, 126519);
   (126521, 126521); (126523, 126523); (126530, 126530); (126535, 126535);
   (126537, 126537); (126539, 126539); (126541, 126543); (126545, 126546);
   (126548, 126548); (126551, 126551); (126553, 126553); (126555, 126555);
   (126557, 126557); (126559, 126559); (126561, 126562); (126564, 126564);
   (126567, 126570); (126572, 126578); (126580, 126583); (126585, 126588);
   (126590, 126590); (126592, 126601); (126603, 126619); (126625, 126627);
   (126629, 126633); (126635, 126651); (127232, 127244); (130032, 130041);
   (131072, 173791); (173824, 177976); (177984, 178205); (178208, 183969);
   (183984, 191456); (194560, 195101); (196608, 201546)]%N.

Definition py_decimal (c : char) : option N :=
  (fun b => c - b) <$> find (fun b => (b <=? c) && (c <? b + 10)) decimal_blocks.

Definition ascii_letter (c : char) : bool :=
  ((65 <=? c) && (c <=? 90)) || ((97 <=? c) && (c <=? 122)).

Definition ascii_lower (c : char) : char :=
  if (65 <=? c) && (c <=? 90) then c + 32 else c.

(** Case-insensitive comparison of a pattern literal, as sre compiles it:
    the subject is lower-cased ([U+0130] and the Kelvin sign [U+212A] lower
    to ASCII) and compared with the lower-cased literal and its case
    equivalents (dotless i for [i], long s for [s]).  Exact for ASCII
    literals and for uncased literals (digits, punctuation, CJK), which are
    the only ones the patterns of this program contain. *)
Definition py_caseless (c x : char) : bool :=
  (c =? x) ||
  (ascii_letter c &&
   let lo := ascii_lower c in
   let xl := if x =? 304 then 105 else if x =? 8490 then 107 else ascii_lower x in
   (xl =? lo) || ((lo =? 105) && (x =? 305)) || ((lo =? 115) && (x =? 383))).

Definition py_tables : UnicodeTables := {|
  uni_decimal := py_decimal;
  uni_space := in_ranges space_ranges;
  uni_word := in_ranges word_ranges;
  uni_caseless := py_caseless
|}.

(** ** Regular expressions

    The patterns of the source use literals, character sets, greedy
    repetition of a one-character item, alternation of literal words, one
    capture group and the anchors [^] and [$]. *)
Inductive cls :=
| CChar (c : char)            (* a character listed in a set *)
| CRange (lo hi : char)       (* lo-hi *)
| CDigit                      (* \d *)
| CSpace                      (* \s *)
| CWord.                      (* \w *)

Inductive atom :=
| Lit (c : char)
| Cls (cs : list cls)                          (* [...], or \d, \s, \w *)
| Rep (cs : list cls) (lo : nat) (hi : option nat)
                                               (* X{lo,hi}, X*, X+, X? *)
| Alt (ws : list str)                          (* (?:w1|w2|...) *)
| GOpen                                        (* ( *)
| GClose                                       (* ) *)
| Bol                                          (* ^ *)
| Eol.                                         (* $ *)

Arguments Rep cs lo%_nat hi.

Definition regex := list atom.

(** Bounds of a repetition: [{lo,hi}] has [upto hi], [{lo,}] has [None]. *)
Definition upto (n : nat) : option nat := Some n.
Arguments upto n%_nat.

Definition lits (w : str) : regex := map Lit w.

Definition is_GOpen (a : atom) : bool :=
  match a with GOpen => true | _ => false end.

(** What a successful match reports: [group(0)], [group(1)] and the text
    that follows the match. *)
Record mres := { whole : str; group1 : str; rest : str }.

(** Matcher state: inside the group or not, and the characters consumed so
    far (reversed), in all and inside the group. *)
Record mstate := { m_in : bool; m_whole : str; m_group : str }.

Definition st0 : mstate := {| m_in := false; m_whole := []; m_group := [] |}.

Definition consume (c : char) (st : mstate) : mstate :=
  {| m_in := m_in st;
     m_whole := c :: m_whole st;
     m_group := if m_in st then c :: m_group st else m_group st |}.

Definition set_in (b : bool) (st : mstate) : mstate :=
  {| m_in := b; m_whole := m_whole st; m_group := m_group st |}.

Definition finish (st : mstate) (s : str) : mres :=
  {| whole := rev (m_whole st); group1 := rev (m_group st); rest := s |}.

Definition dec_hi (hi : option nat) : option nat := Nat.pred <$> hi.

Definition hi_zero (hi : option nat) : bool :=
  match hi with Some O => true | _ => false end.

(** Greedy repetition with backtracking: take one more character when
    allowed, and fall back to stopping here when the rest fails. *)
Fixpoint rep (f : char -> bool) (lo : nat) (hi : option nat)
    (k : mstate -> str -> option mres) (st : mstate) (s : str) : option mres :=
  let stop := match lo with O => k st s | S _ => None end in
  match s with
  | c :: s' =>
    if f c && negb (hi_zero hi) then
      match rep f (Nat.pred lo) (dec_hi hi) k (consume c st) s' with
      | Some r => Some r
      | None => stop
      end
    else stop
  | [] => stop
  end.

Section Regex.
Variable U : UnicodeTables.
(** re.IGNORECASE *)
Variable icase : bool.

Definition lit_eq (c x : char) : bool :=
  if icase then uni_caseless U c x else c =? x.

(** The sets of the IGNORECASE patterns hold uncased characters only, so
    ranges and classes are compared as they are. *)
Definition cls_match (k : cls) (x : char) : bool :=
  match k with
  | CChar c => lit_eq c x
  | CRange lo hi => (lo <=? x) && (x <=? hi)
  | CDigit => bool_decide (is_Some (uni_decimal U x))
  | CSpace => uni_space U x
  | CWord => uni_word U x
  end.

Definition set_match (cs : list cls) (x : char) : bool :=
  existsb (fun k => cls_match k x) cs.

(** A literal word at the head of [s]: the state after it and what follows. *)
Fixpoint word (w : str) (st : mstate) (s : str) : option (mstate * str) :=
  match w with
  | [] => Some (st, s)
  | c :: w' =>
    match s with
    | x :: s' => if lit_eq c x then word w' (consume x st) s' else None
    | [] => None
    end
  end.

Fixpoint alt (ws : list str) (k : mstate -> str -> option mres)
    (st : mstate) (s : str) : option mres :=
  match ws with
  | [] => None
  | w :: ws' =>
    match (match word w st s with
           | Some (st', s') => k st' s'
           | None => None
           end) with
    | Some r => Some r
    | None => alt ws' k st s
    end
  end.

(** [exec bos p st s]: match [p] at the head of [s]; [bos] says that the
    attempt starts at the beginning of the subject. *)
Fixpoint exec (bos : bool) (p : regex) (st : mstate) (s : str) : option mres :=
  match p with
  | [] => Some (finish st s)
  | Lit c :: p' =>
    match s with
    | x :: s' => if lit_eq c x then exec bos p' (consume x st) s' else None
    | [] => None
    end
  | Cls cs :: p' =>
    match s with
    | x :: s' => if set_match cs x then exec bos p' (consume x st) s' else None
    | [] => None
    end
  | Rep cs lo hi :: p' => rep (set_match cs) lo hi (exec bos p') st s
  | Alt ws :: p' => alt ws (exec bos p') st s
  | GOpen :: p' => exec bos p' (set_in true st) s
  | GClose :: p' => exec bos p' (set_in false st) s
  | Bol :: p' =>
    if bos && falsy (m_whole st) then exec bos p' st s else None
  | Eol :: p' =>
    if falsy s || str_eqb s [nl] then exec bos p' st s else None
  end.

(** [re.match(p, s)] *)
Definition re_match (p : regex) (s : str) : option mres := exec true p st0 s.

Fixpoint search_from (bos : bool) (p : regex) (s : str) : option mres :=
  match exec bos p st0 s with
  | Some r => Some r
  | None =>
    match s with
    | [] => None
    | _ :: s' => search_from false p s'
    end
  end.

(** [re.search(p, s)]: the leftmost match. *)
Definition re_search (p : regex) (s : str) : option mres := search_from true p s.

(** The non-overlapping matches from left to right; after a match of [n]
    characters the next [n - 1] start positions are skipped.  (No pattern
    of the source can match the empty string.) *)
Fixpoint finditer_from (bos : bool) (p : regex) (skip : nat) (s : str)
    : list mres :=
  match skip with
  | S k =>
    match s with
    | [] => []
    | _ :: s' => finditer_from false p k s'
    end
  | O =>
    match exec bos p st0 s with
    | Some r =>
      r :: match s with
           | [] => []
           | _ :: s' => finditer_from false p (Nat.pred (length (whole r))) s'
           end
    | None =>
      match s with
      | [] => []
      | _ :: s' => finditer_from false p 0 s'
      end
    end
  end.

(** [re.findall(p, s)]: the group of each match when the pattern has a
    group, the whole match otherwise. *)
Definition re_findall (p : regex) (s : str) : list str :=
  map (if existsb is_GOpen p then group1 else whole) (finditer_from true p 0 s).

(** [s.strip()] *)
Fixpoint lstrip (s : str) : str :=
  match s with
  | c :: s' => if uni_space U c then lstrip s' else s
  | [] => []
  end.

Definition strip (s : str) : str := rev (lstrip (rev (lstrip s))).
End Regex.

(** ** Floating-point amounts

    The amounts are non-negative binary64 numbers.  A value is given by its
    IEEE 754 bit pattern; on non-negative numbers (infinity included) the
    order and the equality of the values are those of the bit patterns. *)
Abbreviation float := N (only parsing).

Definition float_inf : float := 2047 * 2 ^ 52.

Definition round_half_even (num den : Z) : Z :=
  let q := (num / den)%Z in
  let r := (num mod den)%Z in
  if ((den <? 2 * r) || ((2 * r =? den) && Z.odd q))%Z then (q + 1)%Z else q.

(** The binary64 number nearest to [p / q] (ties to even), for [0 <= p],
    [0 < q]: what [float] makes of a decimal numeral. *)
Definition float_of_ratio (p q : Z) : float :=
  if (p =? 0)%Z then 0 else
  let e0 := (Z.log2 p - Z.log2 q)%Z in
  let ge := if (0 <=? e0)%Z then (q * 2 ^ e0 <=? p)%Z
            else (q <=? p * 2 ^ (- e0))%Z in
  let E := if ge then e0 else (e0 - 1)%Z in
  let e := Z.max (E - 52) (-1074) in
  let m := if (0 <=? e)%Z then round_half_even p (q * 2 ^ e)
           else round_half_even (p * 2 ^ (- e)) q in
  let e' := if (m =? 2 ^ 53)%Z then (e + 1)%Z else e in
  let m' := if (m =? 2 ^ 53)%Z then (2 ^ 52)%Z else m in
  if (971 <? e')%Z then float_inf
  else if (m' <? 2 ^ 52)%Z then Z.to_N m'
  else Z.to_N ((e' + 1075) * 2 ^ 52 + (m' - 2 ^ 52)).

(** A decimal literal of the source: [float_lit n k] is [n / 10^k]. *)
Definition float_lit (n : Z) (k : Z) : float := float_of_ratio n (10 ^ k).

Fixpoint uint_chars (d : Decimal.uint) : str :=
  match d with
  | Decimal.Nil => []
  | Decimal.D0 d' => 48 :: uint_chars d'
  | Decimal.D1 d' => 49 :: uint_chars d'
  | Decimal.D2 d' => 50 :: uint_chars d'
  | Decimal.D3 d' => 51 :: uint_chars d'
  | Decimal.D4 d' => 52 :: uint_chars d'
  | Decimal.D5 d' => 53 :: uint_chars d'
  | Decimal.D6 d' => 54 :: uint_chars d'
  | Decimal.D7 d' => 55 :: uint_chars d'
  | Decimal.D8 d' => 56 :: uint_chars d'
  | Decimal.D9 d' => 57 :: uint_chars d'
  end.

(** [str(n)] for a natural number. *)
Definition str_of_N (n : N) : str := uint_chars (N.to_uint n).

(** [f"{x:.2f}"]: the exact value rounded to hundredths, ties to even. *)
Definition format_2f (x : float) : str :=
  let E := (Z.of_N x / 2 ^ 52)%Z in
  let M := (Z.of_N x mod 2 ^ 52)%Z in
  if (E =? 2047)%Z then (if (M =? 0)%Z then u "inf" else u "nan") else
  let m := if (E =? 0)%Z then M else (2 ^ 52 + M)%Z in
  let e := if (E =? 0)%Z then (-1074)%Z else (E - 1075)%Z in
  let cents := if (0 <=? e)%Z then (100 * m * 2 ^ e)%Z
               else round_half_even (100 * m) (2 ^ (- e)) in
  str_of_N (Z.to_N (cents / 100)) ++ [46] ++
  str_of_N (Z.to_N (cents mod 100 / 10)) ++ str_of_N (Z.to_N (cents mod 10)).

Section Float.
Variable U : UnicodeTables.

(** Digits with at most one point, at least one digit: the numerals that
    the amount pattern can hand to [float] once the commas are gone.
    [n] is the digits read as an integer, [k] the digits after the point. *)
Fixpoint parse_decimal (s : str) (dot any : bool) (n k : Z) : option (Z * Z) :=
  match s with
  | [] => if any then Some (n, k) else None
  | c :: s' =>
    if c =? 46 then (if dot then None else parse_decimal s' true any n k)
    else match uni_decimal U c with
         | Some v =>
           parse_decimal s' dot true (10 * n + Z.of_N v)%Z
                         (if dot then (k + 1)%Z else k)
         | None => None
         end
  end.

(** [float(s)]; [None] stands for ValueError. *)
Definition pyfloat (s : str) : option float :=
  match parse_decimal s false false 0 0 with
  | Some (n, k) => Some (float_of_ratio n (10 ^ k))
  | None => None
  end.
End Float.

(** [list.sort()] / [sorted] on floats. *)
Fixpoint insert_sorted (x : float) (l : list float) : list float :=
  match l with
  | [] => [x]
  | y :: l' => if x <=? y then x :: l else y :: insert_sorted x l'
  end.

Definition sorted (l : list float) : list float := fold_right insert_sorted [] l.

(** [max(l)] of a non-empty list. *)
Definition pymax (l : list float) : float := fold_right N.max 0 l.

(** ** The dictionary and the effects of the extractors

    Every extractor receives the one [invoice_info] dictionary, mutates it
    in place and returns it.  The dictionary is the state of a small monad;
    an exception leaves the state as it was when it was raised, which is
    what the handler in [parse_generic_invoice] then returns. *)
Inductive exn := KeyError | ValueError | IndexError.

Inductive result (A : Type) :=
| Ok (a : A)
| Raise (e : exn).
Arguments Ok {A} a.
Arguments Raise {A} e.

Definition M (A : Type) : Type := gmap str str -> result A * gmap str str.

#[global] Instance M_ret : MRet M := fun A a d => (Ok a, d).

#[global] Instance M_bind : MBind M := fun A B f m d =>
  match m d with
  | (Ok a, d') => f a d'
  | (Raise e, d') => (Raise e, d')
  end.

Definition raise {A} (e : exn) : M A := fun d => (Raise e, d).

(** [invoice_info[k]] *)
Definition getitem (k : str) : M str := fun d =>
  match d !! k with
  | Some v => (Ok v, d)
  | None => (Raise KeyError, d)
  end.

(** [invoice_info[k] = v] *)
Definition setitem (k v : str) : M unit := fun d => (Ok tt, <[k := v]> d).

(** [try: body  except Exception: pass] *)
Definition try_except (body : M unit) : M unit := fun d =>
  match body d with
  | (Ok _, d') => (Ok tt, d')
  | (Raise _, d') => (Ok tt, d')
  end.

(** [l[i]] *)
Definition index {A} (l : list A) (i : nat) : M A :=
  match l !! i with
  | Some x => mret x
  | None => raise IndexError
  end.

(** [l.remove(x)]: the first occurrence goes; ValueError when there is none. *)
Fixpoint list_remove (x : str) (l : list str) : option (list str) :=
  match l with
  | [] => None
  | y :: l' => if str_eqb x y then Some l' else (cons y) <$> list_remove x l'
  end.

Definition remove (x : str) (l : list str) : M (list str) :=
  match list_remove x l with
  | Some l' => mret l'
  | None => raise ValueError
  end.

(** The keys of [invoice_info]. *)
Definition k_number : str := u "发票号码".
Definition k_date : str := u "开票日期".
Definition k_buyer : str := u "购买方名称".
Definition k_buyer_code : str := u "购买方统一社会信用代码".
Definition k_seller : str := u "销售方名称".
Definition k_seller_code : str := u "销售方统一社会信用代码".
Definition k_item : str := u "项目名称".
Definition k_spec : str := u "规格型号".
Definition k_tax : str := u "税额".
Definition k_total : str := u "价税总计".
Definition k_issuer : str := u "开票人".

Definition field_names : list str :=
  [k_number; k_date; k_buyer; k_buyer_code; k_seller; k_seller_code;
   k_item; k_spec; k_tax; k_total; k_issuer].

(** The dictionary that [parse_invoice_info] starts from. *)
Definition empty_info : gmap str str :=
  list_to_map (map (fun k => (k, [])) field_names).

(** ** Patterns of the source *)

Definition digit09 : cls := CRange (ch "0") (ch "9").
Definition cjk : cls := CRange 19968 40869.   (* 一-龥 *)
Definition colon : atom := Cls [CChar (ch "："); CChar (ch ":")].   (* [：:] *)
Definition spaces : atom := Rep [CSpace] 0 None.                   (* \s* *)
Definition d (lo hi : nat) : atom := Rep [CDigit] lo (upto hi).    (* \d{lo,hi} *)
Arguments d (lo hi)%_nat.

Definition number_patterns : list regex := [
  lits (u "发票号码") ++ [colon; spaces; GOpen; Rep [digit09] 1 None; GClose];
  lits (u "发票代码") ++ [colon; spaces; GOpen; Rep [digit09] 1 None; GClose];
  lits (u "Invoice") ++ [spaces] ++ lits (u "No") ++
    [Rep [CChar (ch "."); CChar (ch ":")] 0 (upto 1); spaces;
     GOpen; Rep [digit09] 1 None; GClose];
  [GOpen; d 8 20; GClose]
].

Definition cjk_date : regex :=
  [d 4 4; Lit (ch "年"); d 1 2; Lit (ch "月"); d 1 2; Lit (ch "日")].

Definition sep_date (sep : char) : regex :=
  [GOpen; d 4 4; Lit sep; d 1 2; Lit sep; d 1 2; GClose].

Definition date_patterns : list regex := [
  [GOpen] ++ cjk_date ++ [GClose];
  lits (u "开票日期") ++ [colon; spaces; GOpen] ++ cjk_date ++ [GClose];
  sep_date (ch "/");
  sep_date (ch "-");
  sep_date (ch ".")
].

Definition company_patterns : list regex := [
  [GOpen; Rep [cjk] 4 None;
   Alt [u "公司"; u "企业"; u "集团"; u "有限责任公司"; u "股份有限公司"]; GClose];
  [GOpen; Rep [CRange (ch "A") (ch "Z"); CRange (ch "a") (ch "z"); cjk] 6 None;
   Alt [u "公司"; u "企业"; u "集团"; u "有限"; u "责任"; u "股份"]; GClose]
].

Definition code_run : atom :=
  Rep [CRange (ch "A") (ch "Z"); digit09] 15 (upto 18).   (* [A-Z0-9]{15,18} *)

Definition code_patterns : list regex := [
  [GOpen; code_run; GClose];
  lits (u "统一社会信用代码") ++ [colon; spaces; GOpen; code_run; GClose];
  lits (u "纳税人识别号") ++ [colon; spaces; GOpen; code_run; GClose]
].

Definition buyer_keywords : list str := [u "购买方"; u "买方"; u "收票方"; u "付款方"].
Definition seller_keywords : list str := [u "销售方"; u "卖方"; u "开票方"; u "收款方"].

(** A yen sign, half or full width, then the group: digits and commas, an
    optional point, digits. *)
Definition amount_pattern : regex :=
  [Cls [CChar (ch "¥"); CChar (ch "￥")]; GOpen;
   Rep [CDigit; CChar (ch ",")] 1 None; Rep [CChar (ch ".")] 0 (upto 1);
   Rep [CDigit] 0 None; GClose].

Definition specific_patterns : list regex := [
  [Lit (ch "¥"); GOpen] ++ lits (u "3992.00") ++ [GClose];
  [Lit (ch "¥"); GOpen] ++ lits (u "225.96") ++ [GClose];
  [Lit (ch "¥"); GOpen] ++ lits (u "3766.04") ++ [GClose]
].

(** [^[一-龥]{2,4}$] *)
Definition name_line_pattern : regex := [Bol; Rep [cjk] 2 (upto 4); Eol].

Definition excluded_names : list str :=
  [u "开票人"; u "复核"; u "收款"; u "销售"; u "购买"; u "合计"; u "税额";
   u "金额"; u "单价"; u "数量"].

Definition name_patterns : list regex := [
  lits (u "张英豪");
  [Lit (ch "张"); Rep [CWord] 1 None];
  [Rep [cjk] 2 (upto 3)]
].

Definition spec_keywords : list str :=
  [u "次"; u "个"; u "件"; u "台"; u "套"; u "张"; u "份"].

(** [(\d{8,})] of the Shanghai profile *)
Definition long_number : regex := [GOpen; Rep [CDigit] 8 None; GClose].

(** [enumerate(l)] *)
Definition enumerate {A} (l : list A) : list (nat * A) := combine (seq 0 (length l)) l.

(** [range(max(0, i - before), min(n, i + after))] *)
Definition window (before after i n : nat) : list nat :=
  seq (i - before) (Nat.min n (i + after) - (i - before)).

Definition nonempty {A} (l : list A) : bool :=
  match l with [] => false | _ => true end.

Definition f100 : float := float_lit 100 0.
Definition f1000 : float := float_lit 1000 0.

(** [100 <= amount <= 1000] *)
Definition in_band (amount : float) : bool := (f100 <=? amount) && (amount <=? f1000).

Section Extractors.
Variable U : UnicodeTables.

(** *** extract_invoice_number *)

Definition number_length_ok (m : str) : bool :=
  ((8 <=? length m) && (length m <=? 20))%nat.

Fixpoint extract_invoice_number_loop (patterns : list regex) (text : str) : M unit :=
  match patterns with
  | [] => mret tt
  | pattern :: patterns' =>
    match find number_length_ok (re_findall U true pattern text) with
    | Some m => setitem k_number m
    | None => extract_invoice_number_loop patterns' text
    end
  end.

Definition extract_invoice_number (text : str) : M unit :=
  extract_invoice_number_loop number_patterns text.

(** *** extract_invoice_date *)

Fixpoint extract_invoice_date_loop (patterns : list regex) (text : str) : M unit :=
  match patterns with
  | [] => mret tt
  | pattern :: patterns' =>
    match re_search U false pattern text with
    | Some r => setitem k_date (group1 r)
    | None => extract_invoice_date_loop patterns' text
    end
  end.

Definition extract_invoice_date (text : str) : M unit :=
  extract_invoice_date_loop date_patterns text.

(** *** extract_company_info *)

(** [for match in matches: if keep(match) and match not in acc: acc.append(match)] *)
Definition collect (keep : str -> bool) (acc matches : list str) : list str :=
  fold_left (fun acc m => if keep m && negb (mem m acc) then acc ++ [m] else acc)
            matches acc.

Definition find_companies (text : str) : list str :=
  fold_left (fun acc pattern =>
               collect (fun m => (5 <? length m)%nat) acc
                       (re_findall U false pattern text))
            company_patterns [].

Definition find_credit_codes (text : str) : list str :=
  fold_left (fun acc pattern =>
               collect (fun _ => true) acc (re_findall U false pattern text))
            code_patterns [].

(** [for company in companies:] on line [j] of the window.  [iter] is what
    is left of the iteration, [companies] the list itself; the loop
    breaks right after it removes from the list.  The seller loop checks
    membership before it removes ([guarded]). *)
Fixpoint claim_company (key : str) (guarded : bool) (lines : list str) (j : nat)
    (iter companies : list str) : M (list str) :=
  match iter with
  | [] => mret companies
  | company :: iter' =>
    line_j ← index lines j;
    if contains company line_j then
      v ← getitem key;
      if falsy v then
        setitem key company;;
        if guarded && negb (mem company companies) then mret companies
        else remove company companies
      else claim_company key guarded lines j iter' companies
    else claim_company key guarded lines j iter' companies
  end.

Fixpoint window_loop (key : str) (guarded : bool) (lines : list str)
    (js : list nat) (companies : list str) : M (list str) :=
  match js with
  | [] => mret companies
  | j :: js' =>
    companies' ← claim_company key guarded lines j companies companies;
    window_loop key guarded lines js' companies'
  end.

Fixpoint keyword_loop (key : str) (guarded : bool) (keywords : list str)
    (lines : list str) (i : nat) (line : str) (companies : list str)
    : M (list str) :=
  match keywords with
  | [] => mret companies
  | keyword :: keywords' =>
    companies' ←
      (if contains keyword line
       then window_loop key guarded lines (window 3 5 i (length lines)) companies
       else mret companies);
    keyword_loop key guarded keywords' lines i line companies'
  end.

(** [for i, line in enumerate(lines):] buyer keywords, then seller
    keywords, on each line in turn. *)
Fixpoint assign_roles (lines : list str) (todo : list (nat * str))
    (companies : list str) : M (list str) :=
  match todo with
  | [] => mret companies
  | (i, line) :: todo' =>
    c1 ← keyword_loop k_buyer false buyer_keywords lines i line companies;
    c2 ← keyword_loop k_seller true seller_keywords lines i line c1;
    assign_roles lines todo' c2
  end.

(** [[c for c in companies if c not in [buyer, seller]]] *)
Fixpoint remaining (companies : list str) : M (list str) :=
  match companies with
  | [] => mret []
  | c :: cs =>
    b ← getitem k_buyer;
    s ← getitem k_seller;
    r ← remaining cs;
    mret (if mem c [b; s] then r else c :: r)
  end.

(** The block that hands out what is left, in order. *)
Definition assign_remaining (companies : list str) : M unit :=
  remaining_companies ← remaining companies;
  if nonempty remaining_companies then
    b ← getitem k_buyer;
    (if falsy b then c ← index remaining_companies 0; setitem k_buyer c
     else mret tt);;
    s ← getitem k_seller;
    if falsy s && (1 <? length remaining_companies)%nat
    then c ← index remaining_companies 1; setitem k_seller c
    else mret tt
  else mret tt.

(** The block that hands out the credit codes. *)
Definition assign_credit_codes (credit_codes : list str) : M unit :=
  if nonempty credit_codes then
    b ← getitem k_buyer_code;
    (if falsy b then c ← index credit_codes 0; setitem k_buyer_code c
     else mret tt);;
    if (1 <? length credit_codes)%nat then
      s ← getitem k_seller_code;
      if falsy s then c ← index credit_codes 1; setitem k_seller_code c
      else mret tt
    else mret tt
  else mret tt.

Definition extract_company_info (text : str) : M unit :=
  let lines := split nl text in
  let companies := find_companies text in
  let credit_codes := find_credit_codes text in
  companies ← assign_roles lines (enumerate lines) companies;
  assign_remaining companies;;
  assign_credit_codes credit_codes.

(** *** extract_amount_info *)

(** [float(match.replace(',', ''))] *)
Definition to_float (m : str) : option float :=
  pyfloat U (List.filter (fun c => negb (c =? ch ",")) m).

(** The amounts in the order the scan meets them: line by line, and left
    to right in a line; a numeral that [float] rejects is skipped. *)
Definition amount_pool (text : str) : list float :=
  flat_map (fun line => omap to_float (re_findall U false amount_pattern (strip U line)))
           (split nl text).

(** [for amount in amounts: if 100 <= amount <= 1000: ...; break] *)
Fixpoint tax_loop (amounts : list float) : M unit :=
  match amounts with
  | [] => mret tt
  | amount :: amounts' =>
    if in_band amount then setitem k_tax (format_2f amount)
    else tax_loop amounts'
  end.

Fixpoint to_floats (ms : list str) : M (list float) :=
  match ms with
  | [] => mret []
  | m :: ms' =>
    match pyfloat U m with
    | Some x => xs ← to_floats ms'; mret (x :: xs)
    | None => raise ValueError
    end
  end.

(** The matches of the three literal patterns, pattern by pattern. *)
Definition specific_matches (text : str) : list str :=
  flat_map (fun pattern => re_findall U false pattern text) specific_patterns.

Definition memf (x : float) (l : list float) : bool := existsb (N.eqb x) l.

Definition extract_amount_info (text : str) : M unit :=
  let amounts := amount_pool text in
  (if nonempty amounts then
     let amounts := sorted amounts in
     (if (1 <=? length amounts)%nat
      then setitem k_total (format_2f (pymax amounts)) else mret tt);;
     tax_loop amounts
   else mret tt);;
  found_amounts ← to_floats (specific_matches text);
  if nonempty found_amounts then
    let found_amounts := sorted found_amounts in
    (if memf (float_lit 39920 1) found_amounts then setitem k_total (u "3992.00")
     else if nonempty found_amounts
          then setitem k_total (format_2f (pymax found_amounts))
          else mret tt);;
    if memf (float_lit 22596 2) found_amounts then setitem k_tax (u "225.96")
    else if (1 <? length found_amounts)%nat then
      let sorted_amounts := sorted found_amounts in
      if (2 <=? length sorted_amounts)%nat
      then x ← index sorted_amounts 1; setitem k_tax (format_2f x)
      else mret tt
    else mret tt
  else mret tt.

(** *** extract_other_fields *)

Definition is_item_line (line : str) : bool :=
  contains (u "*") line &&
  (contains (u "服务") line || contains (u "费") line || contains (u "销售") line).

(** The test on a stripped line in the issuer loop. *)
Definition is_name_line (line_clean : str) : bool :=
  bool_decide (is_Some (re_match U false name_line_pattern line_clean)) &&
  (negb (mem line_clean excluded_names) &&
   negb (existsb (fun ex => contains ex line_clean) excluded_names)).

Definition name_length_ok (m : str) : bool :=
  ((2 <=? length m) && (length m <=? 4))%nat.

(** The loop over [name_patterns]. *)
Fixpoint guess_issuer (patterns : list regex) (text : str) : M unit :=
  match patterns with
  | [] => mret tt
  | pattern :: patterns' =>
    (match find name_length_ok (re_findall U false pattern text) with
     | Some m => setitem k_issuer m
     | None => mret tt
     end);;
    v ← getitem k_issuer;
    if falsy v then guess_issuer patterns' text else mret tt
  end.

Definition extract_other_fields (text : str) : M unit :=
  let lines := split nl text in
  (match find is_item_line lines with
   | Some line => setitem k_item (strip U line)
   | None => mret tt
   end);;
  (match find is_name_line (map (strip U) lines) with
   | Some line_clean => setitem k_issuer line_clean
   | None => mret tt
   end);;
  v ← getitem k_issuer;
  (if falsy v then guess_issuer name_patterns text else mret tt);;
  match find (fun keyword => contains keyword text) spec_keywords with
  | Some keyword => setitem k_spec keyword
  | None => mret tt
  end.

(** *** The parser *)

Inductive invoice_type := standard | shanghai | complex | generic.

Definition detect_invoice_type (text : str) : invoice_type :=
  if contains (u "上海增值税") text then shanghai
  else if contains (u "机器编号") text && contains (u "校验码") text then complex
  else if contains (u "电子发票（普通发票）") text then standard
  else generic.

Definition parse_generic_invoice (text : str) : M unit :=
  try_except
    (extract_invoice_number text;;
     extract_invoice_date text;;
     extract_company_info text;;
     extract_amount_info text;;
     extract_other_fields text).

Definition parse_standard_invoice (text : str) : M unit := parse_generic_invoice text.

Definition parse_complex_invoice (text : str) : M unit := parse_generic_invoice text.

Fixpoint shanghai_window (lines : list str) (js : list nat) : M unit :=
  match js with
  | [] => mret tt
  | j :: js' =>
    line_j ← index lines j;
    (match re_search U false long_number line_j with
     | Some number_match =>
       if (8 <=? length (group1 number_match))%nat then
         v ← getitem k_number;
         if falsy v then setitem k_number (group1 number_match) else mret tt
       else mret tt
     | None => mret tt
     end);;
    shanghai_window lines js'
  end.

Fixpoint shanghai_lines (lines : list str) (todo : list (nat * str)) : M unit :=
  match todo with
  | [] => mret tt
  | (i, line) :: todo' =>
    let line := strip U line in
    (if contains (u "发票号码") line || contains (u "发票代码") line
     then shanghai_window lines (window 2 3 i (length lines))
     else mret tt);;
    shanghai_lines lines todo'
  end.

Definition parse_shanghai_invoice (text : str) : M unit :=
  let lines := split nl text in
  shanghai_lines lines (enumerate lines);;
  parse_generic_invoice text.

(** The dictionary returned, or the exception that escapes. *)
Definition parse_invoice_info (text : str) : result (gmap str str) :=
  let body :=
    match detect_invoice_type text with
    | standard => parse_standard_invoice text
    | shanghai => parse_shanghai_invoice text
    | complex => parse_complex_invoice text
    | generic => parse_generic_invoice text
    end in
  match body empty_info with
  | (Ok _, invoice_info) => Ok invoice_info
  | (Raise e, _) => Raise e
  end.
End Extractors.

(** ** The batch runner

    Listing the folder and reading a PDF are done by [os] and [fitz]; they
    are parameters here.  So is [openpyxl]: each call the source makes on
    the workbook is an operation of [Openpyxl] that returns the workbook
    after the call and says whether the call raised. *)
Record Openpyxl := {
  workbook : Type;
  worksheet : Type;
  (* Workbook(), .active and .remove(default_sheet); None: one of them raises *)
  new_workbook : option workbook;
  (* workbook.create_sheet(title=t); no sheet: it raises *)
  create_sheet : workbook -> str -> workbook * option worksheet;
  (* worksheet.cell(row=r, column=c, value=v); false: it raises *)
  cell : workbook -> worksheet -> nat -> nat -> str -> workbook * bool;
  (* worksheet.column_dimensions[column].width = w; false: it raises *)
  set_width : workbook -> worksheet -> str -> N -> workbook * bool;
  (* workbook.save(path); false: it raises *)
  save : workbook -> str -> bool
}.


Section Batch.
Variable U : UnicodeTables.
Variable O : Openpyxl.
Variable listdir : str -> option (list str).   (* os.listdir; None: it raises *)
Variable path_join : str -> str -> str.        (* os.path.join *)
Variable pdf_text : str -> option str.         (* the pages read by fitz; None: it raises *)
Variable sheet_stem : str -> str.
  (* os.path.splitext(os.path.basename(pdf_file))[0] *)

Definition endswith (suffix s : str) : bool := startswith (rev suffix) (rev s).

Definition return_file_list_in_folder (file_path : str) : list str :=
  match listdir file_path with
  | Some files =>
    map (path_join file_path) (List.filter (endswith (u ".pdf")) files)
  | None => []
  end.

Definition extract_text_from_pdf (pdf_path : str) : str :=
  match pdf_text pdf_path with
  | Some text => text
  | None => []
  end.

Definition create_excel_workbook : option (workbook O) := new_workbook O.

(** [invoice_info.items()]: the record is created with the eleven keys
    in this order and no key is added to it afterwards. *)
Definition items (invoice_info : gmap str str) : list (str * str) :=
  omap (fun field => (fun value => (field, value)) <$> invoice_info !! field)
       field_names.

(** The calls of [cell] in the order of the source: the two headers on
    row 1, then a row for each field from row 2 on. *)
Definition sheet_cells (invoice_info : gmap str str) : list (nat * nat * str) :=
  [(1, 1, u "字段名称"); (1, 2, u "内容")]%nat ++
  flat_map (fun '(i, (field, value)) =>
              [((2 + i)%nat, 1%nat, field); ((2 + i)%nat, 2%nat, value)])
           (enumerate (items invoice_info)).

(** The cells one after the other; the first call that raises ends the
    writing. *)
Fixpoint write_cells (ws : worksheet O) (cells : list (nat * nat * str))
    (wb : workbook O) : workbook O * bool :=
  match cells with
  | [] => (wb, true)
  | (row, column, value) :: cells' =>
    match cell O wb ws row column value with
    | (wb', true) => write_cells ws cells' wb'
    | (wb', false) => (wb', false)
    end
  end.

(** The workbook after the call: whatever raises is caught and logged,
    and the workbook stays as the call that raised left it. *)
Definition add_invoice_to_excel (wb : workbook O) (invoice_info : gmap str str)
    (sheet_name : str) : workbook O :=
  match create_sheet O wb sheet_name with
  | (wb1, Some ws) =>
    match write_cells ws (sheet_cells invoice_info) wb1 with
    | (wb2, true) =>
      match set_width O wb2 ws (u "A") 25 with
      | (wb3, true) => (set_width O wb3 ws (u "B") 40).1
      | (wb3, false) => wb3
      end
    | (wb2, false) => wb2
    end
  | (wb1, None) => wb1
  end.

Definition sheet_name_of (pdf_file : str) : str :=
  let sheet_name := sheet_stem pdf_file in
  if (31 <? length sheet_name)%nat then firstn 31 sheet_name else sheet_name.

(** [for pdf_file in pdf_files:] with the workbook and [success_count]. *)
Fixpoint process_loop (pdf_files : list str) (wb : workbook O)
    (success_count : nat) : workbook O * nat :=
  match pdf_files with
  | [] => (wb, success_count)
  | pdf_file :: pdf_files' =>
    let text := extract_text_from_pdf pdf_file in
    if falsy text then process_loop pdf_files' wb success_count
    else
      match parse_invoice_info U text with
      | Ok invoice_info =>
        process_loop pdf_files'
                     (add_invoice_to_excel wb invoice_info (sheet_name_of pdf_file))
                     (S success_count)
      | Raise _ => process_loop pdf_files' wb success_count
      end
  end.

(** The returned flag, and the workbook that was saved, if any.  A
    workbook that was created is truthy, so [if not workbook] is taken
    only when [create_excel_workbook] returned None. *)
Definition process_invoices (folder_path output_excel_path : str)
    : bool * option (workbook O) :=
  let pdf_files := return_file_list_in_folder folder_path in
  if negb (nonempty pdf_files) then (false, None)
  else
    match create_excel_workbook with
    | None => (false, None)
    | Some wb =>
      let '(wb', success_count) := process_loop pdf_files wb 0 in
      if (0 <? success_count)%nat then
        if save O wb' output_excel_path then (true, Some wb') else (false, None)
      else (false, None)
    end.
End Batch.

(** ** Notions used in the statements

    What follows is not in the source: these are the predicates and the
    functions in which the theorems below say what the source does. *)

(** [keeps I m]: running [m] preserves [I], whether it returns or raises. *)
Definition keeps {A : Type} (I : gmap str str -> Prop) (m : M A) : Prop :=
  forall d, I d -> I (m d).2.

(** [returns I m]: from a state in [I], [m] returns and [I] still holds. *)
Definition returns {A : Type} (I : gmap str str -> Prop) (m : M A) : Prop :=
  forall d, I d -> exists a d', m d = (Ok a, d') /\ I d'.

(** The dictionary has the eleven fields and no other key. *)
Definition has_fields (d : gmap str str) : Prop :=
  dom d = list_to_set field_names.

(** Patterns made of literals, inside or outside the group. *)
Definition only_lits (p : regex) : bool :=
  forallb (fun a => match a with Lit _ | GOpen | GClose => true | _ => false end) p.

Fixpoint lit_chars (p : regex) : str :=
  match p with
  | [] => []
  | Lit c :: p' => c :: lit_chars p'
  | _ :: p' => lit_chars p'
  end.

(** Patterns without [^]. *)
Definition no_bol (p : regex) : bool :=
  forallb (fun a => match a with Bol => false | _ => true end) p.

(** Two continuations of the matcher that succeed on the same subjects,
    whatever the state. *)
Definition agree (k k' : mstate -> str -> option mres) : Prop :=
  forall st st' s, is_Some (k st s) -> is_Some (k' st' s).

(** The text holds none of the three amounts that the source matches
    literally. *)
Definition no_literal_amounts (text : str) : bool :=
  forallb (fun w => negb (contains w text))
          [u "¥3992.00"; u "¥225.96"; u "¥3766.04"].

(** The first length-checked match of one identifier pattern. *)
Definition first_number (U : UnicodeTables) (pattern : regex) (text : str)
    : option str :=
  find number_length_ok (re_findall U true pattern text).

(** The first two entries of [date_patterns]. *)
Definition bare_cjk_date : regex := [GOpen] ++ cjk_date ++ [GClose].

Definition labelled_cjk_date : regex :=
  lits (u "开票日期") ++ [colon; spaces; GOpen] ++ cjk_date ++ [GClose].

(** A character of the range [一-龥]. *)
Definition is_cjk (c : char) : bool := (19968 <=? c) && (c <=? 40869).

(** Two characters of the range next to each other, somewhere in [s]. *)
Fixpoint adjacent_cjk (s : str) : bool :=
  match s with
  | [] => false
  | a :: s' =>
    match s' with
    | b :: _ => is_cjk a && is_cjk b
    | [] => false
    end || adjacent_cjk s'
  end.

Definition zhang : char := ch "张".

(** The character [张] followed by a word character, somewhere in [s]. *)
Fixpoint zhang_word (U : UnicodeTables) (s : str) : bool :=
  match s with
  | [] => false
  | a :: s' =>
    match s' with
    | b :: _ => (zhang =? a) && uni_word U b
    | [] => false
    end || zhang_word U s'
  end.

(** The second and the third entry of [name_patterns]. *)
Definition zhang_run : regex := [Lit zhang; Rep [CWord] 1 None].

Definition cjk_run : regex := [Rep [cjk] 2 (upto 3)].

(** What the loop over [name_patterns] settles on. *)
Fixpoint first_guess (U : UnicodeTables) (patterns : list regex) (text : str)
    : option str :=
  match patterns with
  | [] => None
  | pattern :: patterns' =>
    match find name_length_ok (re_findall U false pattern text) with
    | Some m => Some m
    | None => first_guess U patterns' text
    end
  end.

(** [l] without the first occurrence of [x]. *)
Fixpoint remove_first (x : str) (l : list str) : list str :=
  match l with
  | [] => []
  | y :: l' => if str_eqb x y then l' else y :: remove_first x l'
  end.

(** The first company named on the lines [js], the lines taken in order
    and, on a line, the companies in order. *)
Fixpoint first_hit (lines : list str) (js : list nat) (companies : list str)
    : option str :=
  match js with
  | [] => None
  | j :: js' =>
    match lines !! j with
    | Some line_j =>
      match find (fun company => contains company line_j) companies with
      | Some company => Some company
      | None => first_hit lines js' companies
      end
    | None => None
    end
  end.

Definition has_keyword (keywords : list str) (line : str) : bool :=
  existsb (fun keyword => contains keyword line) keywords.

(** What the keyword loop of one role does on line [i]: [name] is the
    name the role has so far. *)
Definition claim (lines : list str) (i : nat) (keywords : list str) (line : str)
    (name : str) (companies : list str) : str * list str :=
  if has_keyword keywords line && falsy name then
    match first_hit lines (window 3 5 i (length lines)) companies with
    | Some c => (c, remove_first c companies)
    | None => (name, companies)
    end
  else (name, companies).

(** The buyer, the seller and the companies left after the lines [todo]. *)
Fixpoint roles (lines : list str) (todo : list (nat * str))
    (buyer seller : str) (companies : list str) : str * str * list str :=
  match todo with
  | [] => (buyer, seller, companies)
  | (i, line) :: todo' =>
    let b := claim lines i buyer_keywords line buyer companies in
    let s := claim lines i seller_keywords line seller b.2 in
    roles lines todo' b.1 s.1 s.2
  end.

(** The two names written into the dictionary. *)
Definition set_roles (buyer seller : str) (d : gmap str str) : gmap str str :=
  <[k_seller := seller]> (<[k_buyer := buyer]> d).

(** What is left for the positional assignment. *)
Definition unclaimed (buyer seller : str) (companies : list str) : list str :=
  List.filter (fun c => negb (mem c [buyer; seller])) companies.

(** The names after the positional assignment: the first company left for
    an empty buyer, the second one for an empty seller. *)
Definition settle (buyer seller : str) (companies : list str) : str * str :=
  let rest := unclaimed buyer seller companies in
  (if nonempty rest && falsy buyer then nth 0 rest [] else buyer,
   if nonempty rest && (falsy seller && (1 <? length rest)%nat)
   then nth 1 rest [] else seller).

(** The names the extractor ends with, from the names it starts with. *)
Definition final_names (U : UnicodeTables) (text buyer seller : str) : str * str :=
  let lines := split nl text in
  let r := roles lines (enumerate lines) buyer seller (find_companies U text) in
  settle r.1.1 r.1.2 r.2.

(** The invariant of the role loops: the companies left are distinct and
    not empty, neither role holds one of them, and the roles hold different
    names unless both are empty. *)
Definition apart (x y : str) (companies : list str) : Prop :=
  List.NoDup companies /\
  (forall c, In c companies -> falsy c = false) /\
  ~ In x companies /\ ~ In y companies /\ (x = y -> x = []).

(** The documents whose text could be read and is not empty. *)
Definition readable (pdf_text : str -> option str) (pdf_file : str) : bool :=
  negb (falsy (extract_text_from_pdf pdf_text pdf_file)).

(** The record of a document. *)
Definition record_of (U : UnicodeTables) (pdf_text : str -> option str)
    (pdf_file : str) : gmap str str :=
  match parse_invoice_info U (extract_text_from_pdf pdf_text pdf_file) with
  | Ok invoice_info => invoice_info
  | Raise _ => empty_info
  end.

(** The workbook after the call that [process_invoices] makes for a
    document. *)
Definition added (U : UnicodeTables) (O : Openpyxl) (pdf_text : str -> option str)
    (sheet_stem : str -> str) (wb : workbook O) (pdf_file : str) : workbook O :=
  add_invoice_to_excel O wb (record_of U pdf_text pdf_file)
                       (sheet_name_of sheet_stem pdf_file).

(** ** Tactics *)

Ltac in_fields := apply (bool_decide_unpack _); vm_compute; exact I.

Ltac key_neq := apply (bool_decide_unpack _); vm_compute; exact I.

(** ** Notions used in the further properties *)

(** The state after the characters [w] were consumed, in order. *)
Fixpoint consume_all (w : str) (st : mstate) : mstate :=
  match w with
  | [] => st
  | c :: w' => consume_all w' (consume c st)
  end.

(** Patterns without parentheses. *)
Definition no_group (p : regex) : bool :=
  forallb (fun a => match a with GOpen | GClose => false | _ => true end) p.

(** The least and the greatest number of characters a pattern consumes;
    [None] when there is no bound. *)
Definition atom_min (a : atom) : nat :=
  match a with
  | Lit _ | Cls _ => 1
  | Rep _ lo _ => lo
  | _ => 0
  end.

Definition atom_max (a : atom) : option nat :=
  match a with
  | Lit _ | Cls _ => Some 1%nat
  | Rep _ _ hi => hi
  | Alt ws => Some (list_max (map length ws))
  | _ => Some 0%nat
  end.

Fixpoint min_len (p : regex) : nat :=
  match p with
  | [] => 0
  | a :: p' => atom_min a + min_len p'
  end.

Fixpoint max_len (p : regex) : option nat :=
  match p with
  | [] => Some 0%nat
  | a :: p' =>
    match atom_max a, max_len p' with
    | Some n, Some n' => Some (n + n')%nat
    | _, _ => None
    end
  end.

(** [d'] differs from [d] at most on the keys [ks]. *)
Definition only_changes (ks : list str) (d d' : gmap str str) : Prop :=
  forall k, k ∉ ks -> d' !! k = d !! k.

(** Every character is a digit: one of [0-9], or a decimal digit as [\d]
    sees it. *)
Definition all_decimal (U : UnicodeTables) (m : str) : bool :=
  forallb (set_match U false [digit09; CDigit]) m.

(** The key [k] is bound to a piece of the text. *)
Definition holds_piece (text k : str) (d : gmap str str) : Prop :=
  exists v, d !! k = Some v /\ contains v text = true.

(** Whatever [m] returns satisfies [Q]. *)
Definition results {A : Type} (Q : A -> Prop) (m : M A) : Prop :=
  forall (d : gmap str str) (a : A) (d' : gmap str str), m d = (Ok a, d') -> Q a.

(** The fields that hold text of the document; the two amounts are
    written anew from their values. *)
Definition text_fields : list str :=
  [k_number; k_date; k_buyer; k_buyer_code; k_seller; k_seller_code;
   k_item; k_spec; k_issuer].

(** The body of the [try] of [parse_generic_invoice]. *)
Definition generic_body (U : UnicodeTables) (text : str) : M unit :=
  extract_invoice_number U text;;
  extract_invoice_date U text;;
  extract_company_info U text;;
  extract_amount_info U text;;
  extract_other_fields U text.

(** * Part II: theorems *)

(** * Reasoning about the effects *)

Lemma bind_ok {A B : Type} (m : M A) (f : A -> M B) (d : gmap str str) (a : A) (d' : gmap str str) :
  m d = (Ok a, d') -> (m ≫= f) d = f a d'.
Proof. intros H. unfold mbind, M_bind. by rewrite H. Qed.

Lemma bind_raise {A B : Type} (m : M A) (f : A -> M B) (d : gmap str str) (e : exn) (d' : gmap str str) :
  m d = (Raise e, d') -> (m ≫= f) d = (Raise e, d').
Proof. intros H. unfold mbind, M_bind. by rewrite H. Qed.

Lemma getitem_ok (k v : str) (d : gmap str str) : d !! k = Some v -> getitem k d = (Ok v, d).
Proof. intros H. unfold getitem. by rewrite H. Qed.

Section Keeps.
Context {I : gmap str str -> Prop}.

Lemma keeps_ret {A} (a : A) : keeps I (mret a).
Proof. by intros d Hd. Qed.

Lemma keeps_raise {A} e : keeps I (@raise A e).
Proof. by intros d Hd. Qed.

Lemma keeps_bind {A B} (m : M A) (f : A -> M B) :
  keeps I m -> (forall a, keeps I (f a)) -> keeps I (m ≫= f).
Proof.
  intros Hm Hf d Hd. specialize (Hm d Hd).
  unfold mbind, M_bind. destruct (m d) as [[a|e] d']; simpl in *; [|done].
  by apply Hf.
Qed.

Lemma keeps_getitem k : keeps I (getitem k).
Proof. intros d Hd. unfold getitem. by destruct (d !! k). Qed.

Lemma keeps_index {A} (l : list A) i : keeps I (index l i).
Proof. intros d Hd. unfold index. by destruct (l !! i). Qed.

Lemma keeps_remove x l : keeps I (remove x l).
Proof. intros d Hd. unfold remove. by destruct (list_remove x l). Qed.

Lemma keeps_try body : keeps I body -> keeps I (try_except body).
Proof.
  intros Hb d Hd. specialize (Hb d Hd). unfold try_except.
  by destruct (body d) as [[a|e] d'].
Qed.

Lemma returns_ret {A} (a : A) : returns I (mret a).
Proof. intros d Hd. by exists a, d. Qed.

Lemma returns_bind {A B} (m : M A) (f : A -> M B) :
  returns I m -> (forall a, returns I (f a)) -> returns I (m ≫= f).
Proof.
  intros Hm Hf d Hd. destruct (Hm d Hd) as (a & d' & Hr & Hd').
  rewrite (bind_ok _ _ _ _ _ Hr). by apply Hf.
Qed.

Lemma returns_try body : keeps I body -> returns I (try_except body).
Proof.
  intros Hb d Hd. specialize (Hb d Hd). unfold try_except.
  destruct (body d) as [[a|e] d']; by exists tt, d'.
Qed.
End Keeps.

(** ** The record keeps its eleven fields *)

Lemma has_fields_lookup d k : has_fields d -> k ∈ field_names -> is_Some (d !! k).
Proof.
  intros Hd Hk. apply elem_of_dom. rewrite Hd. by apply elem_of_list_to_set.
Qed.

Lemma keeps_setitem k v : k ∈ field_names -> keeps has_fields (setitem k v).
Proof.
  intros Hk d Hd. unfold has_fields in *.
  change ((setitem k v d).2) with (<[k:=v]> d).
  rewrite dom_insert_L, Hd.
  apply (anti_symm (⊆)); [|apply union_subseteq_r].
  apply union_least; [|done].
  apply singleton_subseteq_l. by apply elem_of_list_to_set.
Qed.

Lemma returns_setitem k v : k ∈ field_names -> returns has_fields (setitem k v).
Proof.
  intros Hk d Hd. exists tt, (<[k:=v]> d). split; [done|].
  by apply (keeps_setitem k v Hk d).
Qed.

Lemma returns_getitem k : k ∈ field_names -> returns has_fields (getitem k).
Proof.
  intros Hk d Hd. destruct (has_fields_lookup d k Hd Hk) as [v Hv].
  exists v, d. split; [by apply getitem_ok | done].
Qed.

Lemma field_names_NoDup : NoDup field_names.
Proof. apply (bool_decide_unpack _). by vm_compute. Qed.

Lemma empty_info_fields : has_fields empty_info.
Proof.
  unfold has_fields, empty_info. rewrite dom_list_to_map_L, map_map.
  f_equal.
Qed.

Ltac keeps_step :=
  lazymatch goal with
  | |- keeps _ (mret _) => apply keeps_ret
  | |- keeps _ (raise _) => apply keeps_raise
  | |- keeps _ (getitem _) => apply keeps_getitem
  | |- keeps _ (index _ _) => apply keeps_index
  | |- keeps _ (remove _ _) => apply keeps_remove
  | |- keeps _ (setitem _ _) => apply keeps_setitem; first [assumption | in_fields]
  | |- keeps _ (_ ≫= _) => apply keeps_bind; [|intros]
  | |- keeps _ (if ?b then _ else _) => destruct b
  | |- keeps _ (match ?x with _ => _ end) => destruct x
  end.

Section Fields.
Variable U : UnicodeTables.

Lemma keeps_extract_invoice_number text :
  keeps has_fields (extract_invoice_number U text).
Proof.
  unfold extract_invoice_number.
  induction number_patterns as [|p ps IH]; cbn [extract_invoice_number_loop]; repeat keeps_step. done.
Qed.

Lemma keeps_extract_invoice_date text :
  keeps has_fields (extract_invoice_date U text).
Proof.
  unfold extract_invoice_date.
  induction date_patterns as [|p ps IH]; cbn [extract_invoice_date_loop]; repeat keeps_step. done.
Qed.

Lemma keeps_claim_company key guarded lines j iter companies :
  key ∈ field_names ->
  keeps has_fields (claim_company key guarded lines j iter companies).
Proof.
  intros Hk. induction iter as [|c iter IH]; cbn [claim_company]; repeat keeps_step; done.
Qed.

Lemma keeps_window_loop key guarded lines js companies :
  key ∈ field_names ->
  keeps has_fields (window_loop key guarded lines js companies).
Proof.
  intros Hk. revert companies.
  induction js as [|j js IH]; intros companies; cbn [window_loop]; repeat keeps_step.
  - by apply keeps_claim_company.
  - apply IH.
Qed.

Lemma keeps_keyword_loop key guarded keywords lines i line companies :
  key ∈ field_names ->
  keeps has_fields (keyword_loop key guarded keywords lines i line companies).
Proof.
  intros Hk. revert companies.
  induction keywords as [|kw kws IH]; intros companies; cbn [keyword_loop]; repeat keeps_step.
  - by apply keeps_window_loop.
  - apply IH.
Qed.

Lemma keeps_assign_roles lines todo companies :
  keeps has_fields (assign_roles lines todo companies).
Proof.
  revert companies.
  induction todo as [|[i line] todo IH]; intros companies; cbn [assign_roles]; repeat keeps_step.
  - apply keeps_keyword_loop. in_fields.
  - apply keeps_keyword_loop. in_fields.
  - apply IH.
Qed.

Lemma keeps_remaining companies : keeps has_fields (remaining companies).
Proof. induction companies as [|c cs IH]; cbn [remaining]; repeat keeps_step. done. Qed.

Lemma keeps_assign_remaining companies :
  keeps has_fields (assign_remaining companies).
Proof. unfold assign_remaining. repeat keeps_step. apply keeps_remaining. Qed.

Lemma keeps_assign_credit_codes credit_codes :
  keeps has_fields (assign_credit_codes credit_codes).
Proof. unfold assign_credit_codes. repeat keeps_step. Qed.

Lemma keeps_extract_company_info text :
  keeps has_fields (extract_company_info U text).
Proof.
  unfold extract_company_info. cbv zeta.
  apply keeps_bind; [apply keeps_assign_roles|intros companies].
  apply keeps_bind; [apply keeps_assign_remaining|intros _].
  apply keeps_assign_credit_codes.
Qed.

Lemma keeps_tax_loop amounts : keeps has_fields (tax_loop amounts).
Proof. induction amounts as [|a l IH]; cbn [tax_loop]; repeat keeps_step. done. Qed.

Lemma keeps_to_floats ms : keeps has_fields (to_floats U ms).
Proof. induction ms as [|m l IH]; cbn [to_floats]; repeat keeps_step. done. Qed.

Lemma keeps_extract_amount_info text :
  keeps has_fields (extract_amount_info U text).
Proof.
  unfold extract_amount_info. cbv zeta. repeat keeps_step;
    first [apply keeps_tax_loop | apply keeps_to_floats].
Qed.

Lemma keeps_guess_issuer patterns text :
  keeps has_fields (guess_issuer U patterns text).
Proof. induction patterns as [|p ps IH]; cbn [guess_issuer]; repeat keeps_step. done. Qed.

Lemma keeps_extract_other_fields text :
  keeps has_fields (extract_other_fields U text).
Proof.
  unfold extract_other_fields. cbv zeta. repeat keeps_step. apply keeps_guess_issuer.
Qed.

Lemma returns_parse_generic_invoice text :
  returns has_fields (parse_generic_invoice U text).
Proof.
  unfold parse_generic_invoice. apply returns_try.
  apply keeps_bind; [apply keeps_extract_invoice_number|intros _].
  apply keeps_bind; [apply keeps_extract_invoice_date|intros _].
  apply keeps_bind; [apply keeps_extract_company_info|intros _].
  apply keeps_bind; [apply keeps_extract_amount_info|intros _].
  apply keeps_extract_other_fields.
Qed.

Lemma window_lt before after i n j : In j (window before after i n) -> (j < n)%nat.
Proof. unfold window. rewrite in_seq. lia. Qed.

Lemma returns_index {A} (l : list A) j :
  (j < length l)%nat -> returns has_fields (index l j).
Proof.
  intros Hj d Hd. unfold index.
  destruct (lookup_lt_is_Some_2 l j Hj) as [x Hx]. rewrite Hx.
  by exists x, d.
Qed.

Lemma returns_shanghai_window lines js :
  (forall j, In j js -> (j < length lines)%nat) ->
  returns has_fields (shanghai_window U lines js).
Proof.
  induction js as [|j js IH]; intros Hjs; cbn [shanghai_window].
  - apply returns_ret.
  - apply returns_bind; [apply returns_index, Hjs; by left|intros line_j].
    apply returns_bind; [|intros _; apply IH; intros; apply Hjs; by right].
    destruct (re_search U false long_number line_j) as [r|]; [|apply returns_ret].
    destruct (8 <=? length (group1 r))%nat; [|apply returns_ret].
    apply returns_bind; [apply returns_getitem; in_fields|intros v].
    destruct (falsy v); [apply returns_setitem; in_fields|apply returns_ret].
Qed.

Lemma returns_shanghai_lines lines todo :
  returns has_fields (shanghai_lines U lines todo).
Proof.
  induction todo as [|[i line] todo IH]; cbn [shanghai_lines].
  - apply returns_ret.
  - apply returns_bind; [|intros _; apply IH].
    destruct (_ || _); [|apply returns_ret].
    apply returns_shanghai_window. intros j. apply window_lt.
Qed.

Lemma returns_parse_shanghai_invoice text :
  returns has_fields (parse_shanghai_invoice U text).
Proof.
  unfold parse_shanghai_invoice.
  apply returns_bind; [apply returns_shanghai_lines|intros _].
  apply returns_parse_generic_invoice.
Qed.

(** The parse returns, with the eleven fields. *)
Lemma parse_invoice_info_ok text :
  exists invoice_info,
    parse_invoice_info U text = Ok invoice_info /\ has_fields invoice_info.
Proof.
  unfold parse_invoice_info.
  assert (Hb : returns has_fields
            match detect_invoice_type text with
            | standard => parse_standard_invoice U text
            | shanghai => parse_shanghai_invoice U text
            | complex => parse_complex_invoice U text
            | generic => parse_generic_invoice U text
            end).
  { destruct (detect_invoice_type text);
      first [apply returns_parse_shanghai_invoice
            | apply returns_parse_generic_invoice]. }
  destruct (Hb empty_info empty_info_fields) as ([] & d' & Hr & Hd').
  rewrite Hr. by exists d'.
Qed.
End Fields.

(** C9. For every input text (and whatever the Unicode tables of the
    interpreter), [parse_invoice_info] raises nothing and returns a
    dictionary whose keys are exactly the eleven field names, each bound to
    a string (possibly empty). *)
Theorem C9_parse_never_raises_complete_mapping :
  forall (U : UnicodeTables) (text : str),
  exists invoice_info : gmap str str,
    parse_invoice_info U text = Ok invoice_info /\
    dom invoice_info = list_to_set field_names /\
    length field_names = 11%nat /\ NoDup field_names /\
    forall k, k ∈ field_names -> is_Some (invoice_info !! k).
Proof.
  intros U text.
  destruct (parse_invoice_info_ok U text) as (d & Hp & Hd).
  exists d. repeat split; [done|done|apply field_names_NoDup|].
  intros k Hk. by apply has_fields_lookup.
Qed.

(** * Facts about the matcher *)

Lemma suffix_cons_cases {A : Type} (s' s : list A) (c : A) :
  s' `suffix_of` c :: s -> s' = c :: s \/ s' `suffix_of` s.
Proof.
  intros [k Hk]. destruct k as [|x k]; simplify_eq/=; [by left|].
  right. by exists k.
Qed.

Section RegexFacts.
Variable U : UnicodeTables.

(** A pattern that matches at no suffix of the subject finds nothing. *)
Lemma finditer_from_nil icase p s :
  forall bos skip,
  (forall bos' s', s' `suffix_of` s -> exec U icase bos' p st0 s' = None) ->
  finditer_from U icase bos p skip s = [].
Proof.
  induction s as [|c s IH]; intros bos skip H.
  - destruct skip; simpl; [|done]. by rewrite H.
  - assert (Hs : forall bos' s', s' `suffix_of` s ->
              exec U icase bos' p st0 s' = None).
    { intros bos' s' Hs'. apply H. by apply suffix_cons_r. }
    destruct skip; simpl.
    + rewrite H by done. by apply IH.
    + by apply IH.
Qed.

Lemma re_findall_nil icase p s :
  (forall bos' s', s' `suffix_of` s -> exec U icase bos' p st0 s' = None) ->
  re_findall U icase p s = [].
Proof. intros H. unfold re_findall. by rewrite finditer_from_nil. Qed.

(** A pattern that matches at some suffix finds something. *)
Lemma finditer_from_cons icase p s :
  forall bos s' r,
  s' `suffix_of` s ->
  (forall b, exec U icase b p st0 s' = Some r) ->
  finditer_from U icase bos p 0 s <> [].
Proof.
  induction s as [|c s IH]; intros bos s' r Hs Hr.
  - apply suffix_nil_inv in Hs as ->. simpl. by rewrite Hr.
  - simpl. destruct (exec U icase bos p st0 (c :: s)) as [r'|] eqn:He; [done|].
    apply suffix_cons_cases in Hs as [->|Hs]; [by rewrite Hr in He|].
    by eapply IH.
Qed.

Lemma exec_lits_none bos p :
  only_lits p = true ->
  forall st s, startswith (lit_chars p) s = false ->
  exec U false bos p st s = None.
Proof.
  induction p as [|a p IH]; intros Hp st s Hs; [done|].
  simpl in Hp. apply andb_true_iff in Hp as [Ha Hp].
  destruct a; try done; simpl in *.
  - destruct s as [|x s]; [done|]. unfold lit_eq.
    destruct (c =? x); [|done]. by apply IH.
  - by apply IH.
  - by apply IH.
Qed.

Lemma contains_false_suffix w s s' :
  contains w s = false -> s' `suffix_of` s -> startswith w s' = false.
Proof.
  induction s as [|c s IH]; intros Hc Hs.
  - apply suffix_nil_inv in Hs as ->. simpl in Hc.
    by apply orb_false_iff in Hc as [-> _].
  - simpl in Hc. apply orb_false_iff in Hc as [H1 H2].
    apply suffix_cons_cases in Hs as [->|Hs]; [done|]. by apply IH.
Qed.

Lemma re_findall_lits_nil p text :
  only_lits p = true -> contains (lit_chars p) text = false ->
  re_findall U false p text = [].
Proof.
  intros Hp Hc. apply re_findall_nil. intros bos' s' Hs.
  apply exec_lits_none; [done|]. by eapply contains_false_suffix.
Qed.
End RegexFacts.

(** * Sorting and the maximum *)

Lemma insert_sorted_In x y l : In y (insert_sorted x l) <-> y = x \/ In y l.
Proof.
  induction l as [|z l IH]; simpl; [intuition congruence|].
  destruct (x <=? z); simpl; [intuition congruence|]. rewrite IH. intuition congruence.
Qed.

Lemma sorted_In l x : In x (sorted l) <-> In x l.
Proof.
  induction l as [|y l IH]; simpl; [done|].
  rewrite insert_sorted_In, IH. intuition congruence.
Qed.

Lemma sorted_nonempty l : nonempty (sorted l) = nonempty l.
Proof.
  destruct l as [|y l]; [done|]. simpl.
  destruct (insert_sorted y (sorted l)) as [|z l'] eqn:E; [|done].
  assert (In y (insert_sorted y (sorted l))) by (apply insert_sorted_In; by left).
  by rewrite E in H.
Qed.

Lemma insert_sorted_sorted x l :
  StronglySorted N.le l -> StronglySorted N.le (insert_sorted x l).
Proof.
  induction 1 as [|y l Hl IH Hy]; simpl.
  - repeat constructor.
  - destruct (N.leb_spec x y).
    + constructor; [by constructor|]. constructor; [done|].
      eapply Forall_impl; [exact Hy|]. simpl. intros; lia.
    + constructor; [done|]. apply Forall_forall. intros z Hz.
      apply list_elem_of_In, insert_sorted_In in Hz as [->|Hz]; [lia|].
      rewrite Forall_forall in Hy. by apply Hy, list_elem_of_In.
  Qed.

Lemma sorted_sorted l : StronglySorted N.le (sorted l).
Proof.
  induction l as [|x l IH]; simpl; [constructor|by apply insert_sorted_sorted].
Qed.

(** On an ascending list the first hit of a test is the least one. *)
Lemma find_sorted_least (f : float -> bool) l a :
  StronglySorted N.le l -> find f l = Some a ->
  forall b, In b l -> f b = true -> a <= b.
Proof.
  induction 1 as [|y l Hl IH Hy]; simpl; [done|].
  destruct (f y) eqn:Hf.
  - intros [= <-] b [<-|Hb] _; [lia|].
    rewrite Forall_forall in Hy. by apply Hy, list_elem_of_In.
  - intros Ha b [<-|Hb] Hfb; [congruence|]. by apply IH.
Qed.

Lemma pymax_ge l b : In b l -> b <= pymax l.
Proof.
  induction l as [|y l IH]; simpl; [done|]. intros [<-|Hb]; [lia|].
  specialize (IH Hb). lia.
Qed.

Lemma pymax_In l : l <> [] -> In (pymax l) l.
Proof.
  induction l as [|y l IH]; [done|]. intros _. simpl.
  destruct l as [|z l]; [left; simpl; lia|].
  destruct (N.max_spec y (pymax (z :: l))) as [[_ ->]|[_ ->]]; [|by left].
  right. by apply IH.
Qed.

(** The maximum depends on the members only. *)
Lemma pymax_unique l a : In a l -> (forall b, In b l -> b <= a) -> pymax l = a.
Proof.
  intros Ha Hmax. apply N.le_antisymm; [|by apply pymax_ge].
  apply Hmax, pymax_In. by destruct l.
Qed.

(** * The amount extractor *)

Lemma specific_lit_chars :
  map lit_chars specific_patterns = [u "¥3992.00"; u "¥225.96"; u "¥3766.04"].
Proof. by vm_compute. Qed.

Lemma specific_only_lits : forallb only_lits specific_patterns = true.
Proof. by vm_compute. Qed.

Lemma k_tax_total : k_tax <> k_total.
Proof. apply (bool_decide_unpack _). vm_compute. exact I. Qed.

Section Amounts.
Variable U : UnicodeTables.

Lemma flat_findall_nil ps text :
  forallb only_lits ps = true ->
  forallb (fun w => negb (contains w text)) (map lit_chars ps) = true ->
  flat_map (fun pattern => re_findall U false pattern text) ps = [].
Proof.
  induction ps as [|p ps IH]; [done|]. cbn [forallb map flat_map].
  rewrite !andb_true_iff, negb_true_iff. intros [Hp Hps] [Hc Hcs].
  rewrite re_findall_lits_nil by done. by apply IH.
Qed.

Lemma specific_matches_nil text :
  no_literal_amounts text = true -> specific_matches U text = [].
Proof.
  intros H. apply flat_findall_nil; [apply specific_only_lits|].
  by rewrite specific_lit_chars.
Qed.

Lemma tax_loop_run (amounts : list float) (d : gmap str str) :
  tax_loop amounts d =
  (Ok tt, match find in_band amounts with
          | Some a => <[k_tax := format_2f a]> d
          | None => d
          end).
Proof.
  induction amounts as [|a l IH]; [done|]. cbn [tax_loop find].
  by destruct (in_band a).
Qed.

(** Without the literal amounts the extractor is the sort, the maximum
    and the band scan. *)
Lemma extract_amount_info_plain (text : str) (d : gmap str str) :
  specific_matches U text = [] ->
  extract_amount_info U text d =
  (Ok tt,
   if nonempty (amount_pool U text) then
     let amounts := sorted (amount_pool U text) in
     let d1 := <[k_total := format_2f (pymax amounts)]> d in
     match find in_band amounts with
     | Some a => <[k_tax := format_2f a]> d1
     | None => d1
     end
   else d).
Proof.
  intros Hs. unfold extract_amount_info. rewrite Hs. cbv zeta.
  cbn [to_floats]. unfold mbind, M_bind, mret, M_ret.
  destruct (nonempty (amount_pool U text)) eqn:Hn; [|done].
  destruct (sorted (amount_pool U text)) as [|a l] eqn:Hsorted.
  { by rewrite <- sorted_nonempty, Hsorted in Hn. }
  cbn [length Nat.leb setitem]. by rewrite tax_loop_run.
Qed.
End Amounts.

(** C1, as the code has it.  For every input text that holds none of the
    three literal amounts, and whatever the dictionary held before: the
    extractor returns; when some pool value lies in the band [100, 1000],
    tax_amount is the least such value, formatted with two decimals (the pool
    is sorted before the scan, so the order of the lines plays no part); when
    no pool value lies in the band, tax_amount is left as it was. *)
Theorem C1_tax_is_least_in_band :
  forall (U : UnicodeTables) (text : str) (d : gmap str str),
  no_literal_amounts text = true ->
  exists d',
    extract_amount_info U text d = (Ok tt, d') /\
    (forall a,
       In a (amount_pool U text) -> in_band a = true ->
       (forall b, In b (amount_pool U text) -> in_band b = true -> a <= b) ->
       d' !! k_tax = Some (format_2f a)) /\
    ((forall b, In b (amount_pool U text) -> in_band b = false) ->
     d' !! k_tax = d !! k_tax).
Proof.
  intros U text d Hlit. eexists. split.
  { apply extract_amount_info_plain. by apply specific_matches_nil. }
  split.
  - intros a Ha Hband Hleast.
    assert (Hn : nonempty (amount_pool U text) = true) by by destruct (amount_pool U text).
    rewrite Hn. cbv zeta.
    destruct (find in_band (sorted (amount_pool U text))) as [a'|] eqn:Hf.
    + rewrite lookup_insert_eq. do 2 f_equal.
      destruct (find_some _ _ Hf) as [Ha' Hband'].
      apply N.le_antisymm.
      * eapply find_sorted_least; [apply sorted_sorted|exact Hf| |done].
        by apply sorted_In.
      * apply Hleast; [by apply sorted_In|done].
    + eapply find_none in Hf; [|by apply sorted_In]. congruence.
  - intros Hnone. destruct (nonempty (amount_pool U text)); [|done]. cbv zeta.
    destruct (find in_band (sorted (amount_pool U text))) as [a'|] eqn:Hf.
    + destruct (find_some _ _ Hf) as [Ha' Hband'].
      apply (proj1 (sorted_In _ _)) in Ha'. specialize (Hnone a' Ha'). congruence.
    + rewrite lookup_insert_ne; [done|]. intros E. by apply k_tax_total.
Qed.

Lemma C1_tax_is_least_in_band_witness :
  let text := join nl [u "¥500.00"; u "¥200.00"] in
  no_literal_amounts text = true /\
  exists d',
    extract_amount_info py_tables text empty_info = (Ok tt, d') /\
    (forall a,
       In a (amount_pool py_tables text) -> in_band a = true ->
       (forall b, In b (amount_pool py_tables text) -> in_band b = true -> a <= b) ->
       d' !! k_tax = Some (format_2f a)) /\
    ((forall b, In b (amount_pool py_tables text) -> in_band b = false) ->
     d' !! k_tax = empty_info !! k_tax).
Proof.
  split; [reflexivity|].
  apply (C1_tax_is_least_in_band py_tables _ empty_info). reflexivity.
Defined.

(** C1, counterexample.  With 500.00 on the first line and 200.00 on the
    second, the first pool value in the band in line order is 500.00, and
    the extractor sets tax_amount to 200.00.  With the literal amounts
    3992.00 and 3766.04 no pool value lies in the band, and tax_amount is
    set all the same. *)
Lemma C1_counterexample :
  (let text := join nl [u "¥500.00"; u "¥200.00"] in
   let d' := (extract_amount_info py_tables text empty_info).2 in
   amount_pool py_tables text = [float_lit 500 0; float_lit 200 0] /\
   find in_band (amount_pool py_tables text) = Some (float_lit 500 0) /\
   format_2f (float_lit 500 0) = u "500.00" /\
   d' !! k_tax = Some (u "200.00")) /\
  (let text := join nl [u "¥3992.00"; u "¥3766.04"] in
   let d' := (extract_amount_info py_tables text empty_info).2 in
   find in_band (amount_pool py_tables text) = None /\
   empty_info !! k_tax = Some [] /\
   d' !! k_tax = Some (u "3992.00")).
Proof. by vm_compute. Qed.

(** C3, as the code has it.  For every input text whose pool is not empty
    and that holds none of the three literal amounts, total_amount is the
    maximum of the pool, formatted with two decimals. *)
Theorem C3_total_is_max_without_literals :
  forall (U : UnicodeTables) (text : str) (d : gmap str str) (a : float),
  no_literal_amounts text = true ->
  In a (amount_pool U text) ->
  (forall b, In b (amount_pool U text) -> b <= a) ->
  exists d',
    extract_amount_info U text d = (Ok tt, d') /\
    d' !! k_total = Some (format_2f a).
Proof.
  intros U text d a Hlit Ha Hmax. eexists. split.
  { apply extract_amount_info_plain. by apply specific_matches_nil. }
  assert (Hn : nonempty (amount_pool U text) = true) by by destruct (amount_pool U text).
  rewrite Hn. cbv zeta.
  assert (Hm : pymax (sorted (amount_pool U text)) = a).
  { apply pymax_unique; [by apply sorted_In|].
    intros b Hb. by apply Hmax, sorted_In. }
  rewrite Hm.
  destruct (find in_band (sorted (amount_pool U text))).
  - rewrite lookup_insert_ne by apply k_tax_total. by rewrite lookup_insert_eq.
  - by rewrite lookup_insert_eq.
Qed.

Lemma C3_total_is_max_without_literals_witness :
  let text := join nl [u "¥3,992.00 ¥225.90"; u "￥3766.10"] in
  (no_literal_amounts text = true /\
   In (float_lit 3992 0) (amount_pool py_tables text) /\
   (forall b, In b (amount_pool py_tables text) -> b <= float_lit 3992 0)) /\
  exists d',
    extract_amount_info py_tables text empty_info = (Ok tt, d') /\
    d' !! k_total = Some (format_2f (float_lit 3992 0)).
Proof.
  assert (H : let text := join nl [u "¥3,992.00 ¥225.90"; u "￥3766.10"] in
              no_literal_amounts text = true /\
              In (float_lit 3992 0) (amount_pool py_tables text) /\
              (forall b, In b (amount_pool py_tables text) -> b <= float_lit 3992 0)).
  { split; [reflexivity|]. split.
    - vm_compute. tauto.
    - intros b Hb. vm_compute in Hb.
      destruct Hb as [<-|[<-|[<-|[]]]]; vm_compute; discriminate. }
  split; [exact H|].
  destruct H as (H1 & H2 & H3).
  exact (C3_total_is_max_without_literals py_tables _ empty_info _ H1 H2 H3).
Defined.

(** C3, counterexample.  The pool of this text is 3992.00 and 5000.00; its
    maximum is 5000.00, and the extractor sets total_amount to 3992.00. *)
Lemma C3_counterexample :
  let text := join nl [u "¥3992.00"; u "¥5000.00"] in
  let d' := (extract_amount_info py_tables text empty_info).2 in
  amount_pool py_tables text = [float_lit 3992 0; float_lit 5000 0] /\
  pymax (amount_pool py_tables text) = float_lit 5000 0 /\
  format_2f (float_lit 5000 0) = u "5000.00" /\
  d' !! k_total = Some (u "3992.00").
Proof. by vm_compute. Qed.

(** C10.  There is a text with one currency-marked amount, in the band
    [100, 1000], and none of the literal amounts, for which the extractor
    gives tax_amount and total_amount the same value. *)
Theorem C10_single_amount_is_tax_and_total :
  exists (text : str) (a : float),
    amount_pool py_tables text = [a] /\
    in_band a = true /\
    no_literal_amounts text = true /\
    specific_matches py_tables text = [] /\
    exists d',
      extract_amount_info py_tables text empty_info = (Ok tt, d') /\
      d' !! k_tax = Some (format_2f a) /\
      d' !! k_total = Some (format_2f a) /\
      format_2f a = u "500.00".
Proof.
  exists (u "¥500.00"), (float_lit 500 0).
  do 4 (split; [vm_compute; reflexivity|]).
  exists (extract_amount_info py_tables (u "¥500.00") empty_info).2.
  repeat split; vm_compute; reflexivity.
Qed.

(** * The identifier extractor *)

Section Number.
Variable U : UnicodeTables.

Lemma extract_invoice_number_loop_first (text : str) (d : gmap str str) :
  forall (patterns : list regex) (i : nat) (pattern : regex) (m : str),
  patterns !! i = Some pattern ->
  first_number U pattern text = Some m ->
  (forall j q, (j < i)%nat -> patterns !! j = Some q -> first_number U q text = None) ->
  extract_invoice_number_loop U patterns text d = (Ok tt, <[k_number := m]> d).
Proof.
  induction patterns as [|p ps IH]; intros i pattern m Hi Hm Hbefore; [done|].
  cbn [extract_invoice_number_loop]. destruct i as [|i].
  - injection Hi as ->. unfold first_number in Hm. by rewrite Hm.
  - assert (Hp : first_number U p text = None) by (apply (Hbefore 0%nat); [lia|done]).
    unfold first_number in Hp. rewrite Hp.
    apply (IH i pattern m); [done|done|].
    intros j q Hj Hq. apply (Hbefore (S j)); [lia|done].
Qed.

Lemma extract_invoice_number_loop_none (text : str) (d : gmap str str) :
  forall patterns : list regex,
  (forall q, In q patterns -> first_number U q text = None) ->
  extract_invoice_number_loop U patterns text d = (Ok tt, d).
Proof.
  induction patterns as [|p ps IH]; intros Hnone; [done|].
  cbn [extract_invoice_number_loop].
  assert (Hp : first_number U p text = None) by (apply Hnone; by left).
  unfold first_number in Hp. rewrite Hp. apply IH.
  intros q Hq. apply Hnone. by right.
Qed.
End Number.

(** C8.  The identifier extractor tries its four patterns in order, the
    three labelled ones before the bare digit run: the identifier is the
    first match of 8 to 20 characters of the first pattern that has one, and
    nothing is merged; when no pattern has one the dictionary is left as it
    was.  On the text of the spec the labelled number is returned, also when
    a bare run of digits comes earlier in the text; a bare run of ten digits
    with no label is returned as it is. *)
Theorem C8_identifier_patterns_in_order :
  (forall (U : UnicodeTables) (text : str) (d : gmap str str)
          (i : nat) (pattern : regex) (m : str),
     number_patterns !! i = Some pattern ->
     first_number U pattern text = Some m ->
     (forall j q, (j < i)%nat -> number_patterns !! j = Some q ->
                  first_number U q text = None) ->
     extract_invoice_number U text d = (Ok tt, <[k_number := m]> d)) /\
  (forall (U : UnicodeTables) (text : str) (d : gmap str str),
     (forall q, In q number_patterns -> first_number U q text = None) ->
     extract_invoice_number U text d = (Ok tt, d)) /\
  number_patterns !! 3%nat = Some [GOpen; Rep [CDigit] 8 (upto 20); GClose] /\
  length number_patterns = 4%nat /\
  (extract_invoice_number py_tables (u "发票号码：12345678901") empty_info).2
    !! k_number = Some (u "12345678901") /\
  (extract_invoice_number py_tables
     (join nl [u "电话 02155556666"; u "发票号码：12345678901"; u "金额"])
     empty_info).2
    !! k_number = Some (u "12345678901") /\
  (extract_invoice_number py_tables (u "1234567890") empty_info).2
    !! k_number = Some (u "1234567890") /\
  (extract_invoice_number py_tables
     (join nl [u "编号 1234567890 号"; u "合计"]) empty_info).2
    !! k_number = Some (u "1234567890").
Proof.
  split.
  { intros U text d i pattern m. apply extract_invoice_number_loop_first. }
  split.
  { intros U text d. apply extract_invoice_number_loop_none. }
  repeat split; vm_compute; reflexivity.
Qed.

Lemma C8_identifier_patterns_in_order_witness :
  let text := join nl [u "编号 1234567890 号"; u "合计"] in
  let bare := [GOpen; Rep [CDigit] 8 (upto 20); GClose] in
  (number_patterns !! 3%nat = Some bare /\
   first_number py_tables bare text = Some (u "1234567890") /\
   (forall j q, (j < 3)%nat -> number_patterns !! j = Some q ->
                first_number py_tables q text = None)) /\
  extract_invoice_number py_tables text empty_info
  = (Ok tt, <[k_number := u "1234567890"]> empty_info).
Proof.
  assert (H : let text := join nl [u "编号 1234567890 号"; u "合计"] in
              let bare := [GOpen; Rep [CDigit] 8 (upto 20); GClose] in
              number_patterns !! 3%nat = Some bare /\
              first_number py_tables bare text = Some (u "1234567890") /\
              (forall j q, (j < 3)%nat -> number_patterns !! j = Some q ->
                           first_number py_tables q text = None)).
  { split; [reflexivity|]. split; [vm_compute; reflexivity|].
    intros j q Hj Hq.
    destruct j as [|[|[|j]]]; [| | |lia];
      injection Hq as <-; vm_compute; reflexivity. }
  split; [exact H|].
  destruct H as (H1 & H2 & H3).
  exact (proj1 C8_identifier_patterns_in_order py_tables _ empty_info _ _ _ H1 H2 H3).
Defined.

(** * The date extractor *)

Section MatcherShape.
Variable U : UnicodeTables.
Variable icase : bool.

Lemma rep_some f k r : forall s lo hi st,
  rep f lo hi k st s = Some r ->
  exists st' s', s' `suffix_of` s /\ k st' s' = Some r.
Proof.
  induction s as [|c s IH]; intros lo hi st H; simpl in H.
  - destruct lo; [|done]. by exists st, [].
  - assert (Hstop : match lo with O => k st (c :: s) | S _ => None end = Some r ->
                    exists st' s', s' `suffix_of` c :: s /\ k st' s' = Some r).
    { destruct lo; [|done]. intros Hk. by exists st, (c :: s). }
    destruct (f c && negb (hi_zero hi)); [|by apply Hstop].
    destruct (rep f (Nat.pred lo) (dec_hi hi) k (consume c st) s) as [r'|] eqn:E;
      [|by apply Hstop].
    injection H as ->. destruct (IH _ _ _ E) as (st' & s' & Hs & Hk).
    exists st', s'. split; [by apply suffix_cons_r|done].
Qed.

Lemma word_suffix w : forall st s st' s',
  word U icase w st s = Some (st', s') -> s' `suffix_of` s.
Proof.
  induction w as [|c w IH]; intros st s st' s' H; simpl in H.
  - by injection H as _ ->.
  - destruct s as [|x s]; [done|]. destruct (lit_eq U icase c x); [|done].
    apply suffix_cons_r. by eapply IH.
Qed.

Lemma alt_some ws k r st s :
  alt U icase ws k st s = Some r ->
  exists st' s', s' `suffix_of` s /\ k st' s' = Some r.
Proof.
  induction ws as [|w ws IH]; simpl; [done|].
  destruct (word U icase w st s) as [[st1 s1]|] eqn:Ew; [|by apply IH].
  destruct (k st1 s1) as [r'|] eqn:Ek; [|by apply IH].
  intros [= ->]. exists st1, s1. split; [by eapply word_suffix|done].
Qed.

(** When a pattern matches, what is left of it after any prefix matches
    somewhere further in the subject. *)
Lemma exec_app_some bos p1 p2 r : forall st s,
  exec U icase bos (p1 ++ p2) st s = Some r ->
  exists st' s', s' `suffix_of` s /\ exec U icase bos p2 st' s' = Some r.
Proof.
  induction p1 as [|a p1 IH]; intros st s H.
  - by exists st, s.
  - cbn [app exec] in H. destruct a.
    + destruct s as [|x s]; [done|]. destruct (lit_eq U icase c x); [|done].
      destruct (IH _ _ H) as (st' & s' & Hs & He).
      exists st', s'. split; [by apply suffix_cons_r|done].
    + destruct s as [|x s]; [done|]. destruct (set_match U icase cs x); [|done].
      destruct (IH _ _ H) as (st' & s' & Hs & He).
      exists st', s'. split; [by apply suffix_cons_r|done].
    + apply rep_some in H as (st1 & s1 & Hs1 & H).
      destruct (IH _ _ H) as (st' & s' & Hs & He).
      exists st', s'. split; [by etrans|done].
    + apply alt_some in H as (st1 & s1 & Hs1 & H).
      destruct (IH _ _ H) as (st' & s' & Hs & He).
      exists st', s'. split; [by etrans|done].
    + by apply IH in H.
    + by apply IH in H.
    + destruct (bos && falsy (m_whole st)); [|done]. by apply IH in H.
    + destruct (falsy s || str_eqb s [nl]); [|done]. by apply IH in H.
Qed.

Lemma rep_agree f k k' : agree k k' ->
  forall s lo hi st st',
  is_Some (rep f lo hi k st s) -> is_Some (rep f lo hi k' st' s).
Proof.
  intros Hk. induction s as [|c s IH]; intros lo hi st st' H; simpl in *.
  - destruct lo; [by eapply Hk|done].
  - assert (Hstop : is_Some (match lo with O => k st (c :: s) | S _ => None end) ->
                    is_Some (match lo with O => k' st' (c :: s) | S _ => None end)).
    { destruct lo; [by apply Hk|done]. }
    destruct (f c && negb (hi_zero hi)); [|by apply Hstop].
    destruct (rep f (Nat.pred lo) (dec_hi hi) k (consume c st) s) as [r|] eqn:E.
    + assert (Hi : is_Some (rep f (Nat.pred lo) (dec_hi hi) k' (consume c st') s)).
      { eapply IH. by rewrite E. }
      destruct Hi as [r' ->]. done.
    + destruct (rep f (Nat.pred lo) (dec_hi hi) k' (consume c st') s); [done|].
      by apply Hstop.
Qed.

Lemma word_agree w : forall st st' s st1 s1,
  word U icase w st s = Some (st1, s1) ->
  exists st1', word U icase w st' s = Some (st1', s1).
Proof.
  induction w as [|c w IH]; intros st st' s st1 s1 H; simpl in *.
  - injection H as _ ->. by eexists.
  - destruct s as [|x s]; [done|]. destruct (lit_eq U icase c x); [|done].
    by eapply IH.
Qed.

Lemma alt_agree ws k k' : agree k k' -> agree (alt U icase ws k) (alt U icase ws k').
Proof.
  intros Hk st st' s. induction ws as [|w ws IH]; simpl; [done|].
  destruct (word U icase w st s) as [[st1 s1]|] eqn:Ew.
  - destruct (word_agree _ _ st' _ _ _ Ew) as [st1' ->].
    destruct (k st1 s1) as [r|] eqn:Ek.
    + intros _. destruct (Hk st1 st1' s1) as [r' ->]; [by rewrite Ek|done].
    + intros H. destruct (k' st1' s1); [done|]. by apply IH.
  - intros H. destruct (word U icase w st' s) as [[st1' s1']|] eqn:Ew'; [|by apply IH].
    destruct (word_agree _ _ st _ _ _ Ew') as [? ?]. congruence.
Qed.

Lemma exec_agree bos bos' p :
  no_bol p = true -> agree (exec U icase bos p) (exec U icase bos' p).
Proof.
  induction p as [|a p IH]; intros Hp; [by intros st st' s _|].
  simpl in Hp. apply andb_true_iff in Hp as [Ha Hp]. specialize (IH Hp).
  destruct a; try done; intros st st' s; cbn [exec].
  - destruct s as [|x s]; [done|]. destruct (lit_eq U icase c x); [|done]. apply IH.
  - destruct s as [|x s]; [done|]. destruct (set_match U icase cs x); [|done]. apply IH.
  - by apply rep_agree.
  - by apply alt_agree.
  - apply IH.
  - apply IH.
  - destruct (falsy s || str_eqb s [nl]); [|done]. apply IH.
Qed.

Lemma search_from_some p r : forall s bos,
  search_from U icase bos p s = Some r ->
  exists bos' s', s' `suffix_of` s /\ exec U icase bos' p st0 s' = Some r.
Proof.
  induction s as [|c s IH]; intros bos H; simpl in H.
  - destruct (exec U icase bos p st0 []) eqn:E; [|done].
    injection H as ->. by exists bos, [].
  - destruct (exec U icase bos p st0 (c :: s)) eqn:E.
    + injection H as ->. by exists bos, (c :: s).
    + destruct (IH _ H) as (bos' & s' & Hs & He).
      exists bos', s'. split; [by apply suffix_cons_r|done].
Qed.

Lemma search_from_is_Some p : forall s bos s',
  s' `suffix_of` s ->
  (forall b, is_Some (exec U icase b p st0 s')) ->
  is_Some (search_from U icase bos p s).
Proof.
  induction s as [|c s IH]; intros bos s' Hs He.
  - apply suffix_nil_inv in Hs as ->. simpl.
    destruct (He bos) as [r ->]. done.
  - simpl. destruct (exec U icase bos p st0 (c :: s)) eqn:E; [done|].
    apply suffix_cons_cases in Hs as [->|Hs].
    + destruct (He bos) as [r Hr]. congruence.
    + by eapply IH.
Qed.

(** A pattern whose tail is a pattern of its own: wherever the longer one
    is found, the tail is found too. *)
Lemma re_search_tail p1 p2 text :
  no_bol p2 = true ->
  is_Some (re_search U icase (p1 ++ p2) text) ->
  is_Some (re_search U icase p2 text).
Proof.
  intros Hp [r Hr]. unfold re_search in *.
  apply search_from_some in Hr as (bos' & s' & Hs & He).
  apply exec_app_some in He as (st1 & s1 & Hs1 & He).
  apply (search_from_is_Some _ _ _ s1); [by etrans|].
  intros b. apply (exec_agree bos' b p2 Hp st1 st0). by rewrite He.
Qed.
End MatcherShape.

Lemma date_patterns_head :
  date_patterns
  = bare_cjk_date :: labelled_cjk_date
      :: [sep_date (ch "/"); sep_date (ch "-"); sep_date (ch ".")].
Proof. reflexivity. Qed.

(** Wherever the labelled pattern matches, the bare one matches too. *)
Lemma labelled_cjk_date_bare U text :
  is_Some (re_search U false labelled_cjk_date text) ->
  is_Some (re_search U false bare_cjk_date text).
Proof.
  change labelled_cjk_date
    with ((lits (u "开票日期") ++ [colon; spaces]) ++ bare_cjk_date).
  by apply re_search_tail.
Qed.

(** C7, on the code.  The list of the source has the bare CJK pattern
    first and the labelled one second.  In this text the first CJK date is
    unlabelled and a labelled one follows: the labelled pattern finds
    [2024年3月5日], and the extractor returns [2024年1月1日].  More, the
    labelled pattern never decides: for every text the extractor does what
    it does with that pattern struck from the list. *)
Theorem C7_bare_date_pattern_runs_first :
  (let text := join nl [u "2024年1月1日"; u "开票日期：2024年3月5日"] in
   group1 <$> re_search py_tables false labelled_cjk_date text
   = Some (u "2024年3月5日") /\
   (extract_invoice_date py_tables text empty_info).2 !! k_date
   = Some (u "2024年1月1日")) /\
  date_patterns !! 0%nat = Some bare_cjk_date /\
  date_patterns !! 1%nat = Some labelled_cjk_date /\
  (forall (U : UnicodeTables) (text : str) (d : gmap str str),
     extract_invoice_date U text d
     = extract_invoice_date_loop U
         (bare_cjk_date :: [sep_date (ch "/"); sep_date (ch "-"); sep_date (ch ".")])
         text d).
Proof.
  split; [split; vm_compute; reflexivity|].
  split; [reflexivity|]. split; [reflexivity|].
  intros U text d. unfold extract_invoice_date. rewrite date_patterns_head.
  cbn [extract_invoice_date_loop].
  destruct (re_search U false bare_cjk_date text) as [r|] eqn:Eb; [done|].
  destruct (re_search U false labelled_cjk_date text) as [r|] eqn:El; [|done].
  assert (H : is_Some (re_search U false bare_cjk_date text)).
  { apply labelled_cjk_date_bare. by rewrite El. }
  rewrite Eb in H. by destruct H.
Qed.

(** * The issuer name *)

Lemma u_zhang_ying_hao : u "张英豪" = [24352; 33521; 35946].
Proof. by vm_compute. Qed.

Lemma k_item_issuer : k_item <> k_issuer.
Proof. apply (bool_decide_unpack _). vm_compute. exact I. Qed.

Lemma k_spec_issuer : k_spec <> k_issuer.
Proof. apply (bool_decide_unpack _). vm_compute. exact I. Qed.

Lemma adjacent_cjk_suffix s : forall s',
  s' `suffix_of` s -> adjacent_cjk s' = true -> adjacent_cjk s = true.
Proof.
  induction s as [|c s IH]; intros s' Hs H.
  - by apply suffix_nil_inv in Hs as ->.
  - apply suffix_cons_cases in Hs as [->|Hs]; [done|].
    cbn [adjacent_cjk]. rewrite (IH _ Hs H). apply orb_true_r.
Qed.

Section Issuer.
Variable U : UnicodeTables.

Lemma zhang_word_suffix s : forall s',
  s' `suffix_of` s -> zhang_word U s' = true -> zhang_word U s = true.
Proof.
  induction s as [|c s IH]; intros s' Hs H.
  - by apply suffix_nil_inv in Hs as ->.
  - apply suffix_cons_cases in Hs as [->|Hs]; [done|].
    cbn [zhang_word]. rewrite (IH _ Hs H). apply orb_true_r.
Qed.

Lemma set_match_cjk x : set_match U false [cjk] x = is_cjk x.
Proof. unfold set_match, is_cjk. simpl. apply orb_false_r. Qed.

Lemma set_match_word x : set_match U false [CWord] x = uni_word U x.
Proof. unfold set_match. simpl. apply orb_false_r. Qed.

(** Every match found comes from an attempt that succeeded. *)
Lemma finditer_from_exec icase p r : forall s bos skip,
  In r (finditer_from U icase bos p skip s) ->
  exists bos' s', exec U icase bos' p st0 s' = Some r.
Proof.
  induction s as [|c s IH]; intros bos skip H.
  - destruct skip; simpl in H; [|done].
    destruct (exec U icase bos p st0 []) eqn:E; [|done].
    destruct H as [<-|[]]. by exists bos, [].
  - destruct skip; simpl in H; [|by eapply IH].
    destruct (exec U icase bos p st0 (c :: s)) eqn:E; [|by eapply IH].
    destruct H as [<-|H]; [by exists bos, (c :: s)|by eapply IH].
Qed.

Lemma exec_cjk_run_two bos a b s :
  is_cjk a = true -> is_cjk b = true ->
  is_Some (exec U false bos cjk_run st0 (a :: b :: s)).
Proof.
  intros Ha Hb. unfold cjk_run, upto. cbn [exec rep].
  rewrite (set_match_cjk a), (set_match_cjk b), Ha, Hb. cbn -[set_match].
  destruct s as [|c s]; [done|]. cbn -[set_match].
  destruct (set_match U false [cjk] c); cbn -[rep];
    [destruct (rep _ _ _ _ _ _)|]; done.
Qed.

(** A bounded repetition at the end of a pattern takes between [lo] and
    [hi] characters. *)
Lemma rep_finish_length f r : forall s lo hi st,
  rep f lo (Some hi) (fun st s => Some (finish st s)) st s = Some r ->
  (length (m_whole st) + lo <= length (whole r) <= length (m_whole st) + hi)%nat.
Proof.
  induction s as [|c s IH]; intros lo hi st H; simpl in H.
  - destruct lo; [|done]. injection H as <-. simpl. rewrite length_rev. lia.
  - assert (Hstop : match lo with
                    | O => Some (finish st (c :: s))
                    | S _ => None
                    end = Some r ->
                    (length (m_whole st) + lo <= length (whole r)
                     <= length (m_whole st) + hi)%nat).
    { destruct lo; [|done]. intros [= <-]. simpl. rewrite length_rev. lia. }
    destruct (f c); simpl in H; [|by apply Hstop].
    destruct hi as [|h]; simpl in H; [by apply Hstop|].
    destruct (rep f (Nat.pred lo) (Some h) _ (consume c st) s) eqn:E;
      [|by apply Hstop].
    injection H as ->. apply IH in E. simpl in E. lia.
Qed.

Lemma exec_cjk_run_length bos s r :
  exec U false bos cjk_run st0 s = Some r ->
  name_length_ok (whole r) = true.
Proof.
  unfold cjk_run, upto. cbn [exec]. intros H.
  apply rep_finish_length in H. simpl in H. unfold name_length_ok.
  apply andb_true_iff. split; apply Nat.leb_le; lia.
Qed.

Lemma exec_cjk_run_none bos s :
  match s with a :: b :: _ => is_cjk a && is_cjk b | _ => false end = false ->
  exec U false bos cjk_run st0 s = None.
Proof.
  unfold cjk_run, upto. cbn [exec].
  destruct s as [|a [|b s]]; cbn -[set_match]; rewrite ?set_match_cjk; [done| |].
  - by destruct (is_cjk a).
  - destruct (is_cjk a); [|done]. cbn -[set_match]. by intros ->.
Qed.

Lemma exec_zhang_run_none bos s :
  match s with a :: b :: _ => (zhang =? a) && uni_word U b | _ => false end = false ->
  exec U false bos zhang_run st0 s = None.
Proof.
  unfold zhang_run. cbn [exec]. unfold lit_eq.
  destruct s as [|a [|b s]]; [done| |].
  - by destruct (zhang =? a).
  - destruct (zhang =? a); [|done]. cbn -[set_match]. rewrite set_match_word.
    by intros ->.
Qed.

Lemma name_patterns_eq : name_patterns = [lits (u "张英豪"); zhang_run; cjk_run].
Proof. reflexivity. Qed.

Lemma head_pair_false (f : char -> char -> bool) (g : str -> bool) s s' :
  (forall t, g t = match t with
                   | [] => false
                   | a :: t' => match t' with b :: _ => f a b | [] => false end || g t'
                   end) ->
  (forall t t', t' `suffix_of` t -> g t' = true -> g t = true) ->
  g s = false -> s' `suffix_of` s ->
  match s' with a :: b :: _ => f a b | _ => false end = false.
Proof.
  intros Hg Hsuf Hs Hs'.
  destruct (g s') eqn:E.
  - rewrite (Hsuf _ _ Hs' E) in Hs. done.
  - rewrite Hg in E. destruct s' as [|a [|b t]]; [done|done|].
    by apply orb_false_iff in E as [-> _].
Qed.

Lemma adjacent_cjk_head s s' :
  adjacent_cjk s = false -> s' `suffix_of` s ->
  match s' with a :: b :: _ => is_cjk a && is_cjk b | _ => false end = false.
Proof.
  apply (head_pair_false (fun a b => is_cjk a && is_cjk b) adjacent_cjk).
  - by intros [|a t].
  - intros t t'. apply adjacent_cjk_suffix.
Qed.

Lemma zhang_word_head s s' :
  zhang_word U s = false -> s' `suffix_of` s ->
  match s' with a :: b :: _ => (zhang =? a) && uni_word U b | _ => false end = false.
Proof.
  apply (head_pair_false (fun a b => (zhang =? a) && uni_word U b) (zhang_word U)).
  - by intros [|a t].
  - intros t t'. apply zhang_word_suffix.
Qed.

Lemma name_length_ok_nonempty m : name_length_ok m = true -> falsy m = false.
Proof. by destruct m. Qed.

Lemma guess_issuer_run (text : str) (patterns : list regex) :
  forall d : gmap str str,
  d !! k_issuer = Some [] ->
  guess_issuer U patterns text d =
  (Ok tt, match first_guess U patterns text with
          | Some m => <[k_issuer := m]> d
          | None => d
          end).
Proof.
  induction patterns as [|p ps IH]; intros d Hd; [done|].
  cbn [guess_issuer first_guess].
  destruct (find name_length_ok (re_findall U false p text)) as [m|] eqn:Hf.
  - unfold mbind, M_bind, setitem, getitem.
    rewrite lookup_insert_eq.
    destruct (find_some _ _ Hf) as [_ Hm].
    by rewrite (name_length_ok_nonempty _ Hm).
  - unfold mbind, M_bind, mret, M_ret, getitem. cbv beta iota.
    rewrite Hd. cbn [falsy].
    by apply IH.
Qed.

Lemma finditer_cjk_run_nonempty s : forall bos,
  adjacent_cjk s = true -> finditer_from U false bos cjk_run 0 s <> [].
Proof.
  induction s as [|a s IH]; intros bos Hadj; [done|].
  cbn [adjacent_cjk] in Hadj. apply orb_true_iff in Hadj as [Hab|Hadj].
  - destruct s as [|b s]; [done|]. apply andb_true_iff in Hab as [Ha Hb].
    destruct (exec_cjk_run_two bos a b s Ha Hb) as [r Hr].
    cbn [finditer_from]. by rewrite Hr.
  - cbn [finditer_from].
    destruct (exec U false bos cjk_run st0 (a :: s)); [done|]. by apply IH.
Qed.

(** With two adjacent characters of the range in the text, the loop
    settles on a name. *)
Lemma first_guess_adjacent text :
  adjacent_cjk text = true ->
  exists m, first_guess U name_patterns text = Some m /\ m <> [].
Proof.
  intros Hadj.
  assert (Hrun : exists m, find name_length_ok (re_findall U false cjk_run text) = Some m).
  { pose proof (finditer_cjk_run_nonempty text true Hadj) as Hne.
    unfold re_findall. change (existsb is_GOpen cjk_run) with false. cbv iota.
    destruct (finditer_from U false true cjk_run 0 text) as [|r l] eqn:E; [done|].
    exists (whole r). cbn [map find].
    destruct (finditer_from_exec false cjk_run r text true 0%nat) as (b & s' & He).
    { rewrite E. by left. }
    by rewrite (exec_cjk_run_length _ _ _ He). }
  destruct Hrun as [m3 Hm3].
  rewrite name_patterns_eq. cbn [first_guess].
  destruct (find name_length_ok (re_findall U false (lits (u "张英豪")) text))
    as [m|] eqn:H1.
  { exists m. split; [done|]. destruct (find_some _ _ H1) as [_ Hm]. by destruct m. }
  destruct (find name_length_ok (re_findall U false zhang_run text)) as [m|] eqn:H2.
  { exists m. split; [done|]. destruct (find_some _ _ H2) as [_ Hm]. by destruct m. }
  rewrite Hm3. exists m3. split; [done|].
  destruct (find_some _ _ Hm3) as [_ Hm]. by destruct m3.
Qed.

(** Without them, and without [张] before a word character, no pattern
    finds anything. *)
Lemma first_guess_none text :
  adjacent_cjk text = false -> zhang_word U text = false ->
  first_guess U name_patterns text = None.
Proof.
  intros Hadj Hz. rewrite name_patterns_eq. cbn [first_guess].
  rewrite (re_findall_nil U false (lits (u "张英豪"))).
  2:{ intros bos s' Hs. apply exec_lits_none; [by vm_compute|].
      replace (lit_chars (lits (u "张英豪"))) with [24352; 33521; 35946]
        by (by vm_compute).
      pose proof (adjacent_cjk_head _ _ Hadj Hs) as Hh.
      destruct s' as [|a [|b t]]; [done| |].
      - cbn. by rewrite andb_false_r.
      - cbn [startswith].
        destruct (24352 =? a) eqn:Ea; [|done].
        destruct (33521 =? b) eqn:Eb; [|done].
        apply N.eqb_eq in Ea as <-, Eb as <-. by vm_compute in Hh. }
  rewrite (re_findall_nil U false zhang_run).
  2:{ intros bos s' Hs. apply exec_zhang_run_none. by eapply zhang_word_head. }
  rewrite (re_findall_nil U false cjk_run).
  2:{ intros bos s' Hs. apply exec_cjk_run_none. by eapply adjacent_cjk_head. }
  done.
Qed.

(** The residual extractor when no line passes the name test. *)
Lemma extract_other_fields_no_name_line (text : str) (d : gmap str str) :
  d !! k_issuer = Some [] ->
  find (is_name_line U) (map (strip U) (split nl text)) = None ->
  exists d',
    extract_other_fields U text d = (Ok tt, d') /\
    d' !! k_issuer = Some (default [] (first_guess U name_patterns text)).
Proof.
  intros Hd Hline. unfold extract_other_fields. cbv zeta. rewrite Hline.
  set (d1 := match find is_item_line (split nl text) with
             | Some line => <[k_item := strip U line]> d
             | None => d
             end).
  assert (Hd1 : d1 !! k_issuer = Some []).
  { unfold d1. destruct (find is_item_line (split nl text)); [|done].
    by rewrite lookup_insert_ne by apply k_item_issuer. }
  set (d2 := match first_guess U name_patterns text with
             | Some m => <[k_issuer := m]> d1
             | None => d1
             end).
  assert (Hd2 : d2 !! k_issuer = Some (default [] (first_guess U name_patterns text))).
  { unfold d2. destruct (first_guess U name_patterns text); [|done].
    by rewrite lookup_insert_eq. }
  exists (match find (fun keyword => contains keyword text) spec_keywords with
          | Some keyword => <[k_spec := keyword]> d2
          | None => d2
          end).
  split.
  - unfold mbind, M_bind.
    assert (E1 : (match find is_item_line (split nl text) with
                  | Some line => setitem k_item (strip U line)
                  | None => mret tt
                  end) d = (Ok tt, d1)).
    { unfold d1. by destruct (find is_item_line (split nl text)). }
    rewrite E1. unfold mret at 1, M_ret at 1.
    unfold getitem. rewrite Hd1. cbn [falsy].
    rewrite guess_issuer_run by done. fold d2.
    by destruct (find (fun keyword => contains keyword text) spec_keywords).
  - destruct (find (fun keyword => contains keyword text) spec_keywords); [|done].
    by rewrite lookup_insert_ne by apply k_spec_issuer.
Qed.
End Issuer.

Lemma first_guess_first (U : UnicodeTables) (text : str) :
  forall (patterns : list regex) (i : nat) (pattern : regex) (m : str),
  patterns !! i = Some pattern ->
  find name_length_ok (re_findall U false pattern text) = Some m ->
  (forall j q, (j < i)%nat -> patterns !! j = Some q ->
     find name_length_ok (re_findall U false q text) = None) ->
  first_guess U patterns text = Some m.
Proof.
  induction patterns as [|p ps IH]; intros i pattern m Hi Hm Hbefore; [done|].
  cbn [first_guess]. destruct i as [|i].
  - injection Hi as ->. by rewrite Hm.
  - rewrite (Hbefore 0%nat p) by (done || lia).
    apply (IH i pattern m Hi Hm). intros j q Hj Hq.
    apply (Hbefore (S j) q); [lia|done].
Qed.

Lemma first_guess_no_match (U : UnicodeTables) (text : str) :
  forall patterns : list regex,
  (forall q, In q patterns ->
     find name_length_ok (re_findall U false q text) = None) ->
  first_guess U patterns text = None.
Proof.
  induction patterns as [|p ps IH]; intros Hnone; [done|].
  cbn [first_guess]. rewrite (Hnone p) by (by left).
  apply IH. intros q Hq. apply Hnone. by right.
Qed.

(** C6, as the code has it.  For every input text in which no line passes
    the name test, with the issuer not yet set: the extractor goes on to its
    fallback patterns, in order (the literal name, [张] followed by word
    characters, any run of two or three characters of the range).
    issuer_name is the first match of two to four characters of the first
    pattern that has such a match, and is left empty when no pattern has
    one.  So whenever the text has two adjacent characters of the range, a
    name is guessed and issuer_name is not empty; and when the text has no
    two adjacent characters of the range and no [张] followed by a word
    character, issuer_name is left empty. *)
Theorem C6_issuer_fallback_guesses :
  forall (U : UnicodeTables) (text : str) (d : gmap str str),
  d !! k_issuer = Some [] ->
  find (is_name_line U) (map (strip U) (split nl text)) = None ->
  exists d',
    extract_other_fields U text d = (Ok tt, d') /\
    (forall (i : nat) (pattern : regex) (m : str),
       name_patterns !! i = Some pattern ->
       find name_length_ok (re_findall U false pattern text) = Some m ->
       (forall j q, (j < i)%nat -> name_patterns !! j = Some q ->
          find name_length_ok (re_findall U false q text) = None) ->
       d' !! k_issuer = Some m) /\
    ((forall q, In q name_patterns ->
        find name_length_ok (re_findall U false q text) = None) ->
     d' !! k_issuer = Some []) /\
    (adjacent_cjk text = true ->
     exists v, d' !! k_issuer = Some v /\ v <> []) /\
    (adjacent_cjk text = false -> zhang_word U text = false ->
     d' !! k_issuer = Some []).
Proof.
  intros U text d Hd Hline.
  destruct (extract_other_fields_no_name_line U text d Hd Hline) as (d' & Hrun & Hi).
  exists d'. split; [done|]. split; [|split; [|split]].
  - intros i pattern m Hp Hm Hbefore.
    by rewrite Hi, (first_guess_first U text name_patterns i pattern m Hp Hm Hbefore).
  - intros Hnone. by rewrite Hi, (first_guess_no_match U text name_patterns Hnone).
  - intros Hadj. destruct (first_guess_adjacent U text Hadj) as (m & Hm & Hne).
    exists m. by rewrite Hi, Hm.
  - intros Hadj Hz. by rewrite Hi, (first_guess_none U text Hadj Hz).
Qed.

Lemma C6_issuer_fallback_guesses_witness :
  let text := u "发票号码：12345678901" in
  (empty_info !! k_issuer = Some [] /\
   find (is_name_line py_tables) (map (strip py_tables) (split nl text)) = None) /\
  exists d',
    extract_other_fields py_tables text empty_info = (Ok tt, d') /\
    (forall (i : nat) (pattern : regex) (m : str),
       name_patterns !! i = Some pattern ->
       find name_length_ok (re_findall py_tables false pattern text) = Some m ->
       (forall j q, (j < i)%nat -> name_patterns !! j = Some q ->
          find name_length_ok (re_findall py_tables false q text) = None) ->
       d' !! k_issuer = Some m) /\
    ((forall q, In q name_patterns ->
        find name_length_ok (re_findall py_tables false q text) = None) ->
     d' !! k_issuer = Some []) /\
    (adjacent_cjk text = true ->
     exists v, d' !! k_issuer = Some v /\ v <> []) /\
    (adjacent_cjk text = false -> zhang_word py_tables text = false ->
     d' !! k_issuer = Some []).
Proof.
  split; [split; vm_compute; reflexivity|].
  apply (C6_issuer_fallback_guesses py_tables _ empty_info); vm_compute; reflexivity.
Defined.

(** C6, counterexample.  No line of this text is a run of two to four
    characters of the range, and the extractor sets issuer_name to the
    field label it finds first. *)
Lemma C6_counterexample :
  let text := u "发票号码：12345678901" in
  find (is_name_line py_tables) (map (strip py_tables) (split nl text)) = None /\
  (extract_other_fields py_tables text empty_info).2 !! k_issuer = Some (u "发票号") /\
  u "发票号" <> [].
Proof. repeat split; by vm_compute. Qed.

(** * The party extractor *)

(** ** Running the loops *)

Lemma run_getitem {B : Type} (k v : list N) (f : list N -> M B) (d : gmap str str) :
  d !! k = Some v -> (getitem k ≫= f) d = f v d.
Proof. intros H. unfold mbind, M_bind, getitem. by rewrite H. Qed.

Lemma run_index {A B : Type} (l : list A) (j : nat) (x : A) (f : A -> M B)
    (d : gmap str str) :
  l !! j = Some x -> (index l j ≫= f) d = f x d.
Proof. intros H. unfold index. by rewrite H. Qed.

Lemma str_eqb_eq (a b : list N) : str_eqb a b = true <-> a = b.
Proof. unfold str_eqb. apply bool_decide_eq_true. Qed.

Lemma mem_In (x : list N) l : mem x l = true <-> In x l.
Proof.
  unfold mem. rewrite existsb_exists. split.
  - intros (y & Hy & Hxy). apply str_eqb_eq in Hxy. by subst.
  - intros Hx. exists x. split; [done|]. by apply str_eqb_eq.
Qed.

Lemma list_remove_In x l : In x l -> list_remove x l = Some (remove_first x l).
Proof.
  induction l as [|y l IH]; [done|]. intros Hx. simpl.
  destruct (str_eqb x y) eqn:E; [done|].
  destruct Hx as [->|Hx]; [|by rewrite IH].
  assert (str_eqb x x = true) by by apply str_eqb_eq. congruence.
Qed.

Lemma remove_first_In x y l : In y (remove_first x l) -> In y l.
Proof.
  induction l as [|z l IH]; [done|]. simpl.
  destruct (str_eqb x z); [by right|]. intros [->|H]; [by left|right; by apply IH].
Qed.

Lemma remove_first_NoDup x l : List.NoDup l -> List.NoDup (remove_first x l).
Proof.
  induction 1 as [|z l Hz Hl IH]; simpl; [constructor|].
  destruct (str_eqb x z); [done|]. constructor; [|done].
  intros H. by apply Hz, (remove_first_In x).
Qed.

Lemma remove_first_not_In x l : List.NoDup l -> ~ In x (remove_first x l).
Proof.
  induction 1 as [|z l Hz Hl IH]; simpl; [tauto|].
  destruct (str_eqb x z) eqn:E.
  - apply str_eqb_eq in E as ->. done.
  - intros [->|H]; [|done].
    assert (str_eqb x x = true) by by apply str_eqb_eq. congruence.
Qed.

Lemma first_hit_In lines js companies c :
  first_hit lines js companies = Some c -> In c companies.
Proof.
  induction js as [|j js IH]; [done|]. simpl.
  destruct (lines !! j) as [line_j|]; [|done].
  destruct (find _ companies) eqn:E; [|done].
  intros [= <-]. by destruct (find_some _ _ E).
Qed.

Section Claims.
Variables (key : list N) (guarded : bool) (lines : list str).

(** Once the role has a name, the scan of a line changes nothing. *)
Lemma claim_company_set (j : nat) (line_j v : str) (d : gmap str str) :
  lines !! j = Some line_j -> d !! key = Some v -> falsy v = false ->
  forall iter companies,
  claim_company key guarded lines j iter companies d = (Ok companies, d).
Proof.
  intros Hj Hv Hf iter companies.
  induction iter as [|c iter IH]; [done|]. cbn [claim_company].
  rewrite (run_index _ _ _ _ _ Hj).
  destruct (contains c line_j); [|done].
  by rewrite (run_getitem _ _ _ _ Hv), Hf.
Qed.

Lemma claim_company_unset (j : nat) (line_j : str) (d : gmap str str)
    (companies : list str) :
  lines !! j = Some line_j -> d !! key = Some [] ->
  forall iter, (forall c, In c iter -> In c companies) ->
  claim_company key guarded lines j iter companies d =
  match find (fun c => contains c line_j) iter with
  | Some c => (Ok (remove_first c companies), <[key := c]> d)
  | None => (Ok companies, d)
  end.
Proof.
  intros Hj Hv iter.
  induction iter as [|c iter IH]; intros Hin; [done|]. cbn [claim_company find].
  rewrite (run_index _ _ _ _ _ Hj).
  destruct (contains c line_j).
  - rewrite (run_getitem _ _ _ _ Hv). cbn [falsy].
    assert (Hc : In c companies) by (apply Hin; by left).
    unfold mbind, M_bind, setitem, remove, mret, M_ret.
    rewrite (proj2 (mem_In _ _) Hc), andb_false_r, (list_remove_In _ _ Hc). done.
  - apply IH. intros c' Hc'. apply Hin. by right.
Qed.

Lemma window_loop_set (v : str) (d : gmap str str) :
  d !! key = Some v -> falsy v = false ->
  forall js companies, (forall j, In j js -> (j < length lines)%nat) ->
  window_loop key guarded lines js companies d = (Ok companies, d).
Proof.
  intros Hv Hf js companies.
  induction js as [|j js IH]; intros Hjs; [done|]. cbn [window_loop].
  destruct (lookup_lt_is_Some_2 lines j) as [line_j Hj]; [apply Hjs; by left|].
  rewrite (bind_ok _ _ _ _ _ (claim_company_set j line_j v d Hj Hv Hf _ _)).
  apply IH. intros j' Hj'. apply Hjs. by right.
Qed.

Lemma window_loop_unset (d : gmap str str) (companies : list str) :
  d !! key = Some [] ->
  (forall c, In c companies -> falsy c = false) ->
  forall js, (forall j, In j js -> (j < length lines)%nat) ->
  window_loop key guarded lines js companies d =
  match first_hit lines js companies with
  | Some c => (Ok (remove_first c companies), <[key := c]> d)
  | None => (Ok companies, d)
  end.
Proof.
  intros Hv Hne js.
  induction js as [|j js IH]; intros Hjs; [done|]. cbn [window_loop first_hit].
  destruct (lookup_lt_is_Some_2 lines j) as [line_j Hj]; [apply Hjs; by left|].
  rewrite Hj.
  pose proof (claim_company_unset j line_j d companies Hj Hv companies
                (fun _ H => H)) as Hc.
  destruct (find (fun c => contains c line_j) companies) as [c|] eqn:E;
    rewrite (bind_ok _ _ _ _ _ Hc).
  - eapply window_loop_set; [apply lookup_insert_eq| |].
    + apply Hne. by destruct (find_some _ _ E).
    + intros j' Hj'. apply Hjs. by right.
  - apply IH. intros j' Hj'. apply Hjs. by right.
Qed.
End Claims.

(** ** The roles as a function of the lines *)

Lemma k_buyer_seller : k_buyer <> k_seller.
Proof. apply (bool_decide_unpack _). vm_compute. exact I. Qed.

Lemma claim_In lines i keywords line name companies c :
  In c (claim lines i keywords line name companies).2 -> In c companies.
Proof.
  unfold claim. destruct (_ && _); [|done].
  destruct (first_hit _ _ _); [|done]. apply remove_first_In.
Qed.

Lemma claim_set lines i keywords line name companies :
  falsy name = false ->
  claim lines i keywords line name companies = (name, companies).
Proof. intros H. unfold claim. by rewrite H, andb_false_r. Qed.

Lemma claim_no_keyword lines i keywords line name companies :
  has_keyword keywords line = false ->
  claim lines i keywords line name companies = (name, companies).
Proof. intros H. unfold claim. by rewrite H. Qed.

Lemma keyword_loop_run key guarded lines i line :
  forall (keywords : list str) (name : str) (companies : list str)
         (d : gmap str str),
  d !! key = Some name ->
  (forall c, In c companies -> falsy c = false) ->
  keyword_loop key guarded keywords lines i line companies d =
  (Ok (claim lines i keywords line name companies).2,
   <[key := (claim lines i keywords line name companies).1]> d).
Proof.
  induction keywords as [|kw kws IH]; intros name companies d Hd Hne.
  { unfold claim. cbn. by rewrite insert_id. }
  cbn [keyword_loop].
  assert (Hw : forall j, In j (window 3 5 i (length lines)) -> (j < length lines)%nat)
    by (intros j; apply window_lt).
  destruct (contains kw line) eqn:Ek.
  - destruct (falsy name) eqn:Hf.
    + destruct name; [|done].
      pose proof (window_loop_unset key guarded lines d companies Hd Hne _ Hw) as Hrun.
      unfold claim at 1 2. unfold has_keyword. cbn [existsb]. rewrite Ek. cbn.
      destruct (first_hit lines (window 3 5 i (length lines)) companies) as [c|] eqn:Eh;
        rewrite (bind_ok _ _ _ _ _ Hrun).
      * assert (Hc : falsy c = false) by (eapply Hne, first_hit_In; done).
        rewrite (IH c); [|apply lookup_insert_eq|].
        2:{ intros c' Hc'. by apply Hne, (remove_first_In c). }
        rewrite claim_set by done. cbn. by rewrite insert_insert_eq.
      * rewrite (IH []) by done. unfold claim.
        destruct (has_keyword kws line); cbn; [by rewrite Eh|done].
    + rewrite (bind_ok _ _ _ _ _
                 (window_loop_set key guarded lines name d Hd Hf _ companies Hw)).
      rewrite (IH name) by done. by rewrite !claim_set.
  - unfold mbind at 1, M_bind at 1, mret, M_ret.
    rewrite (IH name) by done. unfold claim, has_keyword. cbn [existsb].
    by rewrite Ek.
Qed.

Lemma set_roles_buyer (buyer seller : str) (d : gmap str str) :
  set_roles buyer seller d !! k_buyer = Some buyer.
Proof.
  unfold set_roles. rewrite lookup_insert_ne by (intros E; by apply k_buyer_seller).
  apply lookup_insert_eq.
Qed.

Lemma set_roles_seller (buyer seller : str) (d : gmap str str) :
  set_roles buyer seller d !! k_seller = Some seller.
Proof. apply lookup_insert_eq. Qed.

Lemma set_roles_other (buyer seller : str) (d : gmap str str) (k : str) :
  k <> k_buyer -> k <> k_seller -> set_roles buyer seller d !! k = d !! k.
Proof. intros H1 H2. unfold set_roles. by rewrite !lookup_insert_ne. Qed.

Lemma set_roles_id (buyer seller : str) (d : gmap str str) :
  d !! k_buyer = Some buyer -> d !! k_seller = Some seller ->
  set_roles buyer seller d = d.
Proof.
  intros Hb Hs. unfold set_roles. rewrite (insert_id d k_buyer) by done.
  by apply insert_id.
Qed.

Lemma set_roles_twice (b s b' s' : str) (d : gmap str str) :
  set_roles b' s' (set_roles b s d) = set_roles b' s' d.
Proof.
  apply map_eq. intros k.
  destruct (decide (k = k_seller)) as [->|Hs]; [by rewrite !set_roles_seller|].
  destruct (decide (k = k_buyer)) as [->|Hb]; [by rewrite !set_roles_buyer|].
  by rewrite !set_roles_other.
Qed.

Lemma assign_roles_run lines :
  forall (todo : list (nat * str)) (buyer seller : str) (companies : list str)
         (d : gmap str str),
  d !! k_buyer = Some buyer -> d !! k_seller = Some seller ->
  (forall c, In c companies -> falsy c = false) ->
  assign_roles lines todo companies d =
  (Ok (roles lines todo buyer seller companies).2,
   set_roles (roles lines todo buyer seller companies).1.1
             (roles lines todo buyer seller companies).1.2 d).
Proof.
  induction todo as [|[i line] todo IH]; intros buyer seller companies d Hb Hs Hne.
  { cbn. by rewrite set_roles_id. }
  cbn [assign_roles roles].
  set (b := claim lines i buyer_keywords line buyer companies).
  set (s := claim lines i seller_keywords line seller b.2).
  rewrite (bind_ok _ _ _ _ _
             (keyword_loop_run k_buyer false lines i line _ buyer companies d Hb Hne)).
  fold b.
  assert (Hne1 : forall c, In c b.2 -> falsy c = false).
  { intros c Hc. by apply Hne, (claim_In lines i buyer_keywords line buyer). }
  assert (Hs1 : <[k_buyer := b.1]> d !! k_seller = Some seller).
  { by rewrite lookup_insert_ne by apply k_buyer_seller. }
  rewrite (bind_ok _ _ _ _ _
             (keyword_loop_run k_seller true lines i line _ seller b.2 _ Hs1 Hne1)).
  fold s. change (<[k_seller := s.1]> (<[k_buyer := b.1]> d)) with (set_roles b.1 s.1 d).
  rewrite (IH b.1 s.1).
  - cbv zeta. by rewrite set_roles_twice.
  - apply set_roles_buyer.
  - apply set_roles_seller.
  - intros c Hc. by apply Hne1, (claim_In lines i seller_keywords line seller).
Qed.

Lemma remaining_run (buyer seller : str) (d : gmap str str) :
  d !! k_buyer = Some buyer -> d !! k_seller = Some seller ->
  forall companies,
  remaining companies d = (Ok (unclaimed buyer seller companies), d).
Proof.
  intros Hb Hs. induction companies as [|c cs IH]; [done|].
  cbn [remaining]. rewrite (run_getitem _ _ _ _ Hb), (run_getitem _ _ _ _ Hs).
  rewrite (bind_ok _ _ _ _ _ IH). unfold unclaimed. cbn [List.filter].
  by destruct (mem c [buyer; seller]).
Qed.

Lemma assign_remaining_run (buyer seller : str) (d : gmap str str)
    (companies : list str) :
  d !! k_buyer = Some buyer -> d !! k_seller = Some seller ->
  assign_remaining companies d =
  (Ok tt, set_roles (settle buyer seller companies).1
                    (settle buyer seller companies).2 d).
Proof.
  intros Hb Hs. unfold assign_remaining, settle. cbv zeta.
  rewrite (bind_ok _ _ _ _ _ (remaining_run buyer seller d Hb Hs companies)).
  destruct (unclaimed buyer seller companies) as [|r0 rest] eqn:E.
  { cbn. by rewrite set_roles_id. }
  cbn [nonempty andb nth fst snd]. rewrite (run_getitem _ _ _ _ Hb).
  set (d1 := if falsy buyer then <[k_buyer := r0]> d else d).
  assert (E1 : (if falsy buyer
                then index (r0 :: rest) 0 ≫= (fun c => setitem k_buyer c)
                else mret tt) d = (Ok tt, d1)).
  { unfold d1. by destruct (falsy buyer). }
  rewrite (bind_ok _ _ _ _ _ E1).
  assert (Hs1 : d1 !! k_seller = Some seller).
  { unfold d1. destruct (falsy buyer); [|done].
    by rewrite lookup_insert_ne by apply k_buyer_seller. }
  rewrite (run_getitem _ _ _ _ Hs1).
  assert (Hd1 : d1 = set_roles (if falsy buyer then r0 else buyer) seller d).
  { unfold d1, set_roles. destruct (falsy buyer).
    - rewrite (insert_id (<[k_buyer:=r0]> d) k_seller); [done|].
      by rewrite lookup_insert_ne by apply k_buyer_seller.
    - by rewrite (insert_id d k_buyer), insert_id. }
  destruct (falsy seller && (1 <? length (r0 :: rest))%nat) eqn:E2.
  - destruct rest as [|r1 rest']; [by rewrite andb_false_r in E2|].
    rewrite (run_index _ 1%nat r1) by done. unfold setitem. cbn [nth].
    rewrite Hd1. unfold set_roles. by rewrite insert_insert_eq.
  - by rewrite Hd1.
Qed.

Lemma assign_credit_codes_run (credit_codes : list str) (d : gmap str str) :
  is_Some (d !! k_buyer_code) -> is_Some (d !! k_seller_code) ->
  exists d',
    assign_credit_codes credit_codes d = (Ok tt, d') /\
    d' !! k_buyer = d !! k_buyer /\ d' !! k_seller = d !! k_seller.
Proof.
  intros [b Hb] [s Hs]. unfold assign_credit_codes.
  destruct credit_codes as [|c0 codes]; [by exists d|].
  cbn [nonempty length]. rewrite (run_getitem _ _ _ _ Hb).
  set (d1 := if falsy b then <[k_buyer_code := c0]> d else d).
  assert (E1 : (if falsy b
                then index (c0 :: codes) 0 ≫= (fun c => setitem k_buyer_code c)
                else mret tt) d = (Ok tt, d1)).
  { unfold d1. by destruct (falsy b). }
  assert (H1 : d1 !! k_buyer = d !! k_buyer /\ d1 !! k_seller = d !! k_seller /\
               d1 !! k_seller_code = Some s).
  { unfold d1. destruct (falsy b); [|done]. by rewrite !lookup_insert_ne by key_neq. }
  destruct H1 as (H1b & H1s & H1c).
  rewrite (bind_ok _ _ _ _ _ E1).
  destruct codes as [|c1 codes]; [by exists d1|].
  cbn [length Nat.ltb Nat.leb]. rewrite (run_getitem _ _ _ _ H1c).
  destruct (falsy s); [|by exists d1].
  exists (<[k_seller_code := c1]> d1). split; [done|].
  by rewrite !lookup_insert_ne by key_neq.
Qed.

Lemma NoDup_snoc (m : str) (l : list str) :
  List.NoDup l -> ~ In m l -> List.NoDup (l ++ [m]).
Proof.
  induction 1 as [|x l Hx Hl IH]; intros Hm; simpl.
  - constructor; [by intros []|constructor].
  - constructor.
    + rewrite in_app_iff. intros [H|[<-|[]]]; [done|]. apply Hm. by left.
    + apply IH. intros H. apply Hm. by right.
Qed.

Section PartyRun.
Variable U : UnicodeTables.

Lemma collect_spec keep : forall matches acc,
  List.NoDup acc -> (forall c, In c acc -> keep c = true) ->
  List.NoDup (collect keep acc matches) /\
  (forall c, In c (collect keep acc matches) -> keep c = true).
Proof.
  unfold collect. induction matches as [|m ms IH]; intros acc Hnd Hk; [done|].
  cbn [fold_left]. apply IH.
  - destruct (keep m && negb (mem m acc)) eqn:E; [|done].
    apply andb_true_iff in E as [_ Hm]. apply negb_true_iff in Hm.
    apply NoDup_snoc; [done|]. intros Hc. apply mem_In in Hc. congruence.
  - intros c. destruct (keep m && negb (mem m acc)) eqn:E; [|by apply Hk].
    apply andb_true_iff in E as [Hm _].
    rewrite in_app_iff. intros [Hc|[<-|[]]]; [by apply Hk|done].
Qed.

Lemma find_companies_spec text :
  List.NoDup (find_companies U text) /\
  (forall c, In c (find_companies U text) -> (5 <? length c)%nat = true).
Proof.
  unfold find_companies.
  cut (forall ps acc, List.NoDup acc ->
         (forall c, In c acc -> (5 <? length c)%nat = true) ->
         List.NoDup (fold_left (fun acc pattern =>
                       collect (fun m => (5 <? length m)%nat) acc
                               (re_findall U false pattern text)) ps acc) /\
         (forall c, In c (fold_left (fun acc pattern =>
                       collect (fun m => (5 <? length m)%nat) acc
                               (re_findall U false pattern text)) ps acc) ->
                    (5 <? length c)%nat = true)).
  { intros H. apply H; [constructor|by intros c []]. }
  induction ps as [|p ps IH]; intros acc Hnd Hk; [done|].
  cbn [fold_left].
  destruct (collect_spec (fun m => (5 <? length m)%nat)
              (re_findall U false p text) acc Hnd Hk) as [H1 H2].
  by apply IH.
Qed.

Lemma find_companies_falsy text c :
  In c (find_companies U text) -> falsy c = false.
Proof.
  intros Hc. apply (proj2 (find_companies_spec text)) in Hc. by destruct c.
Qed.

Lemma extract_company_info_run (text buyer seller : str) (d : gmap str str) :
  has_fields d -> d !! k_buyer = Some buyer -> d !! k_seller = Some seller ->
  exists d',
    extract_company_info U text d = (Ok tt, d') /\
    d' !! k_buyer = Some (final_names U text buyer seller).1 /\
    d' !! k_seller = Some (final_names U text buyer seller).2.
Proof.
  intros Hd Hb Hs. unfold extract_company_info, final_names. cbv zeta.
  set (lines := split nl text).
  set (r := roles lines (enumerate lines) buyer seller (find_companies U text)).
  rewrite (bind_ok _ _ _ _ _
             (assign_roles_run lines (enumerate lines) buyer seller
                (find_companies U text) d Hb Hs (find_companies_falsy text))).
  fold r.
  rewrite (bind_ok _ _ _ _ _
             (assign_remaining_run r.1.1 r.1.2 _ r.2
                (set_roles_buyer _ _ _) (set_roles_seller _ _ _))).
  rewrite set_roles_twice.
  set (d2 := set_roles (settle r.1.1 r.1.2 r.2).1 (settle r.1.1 r.1.2 r.2).2 d).
  assert (Hd2 : has_fields d2).
  { unfold d2, set_roles.
    apply (keeps_setitem k_seller _ ltac:(in_fields) _).
    by apply (keeps_setitem k_buyer _ ltac:(in_fields) _). }
  destruct (assign_credit_codes_run (find_credit_codes U text) d2)
    as (d' & Hrun & Hb' & Hs').
  { apply has_fields_lookup; [done|in_fields]. }
  { apply has_fields_lookup; [done|in_fields]. }
  exists d'. split; [done|]. rewrite Hb', Hs'.
  split; [apply set_roles_buyer|apply set_roles_seller].
Qed.
End PartyRun.

(** ** The lines with their numbers *)

Lemma combine_seq_In {A : Type} (l : list A) : forall (a k : nat) (x : A),
  In (k, x) (combine (seq a (length l)) l) ->
  (a <= k)%nat /\ l !! (k - a)%nat = Some x.
Proof.
  induction l as [|y l IH]; intros a k x H; [done|]. simpl in H.
  destruct H as [[= <- <-]|H].
  - split; [lia|]. by rewrite Nat.sub_diag.
  - apply IH in H as [H1 H2]. split; [lia|].
    replace (k - a)%nat with (S (k - S a)) by lia. done.
Qed.

Lemma combine_seq_middle {A : Type} (l : list A) : forall (a i : nat) (x : A),
  l !! i = Some x ->
  combine (seq a (length l)) l =
  combine (seq a (length (take i l))) (take i l)
  ++ ((a + i)%nat, x)
     :: combine (seq (S (a + i)) (length (drop (S i) l))) (drop (S i) l).
Proof.
  induction l as [|y l IH]; intros a i x Hi; [done|].
  destruct i as [|i]; simpl in Hi.
  - injection Hi as ->. simpl. by rewrite Nat.add_0_r.
  - simpl. rewrite (IH (S a) i x Hi). do 3 f_equal.
    + f_equal. lia.
    + do 2 f_equal. lia.
Qed.

Lemma enumerate_In (lines : list str) (i : nat) (line : str) :
  In (i, line) (enumerate lines) -> lines !! i = Some line.
Proof.
  intros H. apply combine_seq_In in H as [_ H]. by rewrite Nat.sub_0_r in H.
Qed.

(** The lines before line [i], line [i], and the lines after it. *)
Lemma enumerate_split (lines : list str) (i : nat) (line : str) :
  lines !! i = Some line ->
  exists pre post,
    enumerate lines = pre ++ (i, line) :: post /\
    (forall i' line', In (i', line') pre ->
       (i' < i)%nat /\ lines !! i' = Some line') /\
    (forall i' line', In (i', line') post -> lines !! i' = Some line').
Proof.
  intros Hi. eexists _, _. split; [apply (combine_seq_middle lines 0 i line Hi)|].
  split.
  - intros i' line' H. apply combine_seq_In in H as [_ H].
    rewrite Nat.sub_0_r in H.
    pose proof (lookup_lt_Some _ _ _ H) as Hlt. rewrite length_take in Hlt.
    split; [lia|]. rewrite lookup_take_lt in H by lia. done.
  - intros i' line' H. apply combine_seq_In in H as [Hle H].
    rewrite lookup_drop in H.
    replace (S i + (i' - S (0 + i)))%nat with i' in H by lia. done.
Qed.

(** ** Facts about the roles *)

Lemma roles_app lines pre post : forall buyer seller companies,
  roles lines (pre ++ post) buyer seller companies =
  roles lines post (roles lines pre buyer seller companies).1.1
                   (roles lines pre buyer seller companies).1.2
                   (roles lines pre buyer seller companies).2.
Proof.
  induction pre as [|[i line] pre IH]; intros buyer seller companies; [done|].
  cbn [app roles]. apply IH.
Qed.

(** Lines on which neither loop claims anything leave the state alone. *)
Lemma roles_idle lines todo buyer seller companies :
  (forall i line, In (i, line) todo ->
     claim lines i buyer_keywords line buyer companies = (buyer, companies) /\
     claim lines i seller_keywords line seller companies = (seller, companies)) ->
  roles lines todo buyer seller companies = (buyer, seller, companies).
Proof.
  induction todo as [|[i line] todo IH]; intros H; [done|]. cbn [roles].
  destruct (H i line) as [Hb Hs]; [by left|].
  rewrite Hb. cbn [fst snd]. rewrite Hs. cbn [fst snd].
  apply IH. intros i' line' Hin. apply H. by right.
Qed.

Lemma roles_buyer_set lines todo : forall buyer seller companies,
  falsy buyer = false ->
  (roles lines todo buyer seller companies).1.1 = buyer.
Proof.
  induction todo as [|[i line] todo IH]; intros buyer seller companies Hb; [done|].
  cbn [roles]. rewrite (claim_set _ _ _ _ buyer) by done. cbn [fst snd].
  by apply IH.
Qed.

Lemma roles_seller_set lines todo : forall buyer seller companies,
  falsy seller = false ->
  (roles lines todo buyer seller companies).1.2 = seller.
Proof.
  induction todo as [|[i line] todo IH]; intros buyer seller companies Hs; [done|].
  cbn [roles]. rewrite (claim_set _ _ _ _ seller) by done. cbn [fst snd].
  by apply IH.
Qed.

Lemma settle_buyer_set buyer seller companies :
  falsy buyer = false -> (settle buyer seller companies).1 = buyer.
Proof. intros H. unfold settle. cbn [fst]. by rewrite H, andb_false_r. Qed.

Lemma settle_seller_set buyer seller companies :
  falsy seller = false -> (settle buyer seller companies).2 = seller.
Proof. intros H. unfold settle. cbn [snd]. by rewrite H, andb_false_r. Qed.

(** ** No name in both roles *)

Lemma apart_sym x y companies : apart x y companies -> apart y x companies.
Proof.
  intros (H1 & H2 & H3 & H4 & H5). repeat split; try done.
  intros E. rewrite E. apply H5. done.
Qed.

Lemma claim_apart lines i keywords line x y companies :
  apart x y companies ->
  apart (claim lines i keywords line x companies).1 y
        (claim lines i keywords line x companies).2.
Proof.
  intros (H1 & H2 & H3 & H4 & H5). unfold claim.
  destruct (has_keyword keywords line && falsy x); [|done].
  destruct (first_hit _ _ _) as [c|] eqn:E; [|done]. cbn [fst snd].
  apply first_hit_In in E. repeat split.
  - by apply remove_first_NoDup.
  - intros c' Hc'. by apply H2, (remove_first_In c).
  - by apply remove_first_not_In.
  - intros Hy. by apply H4, (remove_first_In c).
  - intros ->. done.
Qed.

Lemma roles_apart lines todo : forall buyer seller companies,
  apart buyer seller companies ->
  apart (roles lines todo buyer seller companies).1.1
        (roles lines todo buyer seller companies).1.2
        (roles lines todo buyer seller companies).2.
Proof.
  induction todo as [|[i line] todo IH]; intros buyer seller companies H; [done|].
  cbn [roles]. apply IH, apart_sym, claim_apart, apart_sym, claim_apart, H.
Qed.

Lemma unclaimed_In buyer seller companies c :
  In c (unclaimed buyer seller companies) -> In c companies.
Proof. unfold unclaimed. rewrite filter_In. tauto. Qed.

Lemma settle_apart buyer seller companies :
  apart buyer seller companies ->
  (settle buyer seller companies).1 = (settle buyer seller companies).2 ->
  (settle buyer seller companies).1 = [].
Proof.
  intros (H1 & H2 & H3 & H4 & H5). unfold settle. cbn [fst snd].
  assert (Hnd : List.NoDup (unclaimed buyer seller companies))
    by (by apply List.NoDup_filter).
  pose proof (unclaimed_In buyer seller companies) as Hin.
  destruct (unclaimed buyer seller companies) as [|r0 rest]; [by apply H5|].
  cbn [nonempty andb nth length].
  assert (Hr0 : In r0 companies) by (apply Hin; by left).
  destruct (falsy buyer) eqn:Hb.
  - destruct (falsy seller) eqn:Hs; cbn [andb].
    + destruct rest as [|r1 rest]; cbn.
      * intros ->. done.
      * intros ->. apply List.NoDup_cons_iff in Hnd as [Hnd _].
        exfalso. apply Hnd. by left.
    + intros ->. done.
  - destruct (falsy seller) eqn:Hs; cbn [andb]; [|by apply H5].
    destruct rest as [|r1 rest]; cbn; [by apply H5|].
    intros ->. exfalso. apply H3, Hin. right. by left.
Qed.

(** ** The first keyword line *)

Section FirstKeywordLine.
Variable U : UnicodeTables.
Variables (text : str) (i : nat) (line c : str).

Hypothesis Hline : (split nl text) !! i = Some line.
Hypothesis Hbefore : forall i' line',
  (i' < i)%nat -> (split nl text) !! i' = Some line' ->
  has_keyword buyer_keywords line' = false /\
  has_keyword seller_keywords line' = false.
Hypothesis Hhit : first_hit (split nl text) (window 3 5 i (length (split nl text))) (find_companies U text) = Some c.

Lemma hit_not_empty : falsy c = false.
Proof. eapply find_companies_falsy, first_hit_In, Hhit. Qed.

(** The state when line [i] is reached is the initial one. *)
Lemma roles_first_keyword_line :
  exists post,
    roles (split nl text) (enumerate (split nl text)) [] [] (find_companies U text) =
    roles (split nl text) ((i, line) :: post) [] [] (find_companies U text).
Proof.
  destruct (enumerate_split (split nl text) i line Hline) as (pre & post & E & Hpre & _).
  exists post. rewrite E, roles_app, (roles_idle (split nl text) pre); [reflexivity|].
  intros i' line' Hin. destruct (Hpre _ _ Hin) as [Hlt Hl].
  destruct (Hbefore _ _ Hlt Hl) as [Hb Hs].
  by rewrite !claim_no_keyword.
Qed.

Lemma first_keyword_line_buyer :
  has_keyword buyer_keywords line = true ->
  (final_names U text [] []).1 = c.
Proof.
  intros Hk. unfold final_names. cbv zeta.
  destruct roles_first_keyword_line as [post ->]. cbn [roles].
  assert (E : claim (split nl text) i buyer_keywords line [] (find_companies U text)
              = (c, remove_first c (find_companies U text))).
  { unfold claim. by rewrite Hk, Hhit. }
  rewrite E. cbn [fst snd].
  rewrite settle_buyer_set; rewrite roles_buyer_set; try done;
    apply hit_not_empty.
Qed.

Lemma first_keyword_line_seller :
  has_keyword buyer_keywords line = false ->
  has_keyword seller_keywords line = true ->
  (final_names U text [] []).2 = c.
Proof.
  intros Hb Hk. unfold final_names. cbv zeta.
  destruct roles_first_keyword_line as [post ->]. cbn [roles].
  rewrite (claim_no_keyword _ _ buyer_keywords) by done. cbn [fst snd].
  assert (E : claim (split nl text) i seller_keywords line [] (find_companies U text)
              = (c, remove_first c (find_companies U text))).
  { unfold claim. by rewrite Hk, Hhit. }
  rewrite E. cbn [fst snd].
  rewrite settle_seller_set; rewrite roles_seller_set; try done;
    apply hit_not_empty.
Qed.
End FirstKeywordLine.

Lemma final_names_apart U text :
  (final_names U text [] []).1 = (final_names U text [] []).2 ->
  (final_names U text [] []).1 = [].
Proof.
  unfold final_names. cbv zeta. apply settle_apart, roles_apart.
  destruct (find_companies_spec U text) as [Hnd Hlen].
  assert (Hne : forall c, In c (find_companies U text) -> falsy c = false)
    by apply find_companies_falsy.
  repeat split; try done.
  - intros H. by apply Hne in H.
  - intros H. by apply Hne in H.
Qed.

(** C5, as the code has it.  The lines are scanned once; on each line the
    buyer keywords are tried, then the seller keywords.  From a dictionary
    with both names empty the extractor returns, and: no name ends in both
    roles; on the first line that holds a keyword of either kind, a buyer
    keyword gives the buyer the first candidate of that line's window, and a
    seller keyword with no buyer keyword beside it gives the seller that
    candidate, whatever buyer keywords the later lines hold. *)
Theorem C5_roles_claimed_line_by_line :
  forall (U : UnicodeTables) (text : str) (d : gmap str str),
  has_fields d -> d !! k_buyer = Some [] -> d !! k_seller = Some [] ->
  exists (d' : gmap str str) (buyer seller : str),
    extract_company_info U text d = (Ok tt, d') /\
    d' !! k_buyer = Some buyer /\ d' !! k_seller = Some seller /\
    (buyer = seller -> buyer = []) /\
    (forall (i : nat) (line c : str),
       split nl text !! i = Some line ->
       (forall i' line',
          (i' < i)%nat -> split nl text !! i' = Some line' ->
          has_keyword buyer_keywords line' = false /\
          has_keyword seller_keywords line' = false) ->
       first_hit (split nl text) (window 3 5 i (length (split nl text)))
                 (find_companies U text) = Some c ->
       (has_keyword buyer_keywords line = true -> buyer = c) /\
       (has_keyword buyer_keywords line = false ->
        has_keyword seller_keywords line = true -> seller = c)).
Proof.
  intros U text d Hd Hb Hs.
  destruct (extract_company_info_run U text [] [] d Hd Hb Hs) as (d' & Hrun & Hb' & Hs').
  exists d', (final_names U text [] []).1, (final_names U text [] []).2.
  split; [done|]. split; [done|]. split; [done|].
  split; [apply final_names_apart|].
  intros i line c Hline Hbefore Hhit. split.
  - by apply (first_keyword_line_buyer U text i line c).
  - by apply (first_keyword_line_seller U text i line c).
Qed.

Lemma C5_roles_claimed_line_by_line_witness :
  let text := join nl [u "销售方"; u "甲乙丙丁公司"; u "购买方"] in
  (has_fields empty_info /\
   empty_info !! k_buyer = Some [] /\ empty_info !! k_seller = Some []) /\
  exists (d' : gmap str str) (buyer seller : str),
    extract_company_info py_tables text empty_info = (Ok tt, d') /\
    d' !! k_buyer = Some buyer /\ d' !! k_seller = Some seller /\
    (buyer = seller -> buyer = []) /\
    (forall (i : nat) (line c : str),
       split nl text !! i = Some line ->
       (forall i' line',
          (i' < i)%nat -> split nl text !! i' = Some line' ->
          has_keyword buyer_keywords line' = false /\
          has_keyword seller_keywords line' = false) ->
       first_hit (split nl text) (window 3 5 i (length (split nl text)))
                 (find_companies py_tables text) = Some c ->
       (has_keyword buyer_keywords line = true -> buyer = c) /\
       (has_keyword buyer_keywords line = false ->
        has_keyword seller_keywords line = true -> seller = c)).
Proof.
  split.
  - split; [apply empty_info_fields|]. split; vm_compute; reflexivity.
  - apply (C5_roles_claimed_line_by_line py_tables _ empty_info).
    + apply empty_info_fields.
    + vm_compute; reflexivity.
    + vm_compute; reflexivity.
Defined.

(** C5, counterexample.  A seller keyword on the first line, the one
    company on the second, a buyer keyword on the third: the company is in
    the window of both keywords.  A buyer pass run to its end before the
    seller pass would make it the buyer; the extractor makes it the seller
    and leaves the buyer empty. *)
Lemma C5_counterexample :
  let text := join nl [u "销售方"; u "甲乙丙丁公司"; u "购买方"] in
  let lines := split nl text in
  let d' := (extract_company_info py_tables text empty_info).2 in
  find_companies py_tables text = [u "甲乙丙丁公司"] /\
  has_keyword buyer_keywords (u "购买方") = true /\
  lines !! 2%nat = Some (u "购买方") /\
  first_hit lines (window 3 5 2 (length lines)) (find_companies py_tables text)
  = Some (u "甲乙丙丁公司") /\
  d' !! k_buyer = Some [] /\
  d' !! k_seller = Some (u "甲乙丙丁公司").
Proof. repeat split; vm_compute; reflexivity. Qed.

(** ** Two candidates, a buyer keyword, no seller keyword *)

Section TwoCandidates.
Variable U : UnicodeTables.
Variables (text : str) (a b : str) (i : nat) (line : str).

Hypothesis Hcompanies : find_companies U text = [a; b].
Hypothesis Hno_seller :
  forall l, In l (split nl text) -> has_keyword seller_keywords l = false.
Hypothesis Hline : (split nl text) !! i = Some line.
Hypothesis Hkeyword : has_keyword buyer_keywords line = true.
Hypothesis Hhit :
  first_hit (split nl text) (window 3 5 i (length (split nl text))) [a; b] = Some a.
Hypothesis Hbefore : forall i' line',
  (i' < i)%nat -> (split nl text) !! i' = Some line' ->
  has_keyword buyer_keywords line' = true ->
  first_hit (split nl text) (window 3 5 i' (length (split nl text))) [a; b] = None.

Lemma two_candidates_apart : a <> b /\ falsy a = false /\ falsy b = false.
Proof.
  destruct (find_companies_spec U text) as [Hnd Hlen]. rewrite Hcompanies in *.
  split; [|split].
  - apply List.NoDup_cons_iff in Hnd as [Hnd _]. intros ->. apply Hnd. by left.
  - assert (H : (5 <? length a)%nat = true) by (apply Hlen; by left).
    by destruct a.
  - assert (H : (5 <? length b)%nat = true) by (apply Hlen; right; by left).
    by destruct b.
Qed.

Lemma lookup_no_seller i' line' :
  (split nl text) !! i' = Some line' -> has_keyword seller_keywords line' = false.
Proof.
  intros H. apply Hno_seller, list_elem_of_In. by eapply list_elem_of_lookup_2.
Qed.

Lemma two_candidates_names : final_names U text [] [] = (a, []).
Proof.
  destruct two_candidates_apart as (Hab & Ha & Hb).
  unfold final_names. cbv zeta. rewrite Hcompanies.
  destruct (enumerate_split (split nl text) i line Hline) as (pre & post & E & Hpre & Hpost).
  rewrite E, roles_app, (roles_idle (split nl text) pre).
  2:{ intros i' line' Hin. destruct (Hpre _ _ Hin) as [Hlt Hl]. split.
      - unfold claim. destruct (has_keyword buyer_keywords line') eqn:Hk; [|done].
        by rewrite (Hbefore _ _ Hlt Hl Hk).
      - apply claim_no_keyword. by eapply lookup_no_seller. }
  cbn [fst snd roles].
  assert (E1 : claim (split nl text) i buyer_keywords line [] [a; b] = (a, [b])).
  { unfold claim. rewrite Hkeyword, Hhit. cbn [andb falsy remove_first].
    by rewrite (proj2 (str_eqb_eq a a) eq_refl). }
  rewrite E1. cbn [fst snd].
  rewrite (claim_no_keyword _ _ seller_keywords)
    by (by eapply lookup_no_seller). cbn [fst snd].
  rewrite (roles_idle (split nl text) post).
  2:{ intros i' line' Hin. split; [by apply claim_set|].
      apply claim_no_keyword. eapply lookup_no_seller. by eapply Hpost. }
  cbn [fst snd]. unfold settle, unclaimed. cbn [List.filter mem existsb].
  assert (Hba : str_eqb b a = false).
  { destruct (str_eqb b a) eqn:Eb; [|done]. apply str_eqb_eq in Eb. congruence. }
  assert (Hbe : str_eqb b [] = false).
  { destruct (str_eqb b []) eqn:Eb; [|done]. apply str_eqb_eq in Eb.
    by rewrite Eb in Hb. }
  rewrite Hba, Hbe. cbn [orb negb nonempty andb length Nat.ltb Nat.leb falsy].
  by rewrite Ha.
Qed.
End TwoCandidates.

(** C4, as the code has it.  For every text with exactly two candidate
    names, no line with a seller keyword, and a line with a buyer keyword
    whose window scan meets the first name first, no earlier buyer-keyword
    line meeting any candidate: from a dictionary with both names empty,
    buyer_name is the first name, by proximity, and seller_name stays empty.
    The positional fallback gives an empty seller role the second of the
    candidates left and nothing when one candidate is left. *)
Theorem C4_buyer_by_proximity_seller_left_empty :
  forall (U : UnicodeTables) (text : str) (d : gmap str str)
         (a b : str) (i : nat) (line : str),
  has_fields d -> d !! k_buyer = Some [] -> d !! k_seller = Some [] ->
  find_companies U text = [a; b] ->
  (forall l, In l (split nl text) -> has_keyword seller_keywords l = false) ->
  split nl text !! i = Some line ->
  has_keyword buyer_keywords line = true ->
  first_hit (split nl text) (window 3 5 i (length (split nl text))) [a; b] = Some a ->
  (forall i' line',
     (i' < i)%nat -> split nl text !! i' = Some line' ->
     has_keyword buyer_keywords line' = true ->
     first_hit (split nl text) (window 3 5 i' (length (split nl text))) [a; b] = None) ->
  exists d' : gmap str str,
    extract_company_info U text d = (Ok tt, d') /\
    d' !! k_buyer = Some a /\ d' !! k_seller = Some [].
Proof.
  intros U text d a b i line Hd Hb Hs Hc Hno Hline Hk Hhit Hbefore.
  destruct (extract_company_info_run U text [] [] d Hd Hb Hs) as (d' & Hrun & Hb' & Hs').
  exists d'. split; [done|].
  rewrite (two_candidates_names U text a b i line Hc Hno Hline Hk Hhit Hbefore) in Hb', Hs'.
  done.
Qed.

Lemma C4_buyer_by_proximity_seller_left_empty_witness :
  let text := join nl [u "购买方：甲乙丙丁公司"; u "戊己庚辛公司"] in
  let a := u "甲乙丙丁公司" in
  let b := u "戊己庚辛公司" in
  let line := u "购买方：甲乙丙丁公司" in
  (has_fields empty_info /\
   empty_info !! k_buyer = Some [] /\ empty_info !! k_seller = Some [] /\
   find_companies py_tables text = [a; b] /\
   (forall l, In l (split nl text) -> has_keyword seller_keywords l = false) /\
   split nl text !! 0%nat = Some line /\
   has_keyword buyer_keywords line = true /\
   first_hit (split nl text) (window 3 5 0 (length (split nl text))) [a; b] = Some a /\
   (forall i' line',
      (i' < 0)%nat -> split nl text !! i' = Some line' ->
      has_keyword buyer_keywords line' = true ->
      first_hit (split nl text) (window 3 5 i' (length (split nl text))) [a; b] = None)) /\
  exists d' : gmap str str,
    extract_company_info py_tables text empty_info = (Ok tt, d') /\
    d' !! k_buyer = Some a /\ d' !! k_seller = Some [].
Proof.
  assert (H : let text := join nl [u "购买方：甲乙丙丁公司"; u "戊己庚辛公司"] in
              forall l, In l (split nl text) -> has_keyword seller_keywords l = false).
  { intros text l Hl. vm_compute in Hl.
    destruct Hl as [<-|[<-|[]]]; vm_compute; reflexivity. }
  split.
  - split; [apply empty_info_fields|].
    do 3 (split; [vm_compute; reflexivity|]).
    split; [exact H|].
    do 3 (split; [vm_compute; reflexivity|]).
    intros i' line' Hlt. lia.
  - apply (C4_buyer_by_proximity_seller_left_empty py_tables _ empty_info
             (u "甲乙丙丁公司") (u "戊己庚辛公司") 0%nat (u "购买方：甲乙丙丁公司")).
    + apply empty_info_fields.
    + vm_compute; reflexivity.
    + vm_compute; reflexivity.
    + vm_compute; reflexivity.
    + exact H.
    + vm_compute; reflexivity.
    + vm_compute; reflexivity.
    + vm_compute; reflexivity.
    + intros i' line' Hlt. lia.
Defined.

(** C4, counterexample.  Two candidate names, a buyer keyword on the line
    of the first, no seller keyword: seller_name is left empty, it is not the
    second name.  In the second text the first name is on the keyword line
    too, and the window scan meets the second name on an earlier line:
    buyer_name is the second name. *)
Lemma C4_counterexample :
  (let text := join nl [u "购买方：甲乙丙丁公司"; u "戊己庚辛公司"] in
   let d' := (extract_company_info py_tables text empty_info).2 in
   find_companies py_tables text = [u "甲乙丙丁公司"; u "戊己庚辛公司"] /\
   forallb (fun l => negb (has_keyword seller_keywords l)) (split nl text) = true /\
   has_keyword buyer_keywords (u "购买方：甲乙丙丁公司") = true /\
   contains (u "甲乙丙丁公司") (u "购买方：甲乙丙丁公司") = true /\
   d' !! k_buyer = Some (u "甲乙丙丁公司") /\
   d' !! k_seller = Some [] /\
   d' !! k_seller <> Some (u "戊己庚辛公司")) /\
  (let text := join nl [u "ABCDEF公司"; u "购买方：甲乙丙丁公司"] in
   let d' := (extract_company_info py_tables text empty_info).2 in
   find_companies py_tables text = [u "甲乙丙丁公司"; u "ABCDEF公司"] /\
   forallb (fun l => negb (has_keyword seller_keywords l)) (split nl text) = true /\
   has_keyword buyer_keywords (u "购买方：甲乙丙丁公司") = true /\
   contains (u "甲乙丙丁公司") (u "购买方：甲乙丙丁公司") = true /\
   d' !! k_buyer = Some (u "ABCDEF公司") /\
   d' !! k_seller = Some []).
Proof.
  split; repeat split; try (vm_compute; reflexivity).
  vm_compute. discriminate.
Qed.

(** * The batch runner *)

Section BatchFacts.
Variable U : UnicodeTables.
Variable O : Openpyxl.
Variable listdir : str -> option (list str).
Variable path_join : str -> str -> str.
Variable pdf_text : str -> option str.
Variable sheet_stem : str -> str.

Lemma record_of_ok (pdf_file : str) :
  parse_invoice_info U (extract_text_from_pdf pdf_text pdf_file)
  = Ok (record_of U pdf_text pdf_file) /\
  has_fields (record_of U pdf_text pdf_file).
Proof.
  unfold record_of.
  by destruct (parse_invoice_info_ok U (extract_text_from_pdf pdf_text pdf_file))
    as (d & -> & Hd).
Qed.

Lemma process_loop_run (pdf_files : list str) :
  forall (wb : workbook O) (success_count : nat),
  process_loop U O pdf_text sheet_stem pdf_files wb success_count =
  (fold_left (added U O pdf_text sheet_stem)
             (List.filter (readable pdf_text) pdf_files) wb,
   (success_count + length (List.filter (readable pdf_text) pdf_files))%nat).
Proof.
  induction pdf_files as [|f fs IH]; intros wb success_count.
  { cbn. by rewrite Nat.add_0_r. }
  cbn [process_loop List.filter].
  destruct (falsy (extract_text_from_pdf pdf_text f)) eqn:Hf.
  - assert (Hr : readable pdf_text f = false) by (unfold readable; by rewrite Hf).
    rewrite Hr. apply IH.
  - assert (Hr : readable pdf_text f = true) by (unfold readable; by rewrite Hf).
    rewrite Hr. cbn [fold_left length].
    destruct (record_of_ok f) as [Hp _]. rewrite Hp, IH.
    unfold added at 2. f_equal. lia.
Qed.

Lemma process_invoices_run (folder_path output_excel_path : str) :
  process_invoices U O listdir path_join pdf_text sheet_stem
                   folder_path output_excel_path
  = match new_workbook O with
    | Some wb0 =>
      let wb := fold_left (added U O pdf_text sheet_stem)
                  (List.filter (readable pdf_text)
                     (return_file_list_in_folder listdir path_join folder_path))
                  wb0 in
      if nonempty (List.filter (readable pdf_text)
                     (return_file_list_in_folder listdir path_join folder_path))
         && save O wb output_excel_path
      then (true, Some wb) else (false, None)
    | None => (false, None)
    end.
Proof.
  unfold process_invoices, create_excel_workbook. cbv zeta.
  destruct (return_file_list_in_folder listdir path_join folder_path) as [|f fs].
  { cbn. by destruct (new_workbook O). }
  cbn [nonempty negb]. destruct (new_workbook O) as [wb0|]; [|done].
  rewrite process_loop_run. cbn [Nat.add].
  by destruct (List.filter (readable pdf_text) (f :: fs)).
Qed.
End BatchFacts.



(** * Part III: further properties of the code *)

(** * What a match consumes *)

Lemma consume_all_in (w : str) : forall st : mstate,
  m_in (consume_all w st) = m_in st.
Proof. induction w as [|c w IH]; intros st; [done|]. cbn [consume_all]. by rewrite IH. Qed.

Lemma consume_all_whole (w : str) : forall st : mstate,
  m_whole (consume_all w st) = rev w ++ m_whole st.
Proof.
  induction w as [|c w IH]; intros st; [done|]. cbn [consume_all rev].
  by rewrite IH, <- app_assoc.
Qed.

Lemma consume_all_group (w : str) : forall st : mstate,
  m_group (consume_all w st)
  = if m_in st then rev w ++ m_group st else m_group st.
Proof.
  induction w as [|c w IH]; intros st; [by destruct (m_in st)|].
  cbn [consume_all rev]. rewrite IH. cbn [consume m_in m_group].
  destruct (m_in st); [by rewrite <- app_assoc|done].
Qed.

Lemma consume_all_app (w1 w2 : str) : forall st : mstate,
  consume_all (w1 ++ w2) st = consume_all w2 (consume_all w1 st).
Proof. induction w1 as [|c w1 IH]; intros st; [done|]. cbn. apply IH. Qed.

(** A repetition consumes between [lo] and [hi] characters of the set,
    and the rest of the pattern goes on from there. *)
Lemma rep_trace (f : char -> bool) (k : mstate -> str -> option mres) (r : mres) :
  forall (s : str) (lo : nat) (hi : option nat) (st : mstate),
  rep f lo hi k st s = Some r ->
  exists w s',
    s = w ++ s' /\ forallb f w = true /\ (lo <= length w)%nat /\
    (forall n, hi = Some n -> (length w <= n)%nat) /\
    k (consume_all w st) s' = Some r.
Proof.
  induction s as [|c s IH]; intros lo hi st H; simpl in H.
  - destruct lo; [|done]. exists [], []. repeat split; try done. intros; simpl; lia.
  - assert (Hstop : match lo with O => k st (c :: s) | S _ => None end = Some r ->
                    exists w s',
                      c :: s = w ++ s' /\ forallb f w = true /\ (lo <= length w)%nat /\
                      (forall n, hi = Some n -> (length w <= n)%nat) /\
                      k (consume_all w st) s' = Some r).
    { destruct lo; [|done]. intros Hk. exists [], (c :: s).
      repeat split; try done. intros; simpl; lia. }
    destruct (f c && negb (hi_zero hi)) eqn:Hc; [|by apply Hstop].
    destruct (rep f (Nat.pred lo) (dec_hi hi) k (consume c st) s) as [r'|] eqn:E;
      [|by apply Hstop].
    injection H as ->. apply andb_true_iff in Hc as [Hf Hz].
    destruct (IH _ _ _ E) as (w & s' & -> & Hw & Hlo & Hhi & Hk).
    exists (c :: w), s'. split; [done|]. split; [by simpl; rewrite Hf|].
    split; [simpl; lia|]. split; [|done].
    intros n ->. destruct n as [|n]; [done|].
    specialize (Hhi n eq_refl). simpl. lia.
Qed.

Section Traces.
Variable U : UnicodeTables.
Variable icase : bool.

Lemma word_trace (w : str) : forall (st : mstate) (s : str) (st' : mstate) (s' : str),
  word U icase w st s = Some (st', s') ->
  exists x, s = x ++ s' /\ st' = consume_all x st /\ length x = length w /\
            (icase = false -> x = w).
Proof.
  induction w as [|c w IH]; intros st s st' s' H; simpl in H.
  - injection H as <- <-. by exists [].
  - destruct s as [|x s]; [done|].
    destruct (lit_eq U icase c x) eqn:El; [|done].
    destruct (IH _ _ _ _ H) as (y & -> & -> & Hlen & Hy).
    exists (x :: y). repeat split; [by simpl; rewrite Hlen|].
    intros ->. rewrite Hy by done. unfold lit_eq in El.
    apply N.eqb_eq in El. by rewrite El.
Qed.

Lemma alt_trace (ws : list str) (k : mstate -> str -> option mres)
    (r : mres) (st : mstate) (s : str) :
  alt U icase ws k st s = Some r ->
  exists x s', s = x ++ s' /\ (length x <= list_max (map length ws))%nat /\
               k (consume_all x st) s' = Some r.
Proof.
  induction ws as [|w ws IH]; simpl; [done|].
  assert (Hrest : alt U icase ws k st s = Some r ->
                  exists x s', s = x ++ s' /\
                    (length x <= Nat.max (length w) (list_max (map length ws)))%nat /\
                    k (consume_all x st) s' = Some r).
  { intros H. destruct (IH H) as (x & s' & -> & Hx & Hk).
    exists x, s'. repeat split; [lia|done]. }
  destruct (word U icase w st s) as [[st1 s1]|] eqn:Ew; [|done].
  destruct (k st1 s1) as [r'|] eqn:Ek; [|done].
  intros [= ->]. apply word_trace in Ew as (x & -> & -> & Hlen & _).
  exists x, s1. repeat split; [lia|done].
Qed.

(** A prefix without parentheses consumes a prefix [w] of the subject,
    of a length within the bounds of the prefix, and leaves the rest of the
    pattern to go on after it. *)
Lemma exec_trace (bos : bool) (p q : regex) (r : mres) :
  no_group p = true ->
  forall (st : mstate) (s : str),
  exec U icase bos (p ++ q) st s = Some r ->
  exists w s',
    s = w ++ s' /\ (min_len p <= length w)%nat /\
    (forall n, max_len p = Some n -> (length w <= n)%nat) /\
    exec U icase bos q (consume_all w st) s' = Some r.
Proof.
  induction p as [|a p IH]; intros Hp st s H.
  - exists [], s. repeat split; try done. intros n [= <-]. done.
  - simpl in Hp. apply andb_true_iff in Hp as [Ha Hp]. specialize (IH Hp).
    cbn [app exec] in H. cbn [min_len max_len]. destruct a; try done.
    + destruct s as [|x s]; [done|]. destruct (lit_eq U icase c x); [|done].
      destruct (IH _ _ H) as (w & s' & -> & Hmin & Hmax & He).
      exists (x :: w), s'. repeat split; [simpl; lia| |done].
      cbn [atom_max]. intros n Hn. destruct (max_len p) as [n'|]; [|done].
      injection Hn as <-. specialize (Hmax n' eq_refl). simpl. lia.
    + destruct s as [|x s]; [done|]. destruct (set_match U icase cs x); [|done].
      destruct (IH _ _ H) as (w & s' & -> & Hmin & Hmax & He).
      exists (x :: w), s'. repeat split; [simpl; lia| |done].
      cbn [atom_max]. intros n Hn. destruct (max_len p) as [n'|]; [|done].
      injection Hn as <-. specialize (Hmax n' eq_refl). simpl. lia.
    + apply rep_trace in H as (w1 & s1 & -> & _ & Hlo & Hhi & H).
      destruct (IH _ _ H) as (w & s' & -> & Hmin & Hmax & He).
      exists (w1 ++ w), s'. rewrite <- app_assoc, consume_all_app, length_app.
      repeat split; [simpl; lia| |done].
      cbn [atom_max]. intros n Hn. destruct hi as [h|]; [|done].
      destruct (max_len p) as [n'|]; [|done].
      injection Hn as <-. specialize (Hmax n' eq_refl). specialize (Hhi h eq_refl). lia.
    + apply alt_trace in H as (w1 & s1 & -> & Hw1 & H).
      destruct (IH _ _ H) as (w & s' & -> & Hmin & Hmax & He).
      exists (w1 ++ w), s'. rewrite <- app_assoc, consume_all_app, length_app.
      repeat split; [simpl; lia| |done].
      cbn [atom_max]. intros n Hn. destruct (max_len p) as [n'|]; [|done].
      injection Hn as <-. specialize (Hmax n' eq_refl). lia.
    + destruct (bos && falsy (m_whole st)); [|done].
      destruct (IH _ _ H) as (w & s' & -> & Hmin & Hmax & He).
      exists w, s'. repeat split; [simpl; lia| |done].
      cbn [atom_max]. intros n Hn. destruct (max_len p) as [n'|]; [|done].
      injection Hn as <-. by apply Hmax.
    + destruct (falsy s || str_eqb s [nl]); [|done].
      destruct (IH _ _ H) as (w & s' & -> & Hmin & Hmax & He).
      exists w, s'. repeat split; [simpl; lia| |done].
      cbn [atom_max]. intros n Hn. destruct (max_len p) as [n'|]; [|done].
      injection Hn as <-. by apply Hmax.
Qed.

(** A pattern without parentheses: the match is the prefix consumed. *)
Lemma exec_whole (bos : bool) (p : regex) (r : mres) (s : str) :
  no_group p = true ->
  exec U icase bos p st0 s = Some r ->
  s = whole r ++ rest r /\ (min_len p <= length (whole r))%nat /\
  (forall n, max_len p = Some n -> (length (whole r) <= n)%nat).
Proof.
  intros Hp H. rewrite <- (app_nil_r p) in H.
  apply exec_trace in H as (w & s' & -> & Hmin & Hmax & H); [|done].
  cbn [exec] in H. injection H as <-. cbn [finish whole rest].
  by rewrite consume_all_whole, rev_app_distr, rev_involutive.
Qed.

(** A pattern with one pair of parentheses, closed at its end: the group
    is a piece of the subject, and the match ends with it. *)
Lemma exec_group (bos : bool) (p mid : regex) (r : mres) (s : str) :
  no_group p = true -> no_group mid = true ->
  exec U icase bos (p ++ GOpen :: mid ++ [GClose]) st0 s = Some r ->
  (exists w, s = w ++ group1 r ++ rest r /\ whole r = w ++ group1 r) /\
  (min_len mid <= length (group1 r))%nat /\
  (forall n, max_len mid = Some n -> (length (group1 r) <= n)%nat).
Proof.
  intros Hp Hmid H.
  apply exec_trace in H as (w & s1 & -> & _ & _ & H); [|done].
  cbn [exec] in H.
  apply exec_trace in H as (g & s2 & -> & Hmin & Hmax & H); [|done].
  cbn [exec] in H. injection H as <-.
  cbn [finish whole group1 rest set_in m_whole m_group].
  rewrite consume_all_whole, consume_all_group. cbn [set_in m_in m_whole m_group].
  rewrite consume_all_whole, consume_all_group. cbn [st0 m_in m_whole m_group].
  rewrite !app_nil_r, !rev_app_distr, !rev_involutive.
  split; [by exists w|done].
Qed.

(** The same when the group is one repetition: its characters are of the
    set. *)
Lemma exec_rep_group (bos : bool) (p : regex) (cs : list cls) (lo : nat)
    (hi : option nat) (r : mres) (s : str) :
  no_group p = true ->
  exec U icase bos (p ++ [GOpen; Rep cs lo hi; GClose]) st0 s = Some r ->
  forallb (set_match U icase cs) (group1 r) = true.
Proof.
  intros Hp H.
  apply exec_trace in H as (w & s1 & -> & _ & _ & H); [|done].
  cbn [exec] in H.
  apply rep_trace in H as (g & s2 & -> & Hg & Hlo & Hhi & H).
  cbn [exec] in H. injection H as <-.
  cbn [finish group1 set_in m_group].
  rewrite consume_all_group. cbn [set_in m_in m_group].
  rewrite consume_all_group. cbn [st0 m_in m_group].
  by rewrite app_nil_r, rev_involutive.
Qed.

(** Every match that [finditer] reports is a match at some position. *)
Lemma finditer_from_In (p : regex) (r : mres) : forall (s : str) (bos : bool) (skip : nat),
  In r (finditer_from U icase bos p skip s) ->
  exists bos' s', s' `suffix_of` s /\ exec U icase bos' p st0 s' = Some r.
Proof.
  induction s as [|c s IH]; intros bos skip H.
  - destruct skip; simpl in H; [|done].
    destruct (exec U icase bos p st0 []) as [r'|] eqn:E; [|done].
    destruct H as [->|[]]. by exists bos, [].
  - destruct skip as [|skip]; simpl in H.
    + destruct (exec U icase bos p st0 (c :: s)) as [r'|] eqn:E.
      * destruct H as [->|H]; [by exists bos, (c :: s)|].
        destruct (IH _ _ H) as (bos' & s' & Hs & He).
        exists bos', s'. split; [by apply suffix_cons_r|done].
      * destruct (IH _ _ H) as (bos' & s' & Hs & He).
        exists bos', s'. split; [by apply suffix_cons_r|done].
    + destruct (IH _ _ H) as (bos' & s' & Hs & He).
      exists bos', s'. split; [by apply suffix_cons_r|done].
Qed.

Lemma re_findall_In (p : regex) (text m : str) :
  In m (re_findall U icase p text) ->
  exists r bos' s',
    s' `suffix_of` text /\ exec U icase bos' p st0 s' = Some r /\
    m = (if existsb is_GOpen p then group1 r else whole r).
Proof.
  unfold re_findall. rewrite in_map_iff. intros (r & <- & Hr).
  apply finditer_from_In in Hr as (bos' & s' & Hs & He).
  exists r, bos', s'. by destruct (existsb is_GOpen p).
Qed.
End Traces.

(** ** Substrings *)

Lemma startswith_app (m b : str) : startswith m (m ++ b) = true.
Proof. induction m as [|c m IH]; [done|]. simpl. by rewrite N.eqb_refl. Qed.

Lemma contains_startswith (m s : str) :
  startswith m s = true -> contains m s = true.
Proof. intros H. destruct s; simpl; by rewrite H. Qed.

Lemma contains_app (a m b : str) : contains m (a ++ m ++ b) = true.
Proof.
  induction a as [|c a IH].
  - apply contains_startswith. exact (startswith_app m b).
  - cbn [app contains]. rewrite IH. apply orb_true_r.
Qed.

Lemma startswith_prefix (m s : str) :
  startswith m s = true -> exists b, s = m ++ b.
Proof.
  revert s. induction m as [|c m IH]; intros s H; [by exists s|].
  destruct s as [|x s]; [done|]. simpl in H.
  apply andb_true_iff in H as [Hc H]. apply N.eqb_eq in Hc as ->.
  destruct (IH _ H) as [b ->]. by exists b.
Qed.

Lemma contains_infix (m s : str) :
  contains m s = true -> exists a b, s = a ++ m ++ b.
Proof.
  induction s as [|c s IH]; simpl; intros H.
  - apply orb_true_iff in H as [H|H]; [|done].
    apply startswith_prefix in H as [b ->]. by exists [], b.
  - apply orb_true_iff in H as [H|H].
    + apply startswith_prefix in H as [b ->]. by exists [], b.
    + destruct (IH H) as (a & b & ->). by exists (c :: a), b.
Qed.

Lemma contains_trans (a b c : str) :
  contains a b = true -> contains b c = true -> contains a c = true.
Proof.
  intros Hab Hbc.
  apply contains_infix in Hab as (x & y & ->).
  apply contains_infix in Hbc as (x' & y' & ->).
  replace (x' ++ (x ++ a ++ y) ++ y') with ((x' ++ x) ++ a ++ (y ++ y'))
    by (by rewrite <- !app_assoc).
  apply contains_app.
Qed.

(** What [findall] returns for a pattern with one group closed at its
    end, or with none, is in the subject. *)
Lemma re_findall_group_contains (U : UnicodeTables) (icase : bool)
    (p mid : regex) (text m : str) :
  no_group p = true -> no_group mid = true ->
  In m (re_findall U icase (p ++ GOpen :: mid ++ [GClose]) text) ->
  contains m text = true.
Proof.
  intros Hp Hmid H. apply re_findall_In in H as (r & bos' & s' & [a ->] & He & ->).
  assert (Hg : existsb is_GOpen (p ++ GOpen :: mid ++ [GClose]) = true).
  { rewrite existsb_app. cbn. apply orb_true_r. }
  rewrite Hg. apply exec_group in He as [(w & -> & _) _]; [|done..].
  rewrite app_assoc. apply contains_app.
Qed.

Lemma no_group_no_GOpen (p : regex) : no_group p = true -> existsb is_GOpen p = false.
Proof.
  induction p as [|a p IH]; [done|]. simpl. intros H.
  apply andb_true_iff in H as [Ha H]. rewrite (IH H). by destruct a.
Qed.

Lemma re_findall_whole_contains (U : UnicodeTables) (icase : bool)
    (p : regex) (text m : str) :
  no_group p = true ->
  In m (re_findall U icase p text) ->
  contains m text = true.
Proof.
  intros Hp H. apply re_findall_In in H as (r & bos' & s' & [a ->] & He & ->).
  rewrite (no_group_no_GOpen p Hp).
  apply exec_whole in He as [-> _]; [|done]. apply contains_app.
Qed.

Lemma re_search_group_contains (U : UnicodeTables) (icase : bool)
    (p mid : regex) (text : str) (r : mres) :
  no_group p = true -> no_group mid = true ->
  re_search U icase (p ++ GOpen :: mid ++ [GClose]) text = Some r ->
  contains (group1 r) text = true.
Proof.
  intros Hp Hmid H. apply search_from_some in H as (bos' & s' & [a ->] & He).
  apply exec_group in He as [(w & -> & _) _]; [|done..].
  rewrite app_assoc. apply contains_app.
Qed.

(** * The fields an extractor can change *)

Lemma only_changes_refl (ks : list str) (d : gmap str str) : only_changes ks d d.
Proof. by intros k _. Qed.

Lemma only_changes_insert (ks : list str) (k v : str) (d : gmap str str) :
  k ∈ ks -> only_changes ks d (<[k := v]> d).
Proof.
  intros Hk k' Hk'. apply lookup_insert_ne. intros ->. by apply Hk'.
Qed.

Lemma keeps_setitem_only (ks : list str) (d0 : gmap str str) (k v : str) :
  k ∈ ks -> keeps (only_changes ks d0) (setitem k v).
Proof.
  intros Hk d Hd k' Hk'. change ((setitem k v d).2) with (<[k := v]> d).
  rewrite lookup_insert_ne; [by apply Hd|]. intros ->. by apply Hk'.
Qed.

Ltac only_step :=
  lazymatch goal with
  | |- keeps _ (mret _) => apply keeps_ret
  | |- keeps _ (raise _) => apply keeps_raise
  | |- keeps _ (getitem _) => apply keeps_getitem
  | |- keeps _ (index _ _) => apply keeps_index
  | |- keeps _ (remove _ _) => apply keeps_remove
  | |- keeps _ (setitem _ _) => apply keeps_setitem_only; first [assumption | in_fields]
  | |- keeps _ (_ ≫= _) => apply keeps_bind; [|intros]
  | |- keeps _ (if ?b then _ else _) => destruct b
  | |- keeps _ (match ?x with _ => _ end) => destruct x
  end.

Section Frames.
Variable U : UnicodeTables.
Variable d0 : gmap str str.

Lemma only_claim_company (ks : list str) (key : str) (guarded : bool)
    (lines : list str) (j : nat) (iter companies : list str) :
  key ∈ ks ->
  keeps (only_changes ks d0) (claim_company key guarded lines j iter companies).
Proof.
  intros Hk. induction iter as [|c iter IH]; cbn [claim_company]; repeat only_step; done.
Qed.

Lemma only_window_loop (ks : list str) (key : str) (guarded : bool)
    (lines : list str) (js : list nat) (companies : list str) :
  key ∈ ks ->
  keeps (only_changes ks d0) (window_loop key guarded lines js companies).
Proof.
  intros Hk. revert companies.
  induction js as [|j js IH]; intros companies; cbn [window_loop]; repeat only_step.
  - by apply only_claim_company.
  - apply IH.
Qed.

Lemma only_keyword_loop (ks : list str) (key : str) (guarded : bool)
    (keywords lines : list str) (i : nat) (line : str) (companies : list str) :
  key ∈ ks ->
  keeps (only_changes ks d0) (keyword_loop key guarded keywords lines i line companies).
Proof.
  intros Hk. revert companies.
  induction keywords as [|kw kws IH]; intros companies; cbn [keyword_loop]; repeat only_step.
  - by apply only_window_loop.
  - apply IH.
Qed.

Lemma only_assign_roles (lines : list str) (todo : list (nat * str))
    (companies : list str) :
  keeps (only_changes [k_buyer; k_seller] d0) (assign_roles lines todo companies).
Proof.
  revert companies.
  induction todo as [|[i line] todo IH]; intros companies; cbn [assign_roles];
    repeat only_step.
  - apply only_keyword_loop. in_fields.
  - apply only_keyword_loop. in_fields.
  - apply IH.
Qed.

Lemma only_remaining (ks : list str) (companies : list str) :
  keeps (only_changes ks d0) (remaining companies).
Proof. induction companies as [|c cs IH]; cbn [remaining]; repeat only_step. done. Qed.

Lemma only_assign_remaining (companies : list str) :
  keeps (only_changes [k_buyer; k_seller] d0) (assign_remaining companies).
Proof. unfold assign_remaining. repeat only_step. apply only_remaining. Qed.

Lemma only_assign_credit_codes (credit_codes : list str) :
  keeps (only_changes [k_buyer_code; k_seller_code] d0)
        (assign_credit_codes credit_codes).
Proof. unfold assign_credit_codes. repeat only_step. Qed.

Lemma only_changes_weaken (ks ks' : list str) (d d' : gmap str str) :
  (forall k, k ∈ ks -> k ∈ ks') -> only_changes ks d d' -> only_changes ks' d d'.
Proof. intros Hks H k Hk. apply H. intros Hin. by apply Hk, Hks. Qed.

Lemma keeps_weaken {A : Type} (ks ks' : list str) (m : M A) :
  (forall d1 : gmap str str, keeps (only_changes ks d1) m) ->
  (forall k, k ∈ ks -> k ∈ ks') ->
  keeps (only_changes ks' d0) m.
Proof.
  intros Hm Hks d Hd k Hk.
  rewrite (Hm d d (only_changes_refl ks d) k); [by apply Hd|].
  intros Hin. by apply Hk, Hks.
Qed.

Lemma only_tax_loop (amounts : list float) :
  keeps (only_changes [k_tax; k_total] d0) (tax_loop amounts).
Proof. induction amounts as [|a l IH]; cbn [tax_loop]; repeat only_step. done. Qed.

Lemma only_to_floats (ks : list str) (ms : list str) :
  keeps (only_changes ks d0) (to_floats U ms).
Proof. induction ms as [|m l IH]; cbn [to_floats]; repeat only_step. done. Qed.

Lemma only_extract_amount_info (text : str) :
  keeps (only_changes [k_tax; k_total] d0) (extract_amount_info U text).
Proof.
  unfold extract_amount_info. cbv zeta. repeat only_step;
    first [apply only_tax_loop | apply only_to_floats].
Qed.

Lemma only_guess_issuer (patterns : list regex) (text : str) :
  keeps (only_changes [k_item; k_issuer; k_spec] d0) (guess_issuer U patterns text).
Proof. induction patterns as [|p ps IH]; cbn [guess_issuer]; repeat only_step. done. Qed.

Lemma only_extract_other_fields (text : str) :
  keeps (only_changes [k_item; k_issuer; k_spec] d0) (extract_other_fields U text).
Proof.
  unfold extract_other_fields. cbv zeta. repeat only_step. apply only_guess_issuer.
Qed.
End Frames.

Lemma only_extract_company_info (U : UnicodeTables) (d0 : gmap str str) (text : str) :
  keeps (only_changes [k_buyer; k_seller; k_buyer_code; k_seller_code] d0)
        (extract_company_info U text).
Proof.
  unfold extract_company_info. cbv zeta.
  apply keeps_bind; [|intros companies; apply keeps_bind; [|intros _]].
  - apply (keeps_weaken d0 [k_buyer; k_seller]).
    + intros d1. apply only_assign_roles.
    + intros k Hk. apply list_elem_of_In in Hk. cbn [In] in Hk.
      destruct Hk as [<-|[<-|[]]]; in_fields.
  - apply (keeps_weaken d0 [k_buyer; k_seller]).
    + intros d1. apply only_assign_remaining.
    + intros k Hk. apply list_elem_of_In in Hk. cbn [In] in Hk.
      destruct Hk as [<-|[<-|[]]]; in_fields.
  - apply (keeps_weaken d0 [k_buyer_code; k_seller_code]).
    + intros d1. apply only_assign_credit_codes.
    + intros k Hk. apply list_elem_of_In in Hk. cbn [In] in Hk.
      destruct Hk as [<-|[<-|[]]]; in_fields.
Qed.

(** X4.  The party, amount and issuer extractors write their own fields only,
    also when they raise.  [extract_company_info] changes at most the two
    names and the two credit codes, [extract_amount_info] at most the tax
    and the total, [extract_other_fields] at most the item, the issuer and
    the specification: every other key of the dictionary keeps its value,
    or stays absent. *)
Theorem extractors_write_their_own_fields :
  forall (U : UnicodeTables) (text : str) (d : gmap str str),
  only_changes [k_buyer; k_seller; k_buyer_code; k_seller_code] d
               (extract_company_info U text d).2 /\
  only_changes [k_tax; k_total] d (extract_amount_info U text d).2 /\
  only_changes [k_item; k_issuer; k_spec] d (extract_other_fields U text d).2.
Proof.
  intros U text d. split; [|split].
  - apply only_extract_company_info, only_changes_refl.
  - apply only_extract_amount_info, only_changes_refl.
  - apply only_extract_other_fields, only_changes_refl.
Qed.

(** * What the identifier and the date are made of *)

Lemma forallb_impl {A : Type} (f g : A -> bool) (l : list A) :
  (forall x, f x = true -> g x = true) -> forallb f l = true -> forallb g l = true.
Proof.
  intros Hfg. induction l as [|x l IH]; [done|]. simpl. intros H.
  apply andb_true_iff in H as [Hx Hl]. by rewrite (Hfg x Hx), IH.
Qed.

Section NumberValue.
Variable U : UnicodeTables.

Lemma digit09_decimal (x : char) :
  set_match U true [digit09] x = true -> set_match U false [digit09; CDigit] x = true.
Proof.
  cbn [set_match existsb cls_match digit09]. intros H.
  apply orb_true_iff in H as [H|H]; [|done]. by rewrite H.
Qed.

Lemma CDigit_decimal (x : char) :
  set_match U true [CDigit] x = true -> set_match U false [digit09; CDigit] x = true.
Proof.
  cbn [set_match existsb cls_match]. intros H.
  apply orb_true_iff in H as [H|H]; [|done]. rewrite H. apply orb_true_r.
Qed.

Lemma number_match_value (pre : regex) (cs : list cls) (lo : nat) (hi : option nat)
    (text m : str) :
  no_group pre = true ->
  (forall x, set_match U true cs x = true ->
             set_match U false [digit09; CDigit] x = true) ->
  In m (re_findall U true (pre ++ [GOpen; Rep cs lo hi; GClose]) text) ->
  all_decimal U m = true /\ contains m text = true.
Proof.
  intros Hpre Hcs Hm. split.
  - apply re_findall_In in Hm as (r & bos' & s' & _ & He & ->).
    assert (Hg : existsb is_GOpen (pre ++ [GOpen; Rep cs lo hi; GClose]) = true).
    { rewrite existsb_app. cbn. apply orb_true_r. }
    rewrite Hg. apply exec_rep_group in He; [|done].
    by apply (forallb_impl _ _ _ Hcs).
  - by apply (re_findall_group_contains U true pre [Rep cs lo hi]).
Qed.

Lemma number_loop_value (text : str) (d : gmap str str) (patterns : list regex) :
  Forall (fun p => exists pre cs lo hi,
            p = pre ++ [GOpen; Rep cs lo hi; GClose] /\ no_group pre = true /\
            forall x, set_match U true cs x = true ->
                      set_match U false [digit09; CDigit] x = true) patterns ->
  exists d',
    extract_invoice_number_loop U patterns text d = (Ok tt, d') /\
    (d' = d \/
     exists m, d' = <[k_number := m]> d /\ (8 <= length m <= 20)%nat /\
               all_decimal U m = true /\ contains m text = true).
Proof.
  induction 1 as [|p ps (pre & cs & lo & hi & -> & Hpre & Hcs) _ IH];
    cbn [extract_invoice_number_loop].
  - exists d. split; [done|by left].
  - destruct (find number_length_ok _) as [m|] eqn:Hf; [|done].
    destruct (find_some _ _ Hf) as [Hin Hlen].
    exists (<[k_number := m]> d). split; [done|]. right. exists m.
    split; [done|]. split.
    + unfold number_length_ok in Hlen. apply andb_true_iff in Hlen as [H1 H2].
      apply Nat.leb_le in H1, H2. lia.
    + by apply (number_match_value pre cs lo hi).
Qed.

Lemma number_patterns_shape :
  Forall (fun p => exists pre cs lo hi,
            p = pre ++ [GOpen; Rep cs lo hi; GClose] /\ no_group pre = true /\
            forall x, set_match U true cs x = true ->
                      set_match U false [digit09; CDigit] x = true)
         number_patterns.
Proof.
  unfold number_patterns. repeat apply List.Forall_cons; [| | | |apply List.Forall_nil].
  - exists (lits (u "发票号码") ++ [colon; spaces]), [digit09], 1%nat, None.
    split; [by vm_compute|]. split; [by vm_compute|apply digit09_decimal].
  - exists (lits (u "发票代码") ++ [colon; spaces]), [digit09], 1%nat, None.
    split; [by vm_compute|]. split; [by vm_compute|apply digit09_decimal].
  - exists (lits (u "Invoice") ++ [spaces] ++ lits (u "No") ++
            [Rep [CChar (ch "."); CChar (ch ":")] 0 (upto 1); spaces]),
           [digit09], 1%nat, None.
    split; [by vm_compute|]. split; [by vm_compute|apply digit09_decimal].
  - exists [], [CDigit], 8%nat, (upto 20).
    split; [done|]. split; [done|apply CDigit_decimal].
Qed.

Lemma date_loop_value (text : str) (d : gmap str str) (patterns : list regex) :
  Forall (fun p => exists pre mid n,
            p = pre ++ GOpen :: mid ++ [GClose] /\
            no_group pre = true /\ no_group mid = true /\
            (8 <= min_len mid)%nat /\ max_len mid = Some n /\ (n <= 11)%nat)
         patterns ->
  exists d',
    extract_invoice_date_loop U patterns text d = (Ok tt, d') /\
    (d' = d \/
     exists m, d' = <[k_date := m]> d /\ (8 <= length m <= 11)%nat /\
               contains m text = true).
Proof.
  induction 1 as [|p ps (pre & mid & n & -> & Hpre & Hmid & Hmin & Hmax & Hn) _ IH];
    cbn [extract_invoice_date_loop].
  - exists d. split; [done|by left].
  - destruct (re_search U false _ text) as [r|] eqn:Hs; [|done].
    exists (<[k_date := group1 r]> d). split; [done|]. right. exists (group1 r).
    split; [done|]. split.
    + apply search_from_some in Hs as (bos' & s' & _ & He).
      apply exec_group in He as (_ & Hlo & Hhi); [|done..].
      specialize (Hhi n Hmax). lia.
    + by apply (re_search_group_contains U false pre mid).
Qed.
End NumberValue.

Lemma date_patterns_shape :
  Forall (fun p => exists pre mid n,
            p = pre ++ GOpen :: mid ++ [GClose] /\
            no_group pre = true /\ no_group mid = true /\
            (8 <= min_len mid)%nat /\ max_len mid = Some n /\ (n <= 11)%nat)
         date_patterns.
Proof.
  unfold date_patterns. repeat apply List.Forall_cons; [| | | | |apply List.Forall_nil].
  - exists [], cjk_date, 11%nat.
    split; [done|]. repeat split; try (by vm_compute). vm_compute. lia.
  - exists (lits (u "开票日期") ++ [colon; spaces]), cjk_date, 11%nat.
    split; [by vm_compute|]. repeat split; try (by vm_compute). vm_compute. lia.
  - exists [], [d 4 4; Lit (ch "/"); d 1 2; Lit (ch "/"); d 1 2], 10%nat.
    split; [done|]. repeat split; try (by vm_compute); vm_compute; lia.
  - exists [], [d 4 4; Lit (ch "-"); d 1 2; Lit (ch "-"); d 1 2], 10%nat.
    split; [done|]. repeat split; try (by vm_compute); vm_compute; lia.
  - exists [], [d 4 4; Lit (ch "."); d 1 2; Lit (ch "."); d 1 2], 10%nat.
    split; [done|]. repeat split; try (by vm_compute); vm_compute; lia.
Qed.

(** X5.  The identifier extractor returns for every dictionary, whatever keys it
    has, and either leaves it as it was or sets the one key 发票号码 to a
    string of 8 to 20 digits that occurs in the text. *)
Theorem identifier_is_a_digit_run_of_the_text :
  forall (U : UnicodeTables) (text : str) (d : gmap str str),
  exists d',
    extract_invoice_number U text d = (Ok tt, d') /\
    (d' = d \/
     exists m, d' = <[k_number := m]> d /\ (8 <= length m <= 20)%nat /\
               all_decimal U m = true /\ contains m text = true).
Proof.
  intros U text d. apply number_loop_value, number_patterns_shape.
Qed.

(** X6.  The date extractor returns for every dictionary, whatever keys it has,
    and either leaves it as it was or sets the one key 开票日期 to a piece of
    the text of 8 to 11 characters, unchanged. *)
Theorem date_is_a_piece_of_the_text :
  forall (U : UnicodeTables) (text : str) (d : gmap str str),
  exists d',
    extract_invoice_date U text d = (Ok tt, d') /\
    (d' = d \/
     exists m, d' = <[k_date := m]> d /\ (8 <= length m <= 11)%nat /\
               contains m text = true).
Proof.
  intros U text d. apply date_loop_value, date_patterns_shape.
Qed.

(** * The profile of the document *)

(** ** Lines are pieces of the text *)

Lemma split_head (sep : char) (s : str) :
  exists l ls b, split sep s = l :: ls /\ s = l ++ b.
Proof.
  induction s as [|c s (l & ls & b & E & Hs)].
  - by exists [], [], [].
  - cbn [split]. destruct (c =? sep).
    + by exists [], (split sep s), (c :: s).
    + rewrite E. exists (c :: l), ls, b. by rewrite Hs at 1.
Qed.

Lemma split_In_infix (sep : char) (l : str) : forall s : str,
  In l (split sep s) -> exists a b, s = a ++ l ++ b.
Proof.
  induction s as [|c s IH]; cbn [split].
  - intros [<-|[]]. by exists [], [].
  - destruct (c =? sep).
    + intros [<-|H]; [by exists [], (c :: s)|].
      destruct (IH H) as (a & b & ->). by exists (c :: a), b.
    + destruct (split_head sep s) as (l0 & ls & b0 & E & Hs). rewrite E in *.
      intros [<-|H].
      * exists [], b0. by rewrite Hs at 1.
      * destruct (IH (or_intror H)) as (a & b & ->). by exists (c :: a), b.
Qed.

(** ** Repetitions that cannot fail *)

Lemma rep_is_Some (f : char -> bool) (k : mstate -> str -> option mres) :
  (forall st s, is_Some (k st s)) ->
  forall (s : str) (lo : nat) (hi : option nat) (st : mstate),
  (lo <= length s)%nat -> forallb f (take lo s) = true ->
  (forall n, hi = Some n -> (lo <= n)%nat) ->
  is_Some (rep f lo hi k st s).
Proof.
  intros Hk. induction s as [|c s IH]; intros lo hi st Hlen Hf Hhi; simpl.
  - destruct lo; [apply Hk|simpl in Hlen; lia].
  - destruct lo as [|lo].
    + destruct (f c && negb (hi_zero hi)); [|apply Hk].
      destruct (rep f (Nat.pred 0) (dec_hi hi) k (consume c st) s); [done|apply Hk].
    + simpl in Hf. apply andb_true_iff in Hf as [Hc Hf]. rewrite Hc.
      assert (Hz : hi_zero hi = false).
      { destruct hi as [[|n]|]; try done. specialize (Hhi 0%nat eq_refl). lia. }
      rewrite Hz. cbn [negb andb Nat.pred].
      destruct (IH lo (dec_hi hi) (consume c st)) as [r ->]; [simpl in Hlen; lia|done| |done].
      intros n Hn. destruct hi as [h|]; [|done]. injection Hn as <-.
      specialize (Hhi h eq_refl). lia.
Qed.

Lemma forallb_take {A : Type} (f : A -> bool) (n : nat) (l : list A) :
  forallb f l = true -> forallb f (take n l) = true.
Proof.
  revert n. induction l as [|x l IH]; intros n H; [by destruct n|].
  destruct n; [done|]. simpl in *. apply andb_true_iff in H as [Hx Hl].
  by rewrite Hx, IH.
Qed.

Lemma finditer_from_nonempty (U : UnicodeTables) (icase : bool) (p : regex) :
  forall (s : str) (bos : bool) (s' : str),
  s' `suffix_of` s ->
  (forall b, is_Some (exec U icase b p st0 s')) ->
  finditer_from U icase bos p 0 s <> [].
Proof.
  induction s as [|c s IH]; intros bos s' Hs He.
  - apply suffix_nil_inv in Hs as ->. simpl. by destruct (He bos) as [r ->].
  - simpl. destruct (exec U icase bos p st0 (c :: s)) as [r'|] eqn:E; [done|].
    apply suffix_cons_cases in Hs as [->|Hs].
    + destruct (He bos) as [r Hr]. congruence.
    + by eapply IH.
Qed.

Section Profile.
Variable U : UnicodeTables.
Variable text : str.

(** A run of eight digits or more on a line is found by [\d{8,20}] in the
    text. *)
Lemma digit_run_found (line : str) (r : mres) :
  In line (split nl text) ->
  re_search U false long_number line = Some r ->
  exists m, find number_length_ok
                 (re_findall U true [GOpen; d 8 20; GClose] text) = Some m.
Proof.
  intros Hline Hr.
  apply split_In_infix in Hline as (a & b & Htext).
  apply search_from_some in Hr as (bos' & s1 & [a1 Hs1] & He).
  cbn [exec long_number] in He.
  apply rep_trace in He as (w & s2 & Hw & Hf & Hlo & _ & _).
  assert (Hne : re_findall U true [GOpen; d 8 20; GClose] text <> []).
  { unfold re_findall. intros Hnil. apply map_eq_nil in Hnil. revert Hnil.
    apply (finditer_from_nonempty U true _ text true (w ++ s2 ++ b)).
    - exists (a ++ a1). rewrite Htext, Hs1, Hw. by rewrite <- !app_assoc.
    - intros b0. cbn [exec d]. apply rep_is_Some.
      + intros st s. cbn [exec]. by eexists.
      + rewrite length_app. lia.
      + rewrite take_app_le by done. apply forallb_take.
        revert Hf. apply forallb_impl. intros x Hx. exact Hx.
      + intros n [= <-]. lia. }
  destruct (re_findall U true [GOpen; d 8 20; GClose] text) as [|m l] eqn:E; [done|].
  exists m. cbn [find].
  assert (Hm : In m (re_findall U true ([] ++ GOpen :: [d 8 20] ++ [GClose]) text)).
  { cbn [app]. rewrite E. by left. }
  apply re_findall_In in Hm as (r' & bos'' & s' & _ & He' & ->).
  cbn [app existsb is_GOpen orb] in *.
  apply (exec_group U true bos'' [] [d 8 20]) in He' as (_ & Hmin & Hmax); [|done..].
  specialize (Hmax 20%nat eq_refl). cbn in Hmin.
  unfold number_length_ok.
  destruct (8 <=? length (group1 r'))%nat eqn:E1; [|apply Nat.leb_gt in E1; lia].
  destruct (length (group1 r') <=? 20)%nat eqn:E2; [done|apply Nat.leb_gt in E2; lia].
Qed.

Lemma number_loop_sets (patterns : list regex) :
  (exists p, In p patterns /\
             is_Some (find number_length_ok (re_findall U true p text))) ->
  exists m, forall d : gmap str str,
    extract_invoice_number_loop U patterns text d = (Ok tt, <[k_number := m]> d).
Proof.
  induction patterns as [|q ps IH]; intros (p & Hp & Hf); [done|].
  cbn [extract_invoice_number_loop].
  destruct (find number_length_ok (re_findall U true q text)) as [m|] eqn:E.
  - by exists m.
  - apply IH. exists p. split; [|done]. destruct Hp as [->|Hp]; [|done].
    rewrite E in Hf. by destruct Hf.
Qed.

(** What the Shanghai scan can leave behind: nothing, or an identifier
    that the generic extractor is then bound to overwrite. *)
Lemma keeps_bind_ret {A B : Type} (I : gmap str str -> Prop) (a : A) (f : A -> M B) :
  keeps I (f a) -> keeps I (mret a ≫= f).
Proof. intros H d1 Hd1. exact (H d1 Hd1). Qed.

Lemma keeps_shanghai_window (d0 : gmap str str) (js : list nat) :
  keeps (fun d1 =>
           d1 = d0 \/
           (exists m, forall d : gmap str str,
              extract_invoice_number U text d = (Ok tt, <[k_number := m]> d)) /\
           exists m0, d1 = <[k_number := m0]> d0)
        (shanghai_window U (split nl text) js).
Proof.
  induction js as [|j js IH]; cbn [shanghai_window]; [apply keeps_ret|].
  unfold index. destruct (split nl text !! j) as [line_j|] eqn:E.
  2:{ intros d1 Hd1. exact Hd1. }
  apply keeps_bind_ret.
  apply keeps_bind; [|intros _; apply IH].
  destruct (re_search U false long_number line_j) as [r|] eqn:Er; [|apply keeps_ret].
  destruct (8 <=? length (group1 r))%nat; [|apply keeps_ret].
  apply keeps_bind; [apply keeps_getitem|intros v].
  destruct (falsy v); [|apply keeps_ret].
  assert (Hfound : exists m, forall d : gmap str str,
            extract_invoice_number U text d = (Ok tt, <[k_number := m]> d)).
  { apply number_loop_sets. exists [GOpen; d 8 20; GClose]. split.
    - unfold number_patterns. cbn [In]. tauto.
    - destruct (digit_run_found line_j r) as [m ->]; [|done|done].
      apply list_elem_of_In. by eapply list_elem_of_lookup_2. }
  intros d1 [->|(_ & m0 & ->)];
    change ((setitem k_number (group1 r) ?d).2) with (<[k_number := group1 r]> d).
  - right. split; [done|]. by exists (group1 r).
  - right. split; [done|]. exists (group1 r).
    change ((setitem k_number (group1 r) (<[k_number := m0]> d0)).2)
      with (<[k_number := group1 r]> (<[k_number := m0]> d0)).
    by rewrite insert_insert_eq.
Qed.

Lemma keeps_shanghai_lines (d0 : gmap str str) (todo : list (nat * str)) :
  keeps (fun d1 =>
           d1 = d0 \/
           (exists m, forall d : gmap str str,
              extract_invoice_number U text d = (Ok tt, <[k_number := m]> d)) /\
           exists m0, d1 = <[k_number := m0]> d0)
        (shanghai_lines U (split nl text) todo).
Proof.
  induction todo as [|[i line] todo IH]; cbn [shanghai_lines]; [apply keeps_ret|].
  apply keeps_bind; [|intros _; apply IH].
  destruct (_ || _); [apply keeps_shanghai_window|apply keeps_ret].
Qed.

Lemma parse_shanghai_invoice_generic (d : gmap str str) :
  has_fields d ->
  parse_shanghai_invoice U text d = parse_generic_invoice U text d.
Proof.
  intros Hd. unfold parse_shanghai_invoice. cbv zeta.
  destruct (returns_shanghai_lines U (split nl text) (enumerate (split nl text)) d Hd)
    as ([] & d1 & Hr & Hd1).
  rewrite (bind_ok _ _ _ _ _ Hr).
  pose proof (keeps_shanghai_lines d (enumerate (split nl text)) d (or_introl eq_refl))
    as HI.
  rewrite Hr in HI. cbn [snd] in HI.
  destruct HI as [->|((m & Hm) & m0 & ->)]; [done|].
  unfold parse_generic_invoice, try_except.
  rewrite (bind_ok _ _ (<[k_number := m0]> d) tt _ (Hm _)).
  rewrite (bind_ok _ _ d tt _ (Hm d)).
  by rewrite insert_insert_eq.
Qed.
End Profile.

(** X1.  The detected profile has no influence on the result.  From a
    dictionary with the eleven fields, the Shanghai parser ends in the
    state in which the generic parser ends: whatever identifier its scan of
    the lines around the label writes, the identifier extractor that runs
    next overwrites.  So [parse_invoice_info] returns, for every text, what
    the generic parser makes of the empty record. *)
Theorem invoice_type_changes_nothing :
  forall (U : UnicodeTables) (text : str),
  (forall d : gmap str str,
     has_fields d ->
     parse_shanghai_invoice U text d = parse_generic_invoice U text d) /\
  parse_invoice_info U text = Ok (parse_generic_invoice U text empty_info).2.
Proof.
  intros U text. split; [apply parse_shanghai_invoice_generic|].
  unfold parse_invoice_info.
  assert (E : match detect_invoice_type text with
              | standard => parse_standard_invoice U text
              | shanghai => parse_shanghai_invoice U text
              | complex => parse_complex_invoice U text
              | generic => parse_generic_invoice U text
              end empty_info = parse_generic_invoice U text empty_info).
  { destruct (detect_invoice_type text); try done.
    apply parse_shanghai_invoice_generic, empty_info_fields. }
  rewrite E. clear E. unfold parse_generic_invoice, try_except.
  destruct ((extract_invoice_number U text ≫= _) empty_info) as [[a|e] d'];
    reflexivity.
Qed.

(** * The literal amounts *)

Section Literals.
Variable U : UnicodeTables.

Lemma exec_lits (bos : bool) (w : str) (q : regex) : forall (st : mstate) (s : str),
  exec U false bos (lits w ++ q) st s
  = if startswith w s
    then exec U false bos q (consume_all w st) (drop (length w) s)
    else None.
Proof.
  induction w as [|c w IH]; intros st s; [done|].
  cbn [lits map app exec startswith]. destruct s as [|x s]; [done|].
  unfold lit_eq. destruct (c =? x) eqn:E; [|done].
  apply N.eqb_eq in E as <-. cbn [andb length drop consume_all].
  apply (IH (consume c st) s).
Qed.

(** A currency sign and a literal numeral in parentheses: the pattern
    matches where the subject starts with both, and the group is the
    numeral. *)
Lemma exec_specific (bos : bool) (y : char) (w s : str) :
  exec U false bos ([Lit y; GOpen] ++ lits w ++ [GClose]) st0 s
  = if startswith (y :: w) s
    then Some {| whole := y :: w; group1 := w; rest := drop (S (length w)) s |}
    else None.
Proof.
  cbn [app exec startswith]. destruct s as [|x s]; [done|].
  unfold lit_eq. destruct (y =? x) eqn:E; [|done].
  apply N.eqb_eq in E as <-. cbn [andb].
  rewrite exec_lits. destruct (startswith w s); [|done].
  cbn [exec drop]. unfold finish. cbn [set_in m_whole m_group]. f_equal.
  rewrite consume_all_whole, consume_all_group.
  cbn [set_in consume st0 m_in m_whole m_group].
  rewrite app_nil_r, rev_app_distr, rev_involutive. done.
Qed.

Lemma findall_specific_In (y : char) (w text m : str) :
  In m (re_findall U false ([Lit y; GOpen] ++ lits w ++ [GClose]) text) -> m = w.
Proof.
  intros H. apply re_findall_In in H as (r & bos' & s' & _ & He & ->).
  rewrite exec_specific in He. destruct (startswith (y :: w) s'); [|done].
  by injection He as <-.
Qed.

Lemma findall_specific_found (y : char) (w text : str) :
  contains (y :: w) text = true ->
  In w (re_findall U false ([Lit y; GOpen] ++ lits w ++ [GClose]) text).
Proof.
  intros Hc.
  assert (Hne : re_findall U false ([Lit y; GOpen] ++ lits w ++ [GClose]) text <> []).
  { unfold re_findall. intros Hnil. apply map_eq_nil in Hnil. revert Hnil.
    apply contains_infix in Hc as (a & b & ->).
    apply (finditer_from_nonempty U false _ _ true ((y :: w) ++ b)).
    - by exists a.
    - intros b0. rewrite exec_specific.
      by rewrite (startswith_app (y :: w) b). }
  destruct (re_findall U false _ text) as [|m l] eqn:E; [done|].
  assert (Hm : m = w) by (apply (findall_specific_In y w text); rewrite E; by left).
  rewrite Hm. by left.
Qed.

Lemma specific_matches_In (text m : str) :
  In m (specific_matches U text) ->
  m = u "3992.00" \/ m = u "225.96" \/ m = u "3766.04".
Proof.
  unfold specific_matches, specific_patterns. cbn [flat_map].
  rewrite !in_app_iff. intros [H|[H|[H|[]]]].
  - left. by apply findall_specific_In in H.
  - right; left. by apply findall_specific_In in H.
  - right; right. by apply findall_specific_In in H.
Qed.

Lemma specific_matches_found (y : char) (w text : str) :
  In ([Lit y; GOpen] ++ lits w ++ [GClose]) specific_patterns ->
  contains (y :: w) text = true ->
  In w (specific_matches U text).
Proof.
  intros Hp Hc. unfold specific_matches. apply in_flat_map.
  eexists. split; [exact Hp|]. by apply findall_specific_found.
Qed.
End Literals.

Lemma memf_In (x : float) (l : list float) : memf x l = true <-> In x l.
Proof.
  unfold memf. rewrite existsb_exists. split.
  - intros (y & Hy & E). apply N.eqb_eq in E. by subst.
  - intros H. exists x. split; [done|apply N.eqb_refl].
Qed.

Lemma pyfloat_3992 : pyfloat py_tables (u "3992.00") = Some (float_lit 39920 1).
Proof. by vm_compute. Qed.

Lemma pyfloat_225 : pyfloat py_tables (u "225.96") = Some (float_lit 22596 2).
Proof. by vm_compute. Qed.

Lemma pyfloat_3766 : pyfloat py_tables (u "3766.04") = Some (float_lit 376604 2).
Proof. by vm_compute. Qed.

(** [float] accepts the three numerals. *)
Lemma to_floats_literals (ms : list str) :
  (forall m, In m ms -> m = u "3992.00" \/ m = u "225.96" \/ m = u "3766.04") ->
  exists xs : list float,
    (forall d : gmap str str, to_floats py_tables ms d = (Ok xs, d)) /\
    (In (u "3992.00") ms -> In (float_lit 39920 1) xs) /\
    (In (u "225.96") ms -> In (float_lit 22596 2) xs).
Proof.
  induction ms as [|m ms IH]; intros Hms.
  - by exists [].
  - destruct IH as (xs & Hrun & H1 & H2); [intros m' Hm'; apply Hms; by right|].
    assert (Hm : exists x, pyfloat py_tables m = Some x /\
                   (m = u "3992.00" -> x = float_lit 39920 1) /\
                   (m = u "225.96" -> x = float_lit 22596 2)).
    { destruct (Hms m) as [-> | [-> | ->]]; [by left|..].
      - exists (float_lit 39920 1). split; [apply pyfloat_3992|]. split; [done|].
        intros E. exfalso. revert E. apply (bool_decide_unpack _). by vm_compute.
      - exists (float_lit 22596 2). split; [apply pyfloat_225|]. split; [|done].
        intros E. exfalso. revert E. apply (bool_decide_unpack _). by vm_compute.
      - exists (float_lit 376604 2). split; [apply pyfloat_3766|].
        split; intros E; exfalso; revert E; apply (bool_decide_unpack _); by vm_compute. }
    destruct Hm as (x & Hx & Hx1 & Hx2). exists (x :: xs). split; [|split].
    + intros d. cbn [to_floats]. rewrite Hx.
      by rewrite (bind_ok _ _ _ _ _ (Hrun d)).
    + intros [E|H]; [left; by apply Hx1|right; by apply H1].
    + intros [E|H]; [left; by apply Hx2|right; by apply H2].
Qed.

Lemma amount_pool_part (U : UnicodeTables) (text : str) (d : gmap str str) :
  exists d1,
    (if nonempty (amount_pool U text)
     then (if (1 <=? length (sorted (amount_pool U text)))%nat
           then setitem k_total (format_2f (pymax (sorted (amount_pool U text))))
           else mret tt);;
          tax_loop (sorted (amount_pool U text))
     else mret tt) d = (Ok tt, d1).
Proof.
  destruct (nonempty (amount_pool U text)); [|by exists d].
  destruct (1 <=? length (sorted (amount_pool U text)))%nat;
    unfold mbind, M_bind, setitem, mret, M_ret; rewrite tax_loop_run; by eexists.
Qed.

(** The block after the conversion of the literal matches. *)
Lemma literal_part (xs : list float) (d1 : gmap str str) :
  exists d',
    (if nonempty xs then
       (if memf (float_lit 39920 1) (sorted xs) then setitem k_total (u "3992.00")
        else if nonempty (sorted xs)
             then setitem k_total (format_2f (pymax (sorted xs)))
             else mret tt);;
       if memf (float_lit 22596 2) (sorted xs) then setitem k_tax (u "225.96")
       else if (1 <? length (sorted xs))%nat then
         if (2 <=? length (sorted (sorted xs)))%nat
         then x ← index (sorted (sorted xs)) 1; setitem k_tax (format_2f x)
         else mret tt
       else mret tt
     else mret tt) d1 = (Ok tt, d') /\
    (In (float_lit 39920 1) xs -> d' !! k_total = Some (u "3992.00")) /\
    (In (float_lit 22596 2) xs -> d' !! k_tax = Some (u "225.96")).
Proof.
  destruct xs as [|x0 xs0] eqn:Exs; [by exists d1|]. rewrite <- Exs.
  assert (Hne : nonempty xs = true) by by rewrite Exs.
  rewrite Hne. clear Exs Hne x0 xs0.
  assert (Htotal : exists d2,
            (if memf (float_lit 39920 1) (sorted xs) then setitem k_total (u "3992.00")
             else if nonempty (sorted xs)
                  then setitem k_total (format_2f (pymax (sorted xs)))
                  else mret tt) d1 = (Ok tt, d2) /\
            (In (float_lit 39920 1) xs -> d2 !! k_total = Some (u "3992.00"))).
  { destruct (memf (float_lit 39920 1) (sorted xs)) eqn:E1.
    - eexists. split; [done|]. intros _. apply lookup_insert_eq.
    - assert (Hno : ~ In (float_lit 39920 1) xs).
      { intros H. apply sorted_In, memf_In in H. congruence. }
      destruct (nonempty (sorted xs)); eexists; (split; [done|]); by intros H. }
  destruct Htotal as (d2 & Hrun2 & Ht).
  rewrite (bind_ok _ _ _ _ _ Hrun2).
  destruct (memf (float_lit 22596 2) (sorted xs)) eqn:E2.
  - eexists. split; [done|]. split.
    + intros H. change ((setitem k_tax (u "225.96") d2).2)
        with (<[k_tax := u "225.96"]> d2) || idtac.
      rewrite lookup_insert_ne by apply k_tax_total. by apply Ht.
    + intros _. apply lookup_insert_eq.
  - assert (Hno : ~ In (float_lit 22596 2) xs).
    { intros H. apply sorted_In, memf_In in H. congruence. }
    destruct (1 <? length (sorted xs))%nat; [|by exists d2].
    destruct (2 <=? length (sorted (sorted xs)))%nat eqn:E3; [|by exists d2].
    apply Nat.leb_le in E3.
    destruct (lookup_lt_is_Some_2 (sorted (sorted xs)) 1) as [x Hx]; [lia|].
    unfold index. rewrite Hx.
    exists (<[k_tax := format_2f x]> d2). split; [done|]. split; [|done].
    intros H. rewrite lookup_insert_ne by apply k_tax_total. by apply Ht.
Qed.

Lemma extract_amount_info_literals (text : str) (d : gmap str str) :
  exists d',
    extract_amount_info py_tables text d = (Ok tt, d') /\
    (contains (u "¥3992.00") text = true -> d' !! k_total = Some (u "3992.00")) /\
    (contains (u "¥225.96") text = true -> d' !! k_tax = Some (u "225.96")).
Proof.
  unfold extract_amount_info. cbv zeta.
  destruct (amount_pool_part py_tables text d) as (d1 & Hpool).
  rewrite (bind_ok _ _ _ _ _ Hpool).
  destruct (to_floats_literals (specific_matches py_tables text)
              (specific_matches_In py_tables text)) as (xs & Hxs & H1 & H2).
  rewrite (bind_ok _ _ _ _ _ (Hxs d1)).
  destruct (literal_part xs d1) as (d' & Hrun & Ht & Hx).
  exists d'. split; [exact Hrun|]. split.
  - intros Hc. apply Ht, H1.
    apply (specific_matches_found py_tables (ch "¥") (u "3992.00")).
    + unfold specific_patterns. by left.
    + revert Hc. by replace (u "¥3992.00") with (ch "¥" :: u "3992.00") by by vm_compute.
  - intros Hc. apply Hx, H2.
    apply (specific_matches_found py_tables (ch "¥") (u "225.96")).
    + unfold specific_patterns. right. by left.
    + revert Hc. by replace (u "¥225.96") with (ch "¥" :: u "225.96") by by vm_compute.
Qed.

(** X10.  The literal amounts decide.  The amount extractor returns for every
    text and every dictionary; whenever the text holds [¥3992.00] the total
    is [3992.00], whatever larger amounts it holds, and whenever it holds
    [¥225.96] the tax is [225.96], whatever the band scan found. *)
Theorem literal_amounts_decide :
  forall (text : str) (d : gmap str str),
  exists d',
    extract_amount_info py_tables text d = (Ok tt, d') /\
    (contains (u "¥3992.00") text = true -> d' !! k_total = Some (u "3992.00")) /\
    (contains (u "¥225.96") text = true -> d' !! k_tax = Some (u "225.96")).
Proof. apply extract_amount_info_literals. Qed.

(** * The parties: where the names and the codes come from *)

Lemma bind_inv {A B : Type} (m : M A) (f : A -> M B) (d d' : gmap str str) (b : B) :
  (m ≫= f) d = (Ok b, d') ->
  exists a d1, m d = (Ok a, d1) /\ f a d1 = (Ok b, d').
Proof.
  unfold mbind, M_bind. destruct (m d) as [[a|e] d1]; [|done].
  intros H. by exists a, d1.
Qed.

Lemma collect_In (keep : str -> bool) : forall (matches acc : list str) (c : str),
  In c (collect keep acc matches) -> In c acc \/ In c matches.
Proof.
  unfold collect. induction matches as [|m ms IH]; intros acc c H; [by left|].
  cbn [fold_left] in H. apply IH in H as [H|H]; [|right; by right].
  destruct (keep m && negb (mem m acc)); [|by left].
  apply in_app_iff in H as [H|[<-|[]]]; [by left|right; by left].
Qed.

Lemma fold_collect_In (keep : str -> bool) (f : regex -> list str) :
  forall (ps : list regex) (acc : list str) (c : str),
  In c (fold_left (fun acc p => collect keep acc (f p)) ps acc) ->
  In c acc \/ exists p, In p ps /\ In c (f p).
Proof.
  induction ps as [|p ps IH]; intros acc c H; [by left|].
  cbn [fold_left] in H. apply IH in H as [H|(q & Hq & H)].
  - apply collect_In in H as [H|H]; [by left|].
    right. exists p. split; [by left|done].
  - right. exists q. split; [by right|done].
Qed.

Lemma fold_collect_NoDup (keep : str -> bool) (f : regex -> list str) :
  forall (ps : list regex) (acc : list str),
  List.NoDup acc -> (forall c, In c acc -> keep c = true) ->
  List.NoDup (fold_left (fun acc p => collect keep acc (f p)) ps acc).
Proof.
  induction ps as [|p ps IH]; intros acc Hnd Hk; [done|].
  cbn [fold_left].
  destruct (collect_spec keep (f p) acc Hnd Hk) as [H1 H2]. by apply IH.
Qed.

Section Parties.
Variable U : UnicodeTables.

Lemma find_companies_contains (text c : str) :
  In c (find_companies U text) -> contains c text = true.
Proof.
  unfold find_companies. intros H.
  apply (fold_collect_In _ (fun p => re_findall U false p text)) in H
    as [[]|(p & Hp & H)].
  unfold company_patterns in Hp. destruct Hp as [<-|[<-|[]]].
  - by apply (re_findall_group_contains U false []
               [Rep [cjk] 4 None;
                Alt [u "公司"; u "企业"; u "集团"; u "有限责任公司"; u "股份有限公司"]]).
  - by apply (re_findall_group_contains U false []
               [Rep [CRange (ch "A") (ch "Z"); CRange (ch "a") (ch "z"); cjk] 6 None;
                Alt [u "公司"; u "企业"; u "集团"; u "有限"; u "责任"; u "股份"]]).
Qed.

Lemma code_match_value (pre : regex) (text m : str) :
  no_group pre = true ->
  In m (re_findall U false (pre ++ [GOpen; code_run; GClose]) text) ->
  (15 <= length m <= 18)%nat /\
  forallb (set_match U false [CRange (ch "A") (ch "Z"); digit09]) m = true /\
  contains m text = true.
Proof.
  intros Hpre Hm. unfold code_run in *. split; [|split].
  - apply re_findall_In in Hm as (r & bos' & s' & _ & He & ->).
    assert (Hg : existsb is_GOpen
              (pre ++ [GOpen; Rep [CRange (ch "A") (ch "Z"); digit09] 15 (upto 18); GClose])
            = true).
    { rewrite existsb_app. cbn. apply orb_true_r. }
    rewrite Hg.
    apply (exec_group U false bos' pre
             [Rep [CRange (ch "A") (ch "Z"); digit09] 15 (upto 18)])
      in He as (_ & Hmin & Hmax); [|done..].
    specialize (Hmax 18%nat eq_refl). cbn in Hmin. lia.
  - apply re_findall_In in Hm as (r & bos' & s' & _ & He & ->).
    assert (Hg : existsb is_GOpen
              (pre ++ [GOpen; Rep [CRange (ch "A") (ch "Z"); digit09] 15 (upto 18); GClose])
            = true).
    { rewrite existsb_app. cbn. apply orb_true_r. }
    rewrite Hg. by apply exec_rep_group in He.
  - by apply (re_findall_group_contains U false pre
               [Rep [CRange (ch "A") (ch "Z"); digit09] 15 (upto 18)]).
Qed.

Lemma find_credit_codes_spec (text : str) :
  List.NoDup (find_credit_codes U text) /\
  forall c, In c (find_credit_codes U text) ->
    (15 <= length c <= 18)%nat /\
    forallb (set_match U false [CRange (ch "A") (ch "Z"); digit09]) c = true /\
    contains c text = true.
Proof.
  unfold find_credit_codes. split.
  - apply (fold_collect_NoDup (fun _ => true) (fun p => re_findall U false p text));
      [constructor|by intros c []].
  - intros c H.
    apply (fold_collect_In _ (fun p => re_findall U false p text)) in H
      as [[]|(p & Hp & H)].
    unfold code_patterns in Hp. destruct Hp as [<-|[<-|[<-|[]]]].
    + by apply (code_match_value []).
    + apply (code_match_value (lits (u "统一社会信用代码") ++ [colon; spaces]));
        [by vm_compute|].
      revert H. by rewrite <- app_assoc.
    + apply (code_match_value (lits (u "纳税人识别号") ++ [colon; spaces]));
        [by vm_compute|].
      revert H. by rewrite <- app_assoc.
Qed.
End Parties.

Lemma k_buyer_code_seller_code : k_buyer_code <> k_seller_code.
Proof. key_neq. Qed.

Lemma assign_credit_codes_values (credit_codes : list str) (d : gmap str str) :
  d !! k_buyer_code = Some [] -> d !! k_seller_code = Some [] ->
  exists d',
    assign_credit_codes credit_codes d = (Ok tt, d') /\
    d' !! k_buyer_code = Some (nth 0 credit_codes []) /\
    d' !! k_seller_code = Some (nth 1 credit_codes []).
Proof.
  intros Hb Hs. unfold assign_credit_codes.
  destruct credit_codes as [|c0 codes].
  { exists d. split; [reflexivity|]. split; [exact Hb|exact Hs]. }
  cbn [nonempty length nth]. rewrite (run_getitem _ _ _ _ Hb). cbn [falsy].
  assert (E1 : (index (c0 :: codes) 0 ≫= (fun c => setitem k_buyer_code c)) d
               = (Ok tt, <[k_buyer_code := c0]> d)) by reflexivity.
  rewrite (bind_ok _ _ _ _ _ E1).
  assert (Hs1 : <[k_buyer_code := c0]> d !! k_seller_code = Some []).
  { rewrite lookup_insert_ne by apply k_buyer_code_seller_code. exact Hs. }
  destruct codes as [|c1 codes].
  - exists (<[k_buyer_code := c0]> d). split; [reflexivity|].
    split; [apply lookup_insert_eq|exact Hs1].
  - cbn [length Nat.ltb Nat.leb]. rewrite (run_getitem _ _ _ _ Hs1). cbn [falsy].
    rewrite (run_index _ 1%nat c1) by reflexivity.
    exists (<[k_seller_code := c1]> (<[k_buyer_code := c0]> d)).
    split; [reflexivity|]. split; [|apply lookup_insert_eq].
    rewrite lookup_insert_ne by key_neq. apply lookup_insert_eq.
Qed.

Lemma not_elem_of_keys (k : str) (ks : list str) :
  bool_decide (k ∈ ks) = false -> k ∉ ks.
Proof. intros H Hk. apply bool_decide_eq_false in H. by apply H. Qed.

Lemma extract_company_info_codes (U : UnicodeTables) (text : str) (d : gmap str str) :
  has_fields d ->
  d !! k_buyer_code = Some [] -> d !! k_seller_code = Some [] ->
  exists d',
    extract_company_info U text d = (Ok tt, d') /\
    d' !! k_buyer_code = Some (nth 0 (find_credit_codes U text) []) /\
    d' !! k_seller_code = Some (nth 1 (find_credit_codes U text) []).
Proof.
  intros Hd Hb Hs.
  destruct (has_fields_lookup d k_buyer Hd) as [buyer Hbuyer]; [in_fields|].
  destruct (has_fields_lookup d k_seller Hd) as [seller Hseller]; [in_fields|].
  destruct (extract_company_info_run U text buyer seller d Hd Hbuyer Hseller)
    as (d' & Hrun & _).
  clear Hbuyer Hseller. exists d'. split; [exact Hrun|].
  unfold extract_company_info in Hrun. cbv zeta in Hrun.
  apply bind_inv in Hrun as (cs & d1 & H1 & Hrun).
  apply bind_inv in Hrun as ([] & d2 & H2 & H3).
  pose proof (only_assign_roles d (split nl text) (enumerate (split nl text))
                (find_companies U text) d (only_changes_refl _ d)) as F1.
  rewrite H1 in F1. cbn [snd] in F1.
  pose proof (only_assign_remaining d cs d1 F1) as F2.
  rewrite H2 in F2. cbn [snd] in F2.
  assert (Hb2 : d2 !! k_buyer_code = Some []).
  { rewrite F2; [exact Hb|]. apply not_elem_of_keys. vm_compute. reflexivity. }
  assert (Hs2 : d2 !! k_seller_code = Some []).
  { rewrite F2; [exact Hs|]. apply not_elem_of_keys. vm_compute. reflexivity. }
  destruct (assign_credit_codes_values (find_credit_codes U text) d2 Hb2 Hs2)
    as (d3 & H3' & Hb3 & Hs3).
  rewrite H3 in H3'. injection H3' as ->. split; [exact Hb3|exact Hs3].
Qed.

(** X8.  The credit codes.  From a record with both codes empty, the buyer's
    code is the first code found in the text and the seller's the second:
    found by the bare pattern before the labelled ones, whatever label
    stands before a code, and each code once.  With one code the seller's
    stays empty, with none both do.  A code is a piece of the text of 15 to
    18 characters, capital letters and digits, and the two codes differ
    unless both are empty. *)
Theorem credit_codes_in_order_found :
  forall (U : UnicodeTables) (text : str) (d : gmap str str),
  has_fields d ->
  d !! k_buyer_code = Some [] -> d !! k_seller_code = Some [] ->
  exists (d' : gmap str str) (buyer_code seller_code : str),
    extract_company_info U text d = (Ok tt, d') /\
    d' !! k_buyer_code = Some buyer_code /\
    d' !! k_seller_code = Some seller_code /\
    buyer_code = nth 0 (find_credit_codes U text) [] /\
    seller_code = nth 1 (find_credit_codes U text) [] /\
    (buyer_code = seller_code -> buyer_code = []) /\
    forall c, c = buyer_code \/ c = seller_code -> c <> [] ->
      (15 <= length c <= 18)%nat /\
      forallb (set_match U false [CRange (ch "A") (ch "Z"); digit09]) c = true /\
      contains c text = true.
Proof.
  intros U text d Hd Hb Hs.
  destruct (extract_company_info_codes U text d Hd Hb Hs) as (d' & Hrun & Hb' & Hs').
  clear Hb Hs.
  exists d', (nth 0 (find_credit_codes U text) []), (nth 1 (find_credit_codes U text) []).
  split; [exact Hrun|]. split; [exact Hb'|]. split; [exact Hs'|].
  clear Hb' Hs'. do 2 (split; [reflexivity|]).
  destruct (find_credit_codes_spec U text) as [Hnd Hcodes].
  destruct (find_credit_codes U text) as [|c0 [|c1 codes]]; cbn [nth].
  - split; [done|]. by intros c [->| ->].
  - split; [done|]. intros c [->| ->] Hc; [|done]. apply Hcodes. by left.
  - split.
    + intros ->. apply List.NoDup_cons_iff in Hnd as [Hnd _].
      exfalso. apply Hnd. by left.
    + intros c [->| ->] _; apply Hcodes; [by left|right; by left].
Qed.

Lemma credit_codes_in_order_found_witness :
  let text := join nl [u "纳税人识别号：91310000MA1FL0XX1A";
                       u "统一社会信用代码: 913100001234567890"] in
  (has_fields empty_info /\
   empty_info !! k_buyer_code = Some [] /\ empty_info !! k_seller_code = Some []) /\
  exists (d' : gmap str str) (buyer_code seller_code : str),
    extract_company_info py_tables text empty_info = (Ok tt, d') /\
    d' !! k_buyer_code = Some buyer_code /\
    d' !! k_seller_code = Some seller_code /\
    buyer_code = nth 0 (find_credit_codes py_tables text) [] /\
    seller_code = nth 1 (find_credit_codes py_tables text) [] /\
    (buyer_code = seller_code -> buyer_code = []) /\
    forall c, c = buyer_code \/ c = seller_code -> c <> [] ->
      (15 <= length c <= 18)%nat /\
      forallb (set_match py_tables false [CRange (ch "A") (ch "Z"); digit09]) c = true /\
      contains c text = true.
Proof.
  split.
  - split; [apply empty_info_fields|]. split; vm_compute; reflexivity.
  - apply (credit_codes_in_order_found py_tables _ empty_info).
    + apply empty_info_fields.
    + vm_compute; reflexivity.
    + vm_compute; reflexivity.
Defined.

(** ** The names *)

Lemma claim_within (lines : list str) (i : nat) (keywords : list str)
    (line name : str) (companies all : list str) :
  (name = [] \/ In name all) -> (forall c, In c companies -> In c all) ->
  ((claim lines i keywords line name companies).1 = [] \/
   In (claim lines i keywords line name companies).1 all) /\
  (forall c, In c (claim lines i keywords line name companies).2 -> In c all).
Proof.
  intros Hn Hc. unfold claim.
  destruct (has_keyword keywords line && falsy name); [|done].
  destruct (first_hit _ _ _) as [c|] eqn:E; [|done]. cbn [fst snd].
  apply first_hit_In in E. split; [right; by apply Hc|].
  intros c' Hc'. by apply Hc, (remove_first_In c).
Qed.

Lemma roles_within (lines : list str) (all : list str) (todo : list (nat * str)) :
  forall (buyer seller : str) (companies : list str),
  (buyer = [] \/ In buyer all) -> (seller = [] \/ In seller all) ->
  (forall c, In c companies -> In c all) ->
  ((roles lines todo buyer seller companies).1.1 = [] \/
   In (roles lines todo buyer seller companies).1.1 all) /\
  ((roles lines todo buyer seller companies).1.2 = [] \/
   In (roles lines todo buyer seller companies).1.2 all) /\
  (forall c, In c (roles lines todo buyer seller companies).2 -> In c all).
Proof.
  induction todo as [|[i line] todo IH]; intros buyer seller companies Hb Hs Hc; [done|].
  cbn [roles].
  destruct (claim_within lines i buyer_keywords line buyer companies all Hb Hc)
    as [Hb1 Hc1].
  destruct (claim_within lines i seller_keywords line seller _ all Hs Hc1)
    as [Hs2 Hc2].
  by apply IH.
Qed.

Lemma settle_within (buyer seller : str) (companies all : list str) :
  (buyer = [] \/ In buyer all) -> (seller = [] \/ In seller all) ->
  (forall c, In c companies -> In c all) ->
  ((settle buyer seller companies).1 = [] \/ In (settle buyer seller companies).1 all) /\
  ((settle buyer seller companies).2 = [] \/ In (settle buyer seller companies).2 all).
Proof.
  intros Hb Hs Hc. unfold settle. cbn [fst snd].
  pose proof (unclaimed_In buyer seller companies) as Hin.
  destruct (unclaimed buyer seller companies) as [|r0 rest]; [done|].
  cbn [nonempty andb nth length]. split.
  - destruct (falsy buyer); [|done]. right. apply Hc, Hin. by left.
  - destruct (falsy seller); [|done]. cbn [andb].
    destruct rest as [|r1 rest]; [done|]. cbn. right. apply Hc, Hin. right. by left.
Qed.

(** X7.  The names are never made up.  From a record with both names empty,
    each name the party extractor ends with is empty or one of the
    candidates found in the text; a candidate is a piece of the text of more
    than five characters, and the candidates are distinct. *)
Theorem party_names_are_candidates :
  forall (U : UnicodeTables) (text : str) (d : gmap str str),
  has_fields d -> d !! k_buyer = Some [] -> d !! k_seller = Some [] ->
  exists (d' : gmap str str) (buyer seller : str),
    extract_company_info U text d = (Ok tt, d') /\
    d' !! k_buyer = Some buyer /\ d' !! k_seller = Some seller /\
    (buyer = [] \/ In buyer (find_companies U text)) /\
    (seller = [] \/ In seller (find_companies U text)) /\
    List.NoDup (find_companies U text) /\
    forall c, In c (find_companies U text) ->
      (5 < length c)%nat /\ contains c text = true.
Proof.
  intros U text d Hd Hb Hs.
  destruct (extract_company_info_run U text [] [] d Hd Hb Hs) as (d' & Hrun & Hb' & Hs').
  exists d', (final_names U text [] []).1, (final_names U text [] []).2.
  split; [exact Hrun|]. split; [exact Hb'|]. split; [exact Hs'|].
  clear Hb Hs Hb' Hs'.
  destruct (find_companies_spec U text) as [Hnd Hlen].
  assert (Hw : ((final_names U text [] []).1 = [] \/
                In (final_names U text [] []).1 (find_companies U text)) /\
               ((final_names U text [] []).2 = [] \/
                In (final_names U text [] []).2 (find_companies U text))).
  { unfold final_names. cbv zeta.
    destruct (roles_within (split nl text) (find_companies U text)
                (enumerate (split nl text)) [] [] (find_companies U text))
      as (H1 & H2 & H3); [by left|by left|done|].
    by apply settle_within. }
  destruct Hw as [Hw1 Hw2]. do 3 (split; [done|]).
  intros c Hc. split; [|by apply (find_companies_contains U)].
  apply Hlen in Hc. by apply Nat.ltb_lt in Hc.
Qed.

Lemma party_names_are_candidates_witness :
  let text := join nl [u "购买方：甲乙丙丁公司"; u "销售方：戊己庚辛公司"] in
  (has_fields empty_info /\
   empty_info !! k_buyer = Some [] /\ empty_info !! k_seller = Some []) /\
  exists (d' : gmap str str) (buyer seller : str),
    extract_company_info py_tables text empty_info = (Ok tt, d') /\
    d' !! k_buyer = Some buyer /\ d' !! k_seller = Some seller /\
    (buyer = [] \/ In buyer (find_companies py_tables text)) /\
    (seller = [] \/ In seller (find_companies py_tables text)) /\
    List.NoDup (find_companies py_tables text) /\
    forall c, In c (find_companies py_tables text) ->
      (5 < length c)%nat /\ contains c text = true.
Proof.
  split.
  - split; [apply empty_info_fields|]. split; vm_compute; reflexivity.
  - apply (party_names_are_candidates py_tables _ empty_info).
    + apply empty_info_fields.
    + vm_compute; reflexivity.
    + vm_compute; reflexivity.
Defined.

(** * The issuer: what can be written *)

Lemma split_no_sep (sep : char) : forall (s l : str),
  In l (split sep s) -> ~ In sep l.
Proof.
  induction s as [|c s IH]; intros l; cbn [split].
  - intros [<-|[]] [].
  - destruct (c =? sep) eqn:E.
    + intros [<-|H]; [by intros []|by apply IH].
    + apply N.eqb_neq in E. destruct (split sep s) as [|l0 ls] eqn:Es.
      * intros [<-|[]] [->|[]]. done.
      * intros [<-|H].
        -- intros [->|Hin]; [done|]. revert Hin. apply IH. by left.
        -- apply IH. by right.
Qed.

Section Strip.
Variable U : UnicodeTables.

Lemma lstrip_suffix (s : str) : exists a, s = a ++ lstrip U s.
Proof.
  induction s as [|c s [a IH]]; [by exists []|]. cbn [lstrip].
  destruct (uni_space U c); [|by exists []].
  exists (c :: a). by rewrite IH at 1.
Qed.

Lemma strip_infix (s : str) : exists a b, s = a ++ strip U s ++ b.
Proof.
  unfold strip. destruct (lstrip_suffix s) as [a Ha].
  destruct (lstrip_suffix (rev (lstrip U s))) as [b Hb].
  exists a, (rev b). rewrite <- rev_app_distr, <- Hb, rev_involutive. exact Ha.
Qed.

Lemma strip_contains (s : str) : contains (strip U s) s = true.
Proof.
  destruct (strip_infix s) as (a & b & E). rewrite E at 2. apply contains_app.
Qed.

Lemma strip_no_sep (sep : char) (s : str) : ~ In sep s -> ~ In sep (strip U s).
Proof.
  intros Hs H. apply Hs. destruct (strip_infix s) as (a & b & ->).
  rewrite !in_app_iff. tauto.
Qed.

(** A line that passes [^[一-龥]{2,4}$] and has no line feed in it has two
    to four characters. *)
Lemma name_line_length (s : str) :
  ~ In nl s -> is_Some (re_match U false name_line_pattern s) ->
  (2 <= length s <= 4)%nat.
Proof.
  intros Hnl [r Hr]. unfold re_match, name_line_pattern in Hr.
  cbn [exec st0 m_whole falsy andb] in Hr.
  apply rep_trace in Hr as (w & s' & -> & _ & Hlo & Hhi & He).
  specialize (Hhi 4%nat eq_refl). cbn [exec] in He.
  destruct (falsy s' || str_eqb s' [nl]) eqn:E; [|done].
  apply orb_true_iff in E as [E|E].
  - destruct s'; [|done]. rewrite app_nil_r. lia.
  - apply str_eqb_eq in E as ->. exfalso. apply Hnl.
    rewrite in_app_iff. right. by left.
Qed.

Lemma first_guess_In (text m : str) : forall patterns : list regex,
  first_guess U patterns text = Some m ->
  name_length_ok m = true /\
  exists p, In p patterns /\ In m (re_findall U false p text).
Proof.
  induction patterns as [|p ps IH]; [done|]. cbn [first_guess].
  destruct (find name_length_ok (re_findall U false p text)) as [m'|] eqn:E.
  - intros [= ->]. destruct (find_some _ _ E) as [Hin Hlen].
    split; [done|]. exists p. split; [by left|done].
  - intros H. destruct (IH H) as (Hlen & q & Hq & Hin).
    split; [done|]. exists q. split; [by right|done].
Qed.

Lemma name_length_ok_bounds (m : str) :
  name_length_ok m = true -> (2 <= length m <= 4)%nat.
Proof.
  unfold name_length_ok. intros H. apply andb_true_iff in H as [H1 H2].
  apply Nat.leb_le in H1, H2. lia.
Qed.

Lemma first_guess_value (text m : str) :
  first_guess U name_patterns text = Some m ->
  (2 <= length m <= 4)%nat /\ contains m text = true.
Proof.
  intros H. apply first_guess_In in H as (Hlen & p & Hp & Hin).
  split; [by apply name_length_ok_bounds|].
  apply (re_findall_whole_contains U false p); [|done].
  unfold name_patterns in Hp.
  destruct Hp as [<-|[<-|[<-|[]]]]; by vm_compute.
Qed.

(** The run when a line passes the name test. *)
Lemma extract_other_fields_name_line (text line_clean : str) (d : gmap str str) :
  find (is_name_line U) (map (strip U) (split nl text)) = Some line_clean ->
  exists d',
    extract_other_fields U text d = (Ok tt, d') /\
    d' !! k_issuer = Some line_clean /\
    (2 <= length line_clean <= 4)%nat /\ contains line_clean text = true.
Proof.
  intros Hline. destruct (find_some _ _ Hline) as [Hin Hname].
  apply in_map_iff in Hin as (l & <- & Hl).
  assert (Hlen : (2 <= length (strip U l) <= 4)%nat).
  { apply name_line_length.
    - apply strip_no_sep. by apply (split_no_sep nl text l).
    - unfold is_name_line in Hname. apply andb_true_iff in Hname as [Hm _].
      by apply bool_decide_eq_true in Hm. }
  assert (Hc : contains (strip U l) text = true).
  { apply (contains_trans _ l); [apply strip_contains|].
    apply split_In_infix in Hl as (a & b & ->). apply contains_app. }
  assert (Hf : falsy (strip U l) = false) by (destruct (strip U l); [simpl in Hlen; lia|done]).
  unfold extract_other_fields. cbv zeta. rewrite Hline.
  set (d1 := match find is_item_line (split nl text) with
             | Some line => <[k_item := strip U line]> d
             | None => d
             end).
  set (d2 := <[k_issuer := strip U l]> d1).
  exists (match find (fun keyword => contains keyword text) spec_keywords with
          | Some keyword => <[k_spec := keyword]> d2
          | None => d2
          end).
  split; [|split; [|done]].
  - unfold mbind, M_bind.
    assert (E1 : (match find is_item_line (split nl text) with
                  | Some line => setitem k_item (strip U line)
                  | None => mret tt
                  end) d = (Ok tt, d1)).
    { unfold d1. by destruct (find is_item_line (split nl text)). }
    rewrite E1. unfold setitem at 1. fold d2.
    unfold getitem. unfold d2 at 1. rewrite lookup_insert_eq. rewrite Hf.
    unfold mret at 1, M_ret at 1.
    by destruct (find (fun keyword => contains keyword text) spec_keywords).
  - assert (Hd2 : d2 !! k_issuer = Some (strip U l)) by apply lookup_insert_eq.
    destruct (find (fun keyword => contains keyword text) spec_keywords); [|done].
    by rewrite lookup_insert_ne by apply k_spec_issuer.
Qed.
End Strip.

(** X9.  The issuer is never longer than four characters and never made up.
    From a record with the issuer empty, [extract_other_fields] returns, and
    the issuer it ends with is empty or a piece of the text of two to four
    characters.  When some line, stripped, passes the name test, the issuer
    is the first such line. *)
Theorem issuer_is_a_short_piece_of_the_text :
  forall (U : UnicodeTables) (text : str) (d : gmap str str),
  d !! k_issuer = Some [] ->
  exists (d' : gmap str str) (issuer : str),
    extract_other_fields U text d = (Ok tt, d') /\
    d' !! k_issuer = Some issuer /\
    (issuer = [] \/
     ((2 <= length issuer <= 4)%nat /\ contains issuer text = true)) /\
    (forall line_clean,
       find (is_name_line U) (map (strip U) (split nl text)) = Some line_clean ->
       issuer = line_clean).
Proof.
  intros U text d Hd.
  destruct (find (is_name_line U) (map (strip U) (split nl text)))
    as [line_clean|] eqn:Hline.
  - destruct (extract_other_fields_name_line U text line_clean d Hline)
      as (d' & Hrun & Hi & Hlen & Hc).
    exists d', line_clean. split; [done|]. split; [done|].
    split; [by right|]. by intros l [= <-].
  - destruct (extract_other_fields_no_name_line U text d Hd Hline) as (d' & Hrun & Hi).
    exists d', (default [] (first_guess U name_patterns text)).
    split; [done|]. split; [done|]. split; [|done].
    destruct (first_guess U name_patterns text) as [m|] eqn:E; [|by left].
    right. by apply (first_guess_value U text m).
Qed.

Lemma issuer_is_a_short_piece_of_the_text_witness :
  let text := join nl [u "开票人："; u " 王小明 "; u "金额"] in
  empty_info !! k_issuer = Some [] /\
  exists (d' : gmap str str) (issuer : str),
    extract_other_fields py_tables text empty_info = (Ok tt, d') /\
    d' !! k_issuer = Some issuer /\
    (issuer = [] \/
     ((2 <= length issuer <= 4)%nat /\ contains issuer text = true)) /\
    (forall line_clean,
       find (is_name_line py_tables) (map (strip py_tables) (split nl text))
       = Some line_clean ->
       issuer = line_clean).
Proof.
  split; [vm_compute; reflexivity|].
  apply (issuer_is_a_short_piece_of_the_text py_tables _ empty_info).
  vm_compute; reflexivity.
Defined.

(** * The handler of the generic parser *)

Lemma returns_of_keeps {A : Type} (I : gmap str str -> Prop) (m : M A) :
  keeps I m -> (forall d, I d -> exists a d', m d = (Ok a, d')) -> returns I m.
Proof.
  intros Hk Hr d Hd. destruct (Hr d Hd) as (a & d' & E).
  exists a, d'. split; [done|]. specialize (Hk d Hd). by rewrite E in Hk.
Qed.

Ltac returns_step :=
  lazymatch goal with
  | |- returns _ (mret _) => apply returns_ret
  | |- returns _ (getitem _) => apply returns_getitem; in_fields
  | |- returns _ (setitem _ _) => apply returns_setitem; in_fields
  | |- returns _ (_ ≫= _) => apply returns_bind; [|intros]
  | |- returns _ (if ?b then _ else _) => destruct b
  | |- returns _ (match ?x with _ => _ end) => destruct x
  end.

Lemma returns_guess_issuer (U : UnicodeTables) (patterns : list regex) (text : str) :
  returns has_fields (guess_issuer U patterns text).
Proof.
  induction patterns as [|p ps IH]; cbn [guess_issuer]; repeat returns_step. done.
Qed.

Lemma returns_extract_other_fields (U : UnicodeTables) (text : str) :
  returns has_fields (extract_other_fields U text).
Proof.
  unfold extract_other_fields. cbv zeta. repeat returns_step.
  apply returns_guess_issuer.
Qed.

Lemma returns_extract_invoice_number (U : UnicodeTables) (text : str) :
  returns has_fields (extract_invoice_number U text).
Proof.
  apply returns_of_keeps; [apply keeps_extract_invoice_number|].
  intros d _.
  destruct (number_loop_value U text d number_patterns (number_patterns_shape U))
    as (d' & E & _).
  by exists tt, d'.
Qed.

Lemma returns_extract_invoice_date (U : UnicodeTables) (text : str) :
  returns has_fields (extract_invoice_date U text).
Proof.
  apply returns_of_keeps; [apply keeps_extract_invoice_date|].
  intros d _.
  destruct (date_loop_value U text d date_patterns date_patterns_shape)
    as (d' & E & _).
  by exists tt, d'.
Qed.

Lemma returns_extract_company_info (U : UnicodeTables) (text : str) :
  returns has_fields (extract_company_info U text).
Proof.
  apply returns_of_keeps; [apply keeps_extract_company_info|].
  intros d Hd.
  destruct (has_fields_lookup d k_buyer Hd) as [buyer Hbuyer]; [in_fields|].
  destruct (has_fields_lookup d k_seller Hd) as [seller Hseller]; [in_fields|].
  destruct (extract_company_info_run U text buyer seller d Hd Hbuyer Hseller)
    as (d' & Hrun & _).
  by exists tt, d'.
Qed.

Lemma returns_extract_amount_info (text : str) :
  returns has_fields (extract_amount_info py_tables text).
Proof.
  apply returns_of_keeps; [apply keeps_extract_amount_info|].
  intros d _. destruct (extract_amount_info_literals text d) as (d' & E & _).
  by exists tt, d'.
Qed.

(** X3.  The handler of [parse_generic_invoice] is never entered.  On a record
    with the eleven fields the five extractors run to the end, one after the
    other, without raising; what the parser returns is the state they leave,
    and it has the eleven fields. *)
Theorem generic_body_never_raises :
  forall (text : str) (d : gmap str str),
  has_fields d ->
  exists d' : gmap str str,
    generic_body py_tables text d = (Ok tt, d') /\
    parse_generic_invoice py_tables text d = (Ok tt, d') /\
    has_fields d'.
Proof.
  intros text d Hd.
  assert (Hr : returns has_fields (generic_body py_tables text)).
  { unfold generic_body.
    apply returns_bind; [apply returns_extract_invoice_number|intros _].
    apply returns_bind; [apply returns_extract_invoice_date|intros _].
    apply returns_bind; [apply returns_extract_company_info|intros _].
    apply returns_bind; [apply returns_extract_amount_info|intros _].
    apply returns_extract_other_fields. }
  destruct (Hr d Hd) as ([] & d' & Hrun & Hd').
  exists d'. split; [done|]. split; [|done].
  change (parse_generic_invoice py_tables text)
    with (try_except (generic_body py_tables text)).
  unfold try_except. by rewrite Hrun.
Qed.

Lemma generic_body_never_raises_witness :
  let text := join nl [u "发票号码：12345678901"; u "购买方：甲乙丙丁公司"; u "¥3992.00"] in
  has_fields empty_info /\
  exists d' : gmap str str,
    generic_body py_tables text empty_info = (Ok tt, d') /\
    parse_generic_invoice py_tables text empty_info = (Ok tt, d') /\
    has_fields d'.
Proof.
  split; [apply empty_info_fields|].
  apply (generic_body_never_raises _ empty_info). apply empty_info_fields.
Defined.

(** * The amounts depend on the values only *)

Lemma find_sorted_same (f : float -> bool) (l1 l2 : list float) :
  (forall a, In a l1 <-> In a l2) ->
  find f (sorted l1) = find f (sorted l2).
Proof.
  intros H.
  destruct (find f (sorted l1)) as [a|] eqn:E1;
    destruct (find f (sorted l2)) as [b|] eqn:E2; [|exfalso|exfalso|done].
  - destruct (find_some _ _ E1) as [Ha Hfa]. destruct (find_some _ _ E2) as [Hb Hfb].
    f_equal. apply N.le_antisymm.
    + eapply find_sorted_least; [apply sorted_sorted|exact E1| |done].
      by apply sorted_In, H, sorted_In.
    + eapply find_sorted_least; [apply sorted_sorted|exact E2| |done].
      by apply sorted_In, H, sorted_In.
  - destruct (find_some _ _ E1) as [Ha Hfa].
    eapply find_none in E2; [|by apply sorted_In, H, sorted_In]. congruence.
  - destruct (find_some _ _ E2) as [Hb Hfb].
    eapply find_none in E1; [|by apply sorted_In, H, sorted_In]. congruence.
Qed.

Lemma pymax_sorted_same (l1 l2 : list float) :
  l1 <> [] -> (forall a, In a l1 <-> In a l2) ->
  pymax (sorted l1) = pymax (sorted l2).
Proof.
  intros Hne H. apply pymax_unique.
  - apply sorted_In, H, sorted_In, pymax_In.
    intros E. apply Hne. destruct l2 as [|x l2].
    + destruct l1 as [|y l1]; [done|]. exfalso. apply (H y). by left.
    + assert (Hx : In x (sorted (x :: l2))) by (apply sorted_In; by left).
      rewrite E in Hx. done.
  - intros b Hb. apply pymax_ge. by apply sorted_In, H, sorted_In.
Qed.

(** X11.  The order of the amounts in the text plays no part, nor how often an
    amount is printed.  Two texts without the literal amounts whose pools
    hold the same values give the same tax and the same total: the
    extractor computes from the set of the values. *)
Theorem amounts_depend_on_the_values_only :
  forall (U : UnicodeTables) (text1 text2 : str) (d : gmap str str),
  no_literal_amounts text1 = true -> no_literal_amounts text2 = true ->
  (forall a, In a (amount_pool U text1) <-> In a (amount_pool U text2)) ->
  extract_amount_info U text1 d = extract_amount_info U text2 d.
Proof.
  intros U text1 text2 d H1 H2 H.
  rewrite !extract_amount_info_plain by by apply specific_matches_nil.
  destruct (amount_pool U text1) as [|x l1] eqn:E1.
  - destruct (amount_pool U text2) as [|y l2]; [done|].
    exfalso. apply (H y). by left.
  - destruct (amount_pool U text2) as [|y l2] eqn:E2.
    { exfalso. apply (H x). by left. }
    cbn [nonempty]. cbv zeta.
    rewrite (pymax_sorted_same (x :: l1) (y :: l2)) by done.
    by rewrite (find_sorted_same in_band (x :: l1) (y :: l2)).
Qed.

Lemma amounts_depend_on_the_values_only_witness :
  let text1 := join nl [u "¥500.00"; u "¥200.00"; u "¥4200.00"] in
  let text2 := join nl [u "合计 ¥4200.00 ¥200.00"; u "¥500.00"; u "¥200.00"] in
  (no_literal_amounts text1 = true /\ no_literal_amounts text2 = true /\
   (forall a, In a (amount_pool py_tables text1) <-> In a (amount_pool py_tables text2))) /\
  extract_amount_info py_tables text1 empty_info
  = extract_amount_info py_tables text2 empty_info.
Proof.
  assert (H : let text1 := join nl [u "¥500.00"; u "¥200.00"; u "¥4200.00"] in
              let text2 := join nl [u "合计 ¥4200.00 ¥200.00"; u "¥500.00"; u "¥200.00"] in
              no_literal_amounts text1 = true /\ no_literal_amounts text2 = true /\
              (forall a, In a (amount_pool py_tables text1)
                         <-> In a (amount_pool py_tables text2))).
  { split; [reflexivity|]. split; [reflexivity|].
    intros a. vm_compute. tauto. }
  split; [exact H|].
  destruct H as (H1 & H2 & H3).
  exact (amounts_depend_on_the_values_only py_tables _ _ empty_info H1 H2 H3).
Defined.

(** * The batch: which files, and when it fails *)

Lemma endswith_spec (suffix s : str) :
  endswith suffix s = true <-> exists stem, s = stem ++ suffix.
Proof.
  unfold endswith. split.
  - intros H. apply startswith_prefix in H as [b Hb].
    exists (rev b). apply (f_equal (@rev N)) in Hb.
    by rewrite rev_involutive, rev_app_distr, rev_involutive in Hb.
  - intros [stem ->]. rewrite rev_app_distr. apply startswith_app.
Qed.

(** X12.  The documents of a run are the entries of the folder whose name ends
    in [.pdf], in small letters, each joined to the folder; when the folder
    cannot be listed there are none. *)
Theorem listed_documents_end_in_pdf :
  forall (listdir : str -> option (list str)) (path_join : str -> str -> str)
         (folder_path pdf_file : str),
  (In pdf_file (return_file_list_in_folder listdir path_join folder_path) <->
   exists (files : list str) (stem : str),
     listdir folder_path = Some files /\ In (stem ++ u ".pdf") files /\
     pdf_file = path_join folder_path (stem ++ u ".pdf")) /\
  (listdir folder_path = None ->
   return_file_list_in_folder listdir path_join folder_path = []) /\
  endswith (u ".pdf") (u "scan.PDF") = false.
Proof.
  intros listdir path_join folder_path pdf_file.
  unfold return_file_list_in_folder. split; [|split; [by intros ->|by vm_compute]].
  destruct (listdir folder_path) as [files|]; split.
  - rewrite in_map_iff. intros (f & <- & Hf). apply filter_In in Hf as [Hin He].
    apply endswith_spec in He as [stem ->]. by exists files, stem.
  - intros (files' & stem & [= <-] & Hin & ->). apply in_map_iff.
    exists (stem ++ u ".pdf"). split; [done|]. apply filter_In. split; [done|].
    apply endswith_spec. by exists stem.
  - intros [].
  - by intros (files' & stem & [=] & _).
Qed.

Lemma filter_nil_iff {A : Type} (f : A -> bool) (l : list A) :
  List.filter f l = [] <-> forall x, In x l -> f x = false.
Proof.
  induction l as [|x l IH]; simpl; [by split|].
  destruct (f x) eqn:E; split.
  - done.
  - intros H. specialize (H x (or_introl eq_refl)). congruence.
  - intros H y [<-|Hy]; [done|]. by apply IH.
  - intros H. apply IH. intros y Hy. apply H. by right.
Qed.

(** X14.  When the run fails.  [process_invoices] returns False and saves
    nothing when the folder cannot be listed, when the workbook cannot be
    created, and when no listed document has a text that is not empty (no
    name ends in [.pdf], or every document is unreadable or empty).  It
    returns True, and has saved the workbook, exactly when the workbook was
    created, some listed document has text and saving did not raise: a save
    that raises makes the run fail although documents were read. *)
Theorem run_fails_without_a_readable_document :
  forall (U : UnicodeTables) (O : Openpyxl) (listdir : str -> option (list str))
         (path_join : str -> str -> str) (pdf_text : str -> option str)
         (sheet_stem : str -> str) (folder_path output_excel_path : str),
  let pdf_files := return_file_list_in_folder listdir path_join folder_path in
  let kept := List.filter (readable pdf_text) pdf_files in
  let run := process_invoices U O listdir path_join pdf_text sheet_stem
                              folder_path output_excel_path in
  (listdir folder_path = None -> run = (false, None)) /\
  (new_workbook O = None -> run = (false, None)) /\
  ((forall pdf_file, In pdf_file pdf_files ->
      falsy (extract_text_from_pdf pdf_text pdf_file) = true) ->
   run = (false, None)) /\
  (run.1 = true <->
   exists wb0, new_workbook O = Some wb0 /\ kept <> [] /\
     save O (fold_left (added U O pdf_text sheet_stem) kept wb0) output_excel_path
     = true) /\
  (run.1 = true <-> exists wb, run.2 = Some wb).
Proof.
  intros U O listdir path_join pdf_text sheet_stem folder_path output_excel_path
         pdf_files kept run.
  assert (Hkept : kept = [] <->
                  forall pdf_file, In pdf_file pdf_files ->
                    falsy (extract_text_from_pdf pdf_text pdf_file) = true).
  { unfold kept. rewrite filter_nil_iff. unfold readable.
    split; intros H f Hf; specialize (H f Hf); by destruct (falsy _). }
  assert (Hrun : run = match new_workbook O with
                       | Some wb0 =>
                         if nonempty kept &&
                            save O (fold_left (added U O pdf_text sheet_stem) kept wb0)
                                 output_excel_path
                         then (true, Some (fold_left (added U O pdf_text sheet_stem)
                                                     kept wb0))
                         else (false, None)
                       | None => (false, None)
                       end).
  { unfold run. by rewrite process_invoices_run. }
  rewrite Hrun. clear Hrun. split; [|split; [|split; [|split]]].
  - intros Hl.
    assert (E : kept = []).
    { unfold kept, pdf_files, return_file_list_in_folder. by rewrite Hl. }
    rewrite E. by destruct (new_workbook O).
  - by intros ->.
  - intros Hnone. apply Hkept in Hnone. rewrite Hnone. by destruct (new_workbook O).
  - destruct (new_workbook O) as [wb0|]; [|split; [done|by intros (wb & [=] & _)]].
    destruct kept as [|f fs]; cbn [nonempty andb].
    { split; [done|]. by intros (wb & _ & H & _). }
    destruct (save O _ output_excel_path) eqn:Es; split; try done.
    + intros _. exists wb0. by rewrite Es.
    + intros (wb & [= <-] & _ & H). by rewrite Es in H.
  - destruct (new_workbook O) as [wb0|]; [|split; [done|by intros [wb [=]]]].
    destruct (nonempty kept && save O _ output_excel_path); split; try done.
    + intros _. by eexists.
    + by intros [wb [=]].
Qed.

(** * Nothing is made up *)

(** ** What a computation returns *)

Lemma results_ret {A : Type} (Q : A -> Prop) (a : A) : Q a -> results Q (mret a).
Proof. intros H d a' d' [= <- _]. exact H. Qed.

Lemma results_bind {A B : Type} (P : A -> Prop) (Q : B -> Prop)
    (m : M A) (f : A -> M B) :
  results P m -> (forall a, P a -> results Q (f a)) -> results Q (m ≫= f).
Proof.
  intros Hm Hf d b d' H. apply bind_inv in H as (a & d1 & H1 & H2).
  eapply Hf; [by eapply Hm|exact H2].
Qed.

Lemma results_bind_any {A B : Type} (Q : B -> Prop) (m : M A) (f : A -> M B) :
  (forall a, results Q (f a)) -> results Q (m ≫= f).
Proof.
  intros Hf d b d' H. apply bind_inv in H as (a & d1 & _ & H2). by eapply Hf.
Qed.

Lemma results_weaken {A : Type} (P Q : A -> Prop) (m : M A) :
  (forall a, P a -> Q a) -> results P m -> results Q m.
Proof. intros HPQ Hm d a d' H. by eapply HPQ, Hm. Qed.

Lemma results_index {A : Type} (l : list A) (i : nat) :
  results (fun x => In x l) (index l i).
Proof.
  intros d a d' H. unfold index in H. destruct (l !! i) as [x|] eqn:E; [|done].
  injection H as <- _. apply list_elem_of_In. by eapply list_elem_of_lookup_2.
Qed.

Lemma list_remove_incl (x : str) : forall (l l' : list str),
  list_remove x l = Some l' -> forall c, In c l' -> In c l.
Proof.
  induction l as [|y l IH]; intros l' H c Hc; [done|]. simpl in H.
  destruct (str_eqb x y); [injection H as <-; by right|].
  destruct (list_remove x l) as [l0|] eqn:E; [|done]. injection H as <-.
  destruct Hc as [->|Hc]; [by left|right; by eapply IH].
Qed.

Lemma results_remove (x : str) (l : list str) :
  results (fun l' => forall c, In c l' -> In c l) (remove x l).
Proof.
  intros d a d' H. unfold remove in H.
  destruct (list_remove x l) as [l'|] eqn:E; [|done].
  injection H as <- _. by apply (list_remove_incl x l l').
Qed.

Lemma keeps_bind_results {A B : Type} (I : gmap str str -> Prop) (P : A -> Prop)
    (m : M A) (f : A -> M B) :
  results P m -> keeps I m -> (forall a, P a -> keeps I (f a)) -> keeps I (m ≫= f).
Proof.
  intros Hr Hk Hf d Hd. specialize (Hk d Hd). unfold mbind, M_bind.
  destruct (m d) as [[a|e] d'] eqn:E; [|done].
  apply Hf; [by eapply Hr|done].
Qed.

Lemma contains_nil (s : str) : contains [] s = true.
Proof. by destruct s. Qed.

Lemma line_contains (text l : str) :
  In l (split nl text) -> contains l text = true.
Proof. intros H. apply split_In_infix in H as (a & b & ->). apply contains_app. Qed.

Lemma keeps_setitem_piece (text k k0 v : str) :
  (k0 = k -> contains v text = true) ->
  keeps (holds_piece text k) (setitem k0 v).
Proof.
  intros Hv d (w & Hw & Hc). change ((setitem k0 v d).2) with (<[k0 := v]> d).
  destruct (decide (k0 = k)) as [E|Hne].
  - exists v. split; [rewrite E; apply lookup_insert_eq|by apply Hv].
  - exists w. split; [|exact Hc]. rewrite lookup_insert_ne by exact Hne. exact Hw.
Qed.

(** ** The companies that go round the loops *)

Lemma results_claim_company (key : str) (guarded : bool) (lines : list str)
    (j : nat) (companies : list str) : forall iter : list str,
  results (fun cs => forall c, In c cs -> In c companies)
          (claim_company key guarded lines j iter companies).
Proof.
  induction iter as [|company iter IH]; cbn [claim_company].
  - by apply results_ret.
  - apply results_bind_any. intros line_j.
    destruct (contains company line_j); [|exact IH].
    apply results_bind_any. intros v.
    destruct (falsy v); [|exact IH].
    apply results_bind_any. intros _.
    destruct (guarded && negb (mem company companies));
      [by apply results_ret|apply results_remove].
Qed.

Lemma results_window_loop (key : str) (guarded : bool) (lines : list str) :
  forall (js : list nat) (companies : list str),
  results (fun cs => forall c, In c cs -> In c companies)
          (window_loop key guarded lines js companies).
Proof.
  induction js as [|j js IH]; intros companies; cbn [window_loop].
  - by apply results_ret.
  - eapply results_bind; [apply results_claim_company|].
    intros cs Hcs. eapply results_weaken; [|apply IH].
    intros cs' H c Hc. by apply Hcs, H.
Qed.

Lemma results_keyword_loop (key : str) (guarded : bool) (lines : list str)
    (i : nat) (line : str) :
  forall (keywords companies : list str),
  results (fun cs => forall c, In c cs -> In c companies)
          (keyword_loop key guarded keywords lines i line companies).
Proof.
  induction keywords as [|kw kws IH]; intros companies; cbn [keyword_loop].
  - by apply results_ret.
  - eapply (results_bind (fun cs => forall c, In c cs -> In c companies)).
    + destruct (contains kw line); [apply results_window_loop|by apply results_ret].
    + intros cs Hcs. eapply results_weaken; [|apply IH].
      intros cs' H c Hc. by apply Hcs, H.
Qed.

Lemma results_assign_roles (lines : list str) :
  forall (todo : list (nat * str)) (companies : list str),
  results (fun cs => forall c, In c cs -> In c companies)
          (assign_roles lines todo companies).
Proof.
  induction todo as [|[i line] todo IH]; intros companies; cbn [assign_roles].
  - by apply results_ret.
  - eapply results_bind; [apply results_keyword_loop|]. intros c1 H1.
    eapply results_bind; [apply results_keyword_loop|]. intros c2 H2.
    eapply results_weaken; [|apply IH].
    intros cs' H c Hc. by apply H1, H2, H.
Qed.

Lemma results_remaining : forall companies : list str,
  results (fun cs => forall c, In c cs -> In c companies) (remaining companies).
Proof.
  induction companies as [|c0 cs IH]; cbn [remaining].
  - by apply results_ret.
  - apply results_bind_any. intros b. apply results_bind_any. intros s.
    eapply results_bind; [apply IH|]. intros r Hr. apply results_ret.
    intros c Hc. destruct (mem c0 [b; s]); [right; by apply Hr|].
    destruct Hc as [->|Hc]; [by left|right; by apply Hr].
Qed.

Section Pieces.
Variable U : UnicodeTables.
Variables text k : str.
Hypothesis Htax : k_tax <> k.
Hypothesis Htotal : k_total <> k.

Lemma piece_number_loop (patterns : list regex) :
  Forall (fun p => exists pre cs lo hi,
            p = pre ++ [GOpen; Rep cs lo hi; GClose] /\ no_group pre = true /\
            forall x, set_match U true cs x = true ->
                      set_match U false [digit09; CDigit] x = true) patterns ->
  keeps (holds_piece text k) (extract_invoice_number_loop U patterns text).
Proof.
  induction 1 as [|p ps (pre & cs & lo & hi & -> & Hpre & Hcs) _ IH];
    cbn [extract_invoice_number_loop]; [apply keeps_ret|].
  destruct (find number_length_ok _) as [m|] eqn:Hf; [|exact IH].
  apply keeps_setitem_piece. intros _.
  destruct (find_some _ _ Hf) as [Hin _].
  by apply (number_match_value U pre cs lo hi text m Hpre Hcs).
Qed.

Lemma piece_date_loop (patterns : list regex) :
  Forall (fun p => exists pre mid n,
            p = pre ++ GOpen :: mid ++ [GClose] /\
            no_group pre = true /\ no_group mid = true /\
            (8 <= min_len mid)%nat /\ max_len mid = Some n /\ (n <= 11)%nat)
         patterns ->
  keeps (holds_piece text k) (extract_invoice_date_loop U patterns text).
Proof.
  induction 1 as [|p ps (pre & mid & n & -> & Hpre & Hmid & _) _ IH];
    cbn [extract_invoice_date_loop]; [apply keeps_ret|].
  destruct (re_search U false _ text) as [r|] eqn:Hs; [|exact IH].
  apply keeps_setitem_piece. intros _.
  by apply (re_search_group_contains U false pre mid).
Qed.

Lemma piece_claim_company (key : str) (guarded : bool) (lines : list str)
    (j : nat) (companies : list str) : forall iter : list str,
  (forall c, In c iter -> contains c text = true) ->
  keeps (holds_piece text k) (claim_company key guarded lines j iter companies).
Proof.
  induction iter as [|company iter IH]; intros Hc; cbn [claim_company];
    [apply keeps_ret|].
  assert (IH' : keeps (holds_piece text k)
                  (claim_company key guarded lines j iter companies)).
  { apply IH. intros c Hin. apply Hc. by right. }
  apply keeps_bind; [apply keeps_index|intros line_j].
  destruct (contains company line_j); [|exact IH'].
  apply keeps_bind; [apply keeps_getitem|intros v].
  destruct (falsy v); [|exact IH'].
  apply keeps_bind.
  - apply keeps_setitem_piece. intros _. apply Hc. by left.
  - intros _. destruct (guarded && negb (mem company companies));
      [apply keeps_ret|apply keeps_remove].
Qed.

Lemma piece_window_loop (key : str) (guarded : bool) (lines : list str) :
  forall (js : list nat) (companies : list str),
  (forall c, In c companies -> contains c text = true) ->
  keeps (holds_piece text k) (window_loop key guarded lines js companies).
Proof.
  induction js as [|j js IH]; intros companies Hc; cbn [window_loop];
    [apply keeps_ret|].
  eapply keeps_bind_results.
  - apply results_claim_company.
  - by apply piece_claim_company.
  - intros cs Hcs. apply IH. intros c Hin. by apply Hc, Hcs.
Qed.

Lemma piece_keyword_loop (key : str) (guarded : bool) (lines : list str)
    (i : nat) (line : str) :
  forall (keywords companies : list str),
  (forall c, In c companies -> contains c text = true) ->
  keeps (holds_piece text k)
        (keyword_loop key guarded keywords lines i line companies).
Proof.
  induction keywords as [|kw kws IH]; intros companies Hc; cbn [keyword_loop];
    [apply keeps_ret|].
  eapply (keeps_bind_results _ (fun cs => forall c, In c cs -> In c companies)).
  - destruct (contains kw line); [apply results_window_loop|by apply results_ret].
  - destruct (contains kw line); [by apply piece_window_loop|apply keeps_ret].
  - intros cs Hcs. apply IH. intros c Hin. by apply Hc, Hcs.
Qed.

Lemma piece_assign_roles (lines : list str) :
  forall (todo : list (nat * str)) (companies : list str),
  (forall c, In c companies -> contains c text = true) ->
  keeps (holds_piece text k) (assign_roles lines todo companies).
Proof.
  induction todo as [|[i line] todo IH]; intros companies Hc; cbn [assign_roles];
    [apply keeps_ret|].
  eapply keeps_bind_results;
    [apply results_keyword_loop|by apply piece_keyword_loop|intros c1 H1].
  assert (Hc1 : forall c, In c c1 -> contains c text = true)
    by (intros c Hin; by apply Hc, H1).
  eapply keeps_bind_results;
    [apply results_keyword_loop|by apply piece_keyword_loop|intros c2 H2].
  apply IH. intros c Hin. by apply Hc1, H2.
Qed.

Lemma piece_remaining (companies : list str) :
  keeps (holds_piece text k) (remaining companies).
Proof.
  induction companies as [|c cs IH]; cbn [remaining]; [apply keeps_ret|].
  apply keeps_bind; [apply keeps_getitem|intros b].
  apply keeps_bind; [apply keeps_getitem|intros s].
  apply keeps_bind; [exact IH|intros r]. apply keeps_ret.
Qed.

Lemma piece_index_setitem (key : str) (l : list str) (i : nat) :
  (forall c, In c l -> contains c text = true) ->
  keeps (holds_piece text k) (index l i ≫= (fun c => setitem key c)).
Proof.
  intros Hl. eapply keeps_bind_results; [apply results_index|apply keeps_index|].
  intros c Hc. apply keeps_setitem_piece. intros _. by apply Hl.
Qed.

Lemma piece_assign_remaining (companies : list str) :
  (forall c, In c companies -> contains c text = true) ->
  keeps (holds_piece text k) (assign_remaining companies).
Proof.
  intros Hc. unfold assign_remaining.
  eapply keeps_bind_results; [apply results_remaining|apply piece_remaining|].
  intros rest Hrest.
  assert (Hr : forall c, In c rest -> contains c text = true)
    by (intros c Hin; by apply Hc, Hrest).
  destruct (nonempty rest); [|apply keeps_ret].
  apply keeps_bind; [apply keeps_getitem|intros b].
  apply keeps_bind.
  - destruct (falsy b); [by apply piece_index_setitem|apply keeps_ret].
  - intros _. apply keeps_bind; [apply keeps_getitem|intros s].
    destruct (falsy s && (1 <? length rest)%nat);
      [by apply piece_index_setitem|apply keeps_ret].
Qed.

Lemma piece_assign_credit_codes (credit_codes : list str) :
  (forall c, In c credit_codes -> contains c text = true) ->
  keeps (holds_piece text k) (assign_credit_codes credit_codes).
Proof.
  intros Hc. unfold assign_credit_codes.
  destruct (nonempty credit_codes); [|apply keeps_ret].
  apply keeps_bind; [apply keeps_getitem|intros b].
  apply keeps_bind.
  - destruct (falsy b); [by apply piece_index_setitem|apply keeps_ret].
  - intros _. destruct (1 <? length credit_codes)%nat; [|apply keeps_ret].
    apply keeps_bind; [apply keeps_getitem|intros s].
    destruct (falsy s); [by apply piece_index_setitem|apply keeps_ret].
Qed.

Lemma piece_extract_company_info :
  keeps (holds_piece text k) (extract_company_info U text).
Proof.
  unfold extract_company_info. cbv zeta.
  eapply keeps_bind_results.
  - apply results_assign_roles.
  - apply piece_assign_roles. apply (find_companies_contains U).
  - intros cs Hcs. apply keeps_bind.
    + apply piece_assign_remaining. intros c Hin.
      by apply (find_companies_contains U), Hcs.
    + intros _. apply piece_assign_credit_codes. intros c Hin.
      by apply (find_credit_codes_spec U text).
Qed.

(** The amounts are written to their own two keys. *)
Lemma piece_amount_key (k0 v : str) :
  k0 = k_tax \/ k0 = k_total -> keeps (holds_piece text k) (setitem k0 v).
Proof.
  intros Hk0. apply keeps_setitem_piece. intros E. exfalso.
  destruct Hk0 as [-> | ->]; [by apply Htax|by apply Htotal].
Qed.

Lemma piece_tax_loop (amounts : list float) :
  keeps (holds_piece text k) (tax_loop amounts).
Proof.
  induction amounts as [|a l IH]; cbn [tax_loop]; [apply keeps_ret|].
  destruct (in_band a); [|exact IH]. apply piece_amount_key. by left.
Qed.

Lemma piece_to_floats (ms : list str) :
  keeps (holds_piece text k) (to_floats U ms).
Proof.
  induction ms as [|m l IH]; cbn [to_floats]; [apply keeps_ret|].
  destruct (pyfloat U m); [|apply keeps_raise].
  apply keeps_bind; [exact IH|intros xs; apply keeps_ret].
Qed.

Lemma piece_extract_amount_info :
  keeps (holds_piece text k) (extract_amount_info U text).
Proof.
  unfold extract_amount_info. cbv zeta.
  apply keeps_bind.
  { destruct (nonempty (amount_pool U text)); [|apply keeps_ret].
    apply keeps_bind; [|intros _; apply piece_tax_loop].
    destruct (1 <=? _)%nat; [apply piece_amount_key; by right|apply keeps_ret]. }
  intros _. apply keeps_bind; [apply piece_to_floats|intros found].
  destruct (nonempty found); [|apply keeps_ret].
  apply keeps_bind.
  { destruct (memf _ _); [apply piece_amount_key; by right|].
    destruct (nonempty _); [apply piece_amount_key; by right|apply keeps_ret]. }
  intros _. destruct (memf _ _); [apply piece_amount_key; by left|].
  destruct (1 <? _)%nat; [|apply keeps_ret].
  destruct (2 <=? _)%nat; [|apply keeps_ret].
  apply keeps_bind; [apply keeps_index|intros x]. apply piece_amount_key. by left.
Qed.

Lemma piece_guess_issuer (patterns : list regex) :
  Forall (fun p => no_group p = true) patterns ->
  keeps (holds_piece text k) (guess_issuer U patterns text).
Proof.
  induction 1 as [|p ps Hp _ IH]; cbn [guess_issuer]; [apply keeps_ret|].
  apply keeps_bind.
  - destruct (find name_length_ok _) as [m|] eqn:Hf; [|apply keeps_ret].
    apply keeps_setitem_piece. intros _.
    destruct (find_some _ _ Hf) as [Hin _].
    by apply (re_findall_whole_contains U false p).
  - intros _. apply keeps_bind; [apply keeps_getitem|intros v].
    destruct (falsy v); [exact IH|apply keeps_ret].
Qed.

Lemma piece_extract_other_fields :
  keeps (holds_piece text k) (extract_other_fields U text).
Proof.
  unfold extract_other_fields. cbv zeta.
  apply keeps_bind.
  { destruct (find is_item_line (split nl text)) as [line|] eqn:Hf;
      [|apply keeps_ret].
    apply keeps_setitem_piece. intros _.
    destruct (find_some _ _ Hf) as [Hin _].
    apply (contains_trans _ line); [apply strip_contains|by apply line_contains]. }
  intros _. apply keeps_bind.
  { destruct (find (is_name_line U) _) as [line_clean|] eqn:Hf; [|apply keeps_ret].
    apply keeps_setitem_piece. intros _.
    destruct (find_some _ _ Hf) as [Hin _].
    apply in_map_iff in Hin as (l & <- & Hl).
    apply (contains_trans _ l); [apply strip_contains|by apply line_contains]. }
  intros _. apply keeps_bind; [apply keeps_getitem|intros v].
  apply keeps_bind.
  { destruct (falsy v); [|apply keeps_ret]. apply piece_guess_issuer.
    unfold name_patterns.
    repeat apply List.Forall_cons; [| | |apply List.Forall_nil]; by vm_compute. }
  intros _. destruct (find _ spec_keywords) as [keyword|] eqn:Hf; [|apply keeps_ret].
  apply keeps_setitem_piece. intros _.
  by destruct (find_some _ _ Hf) as [_ Hc].
Qed.

Lemma piece_parse_generic_invoice :
  keeps (holds_piece text k) (parse_generic_invoice U text).
Proof.
  unfold parse_generic_invoice. apply keeps_try.
  apply keeps_bind; [apply piece_number_loop, number_patterns_shape|intros _].
  apply keeps_bind; [apply piece_date_loop, date_patterns_shape|intros _].
  apply keeps_bind; [apply piece_extract_company_info|intros _].
  apply keeps_bind; [apply piece_extract_amount_info|intros _].
  apply piece_extract_other_fields.
Qed.

Lemma piece_shanghai_window (js : list nat) :
  keeps (holds_piece text k) (shanghai_window U (split nl text) js).
Proof.
  induction js as [|j js IH]; cbn [shanghai_window]; [apply keeps_ret|].
  unfold index. destruct (split nl text !! j) as [line_j|] eqn:E.
  2:{ intros d1 Hd1. exact Hd1. }
  apply keeps_bind_ret.
  apply keeps_bind; [|intros _; exact IH].
  destruct (re_search U false long_number line_j) as [r|] eqn:Er; [|apply keeps_ret].
  destruct (8 <=? length (group1 r))%nat; [|apply keeps_ret].
  apply keeps_bind; [apply keeps_getitem|intros v].
  destruct (falsy v); [|apply keeps_ret].
  apply keeps_setitem_piece. intros _.
  apply (contains_trans _ line_j).
  - by apply (re_search_group_contains U false [] [Rep [CDigit] 8 None]).
  - apply line_contains, list_elem_of_In. by eapply list_elem_of_lookup_2.
Qed.

Lemma piece_shanghai_lines (todo : list (nat * str)) :
  keeps (holds_piece text k) (shanghai_lines U (split nl text) todo).
Proof.
  induction todo as [|[i line] todo IH]; cbn [shanghai_lines]; [apply keeps_ret|].
  apply keeps_bind; [|intros _; exact IH].
  destruct (_ || _); [apply piece_shanghai_window|apply keeps_ret].
Qed.

Lemma piece_parse_shanghai_invoice :
  keeps (holds_piece text k) (parse_shanghai_invoice U text).
Proof.
  unfold parse_shanghai_invoice. cbv zeta.
  apply keeps_bind; [apply piece_shanghai_lines|intros _].
  apply piece_parse_generic_invoice.
Qed.

Lemma piece_parse_invoice_info (info : gmap str str) :
  holds_piece text k empty_info ->
  parse_invoice_info U text = Ok info ->
  holds_piece text k info.
Proof.
  intros H0 Hp. unfold parse_invoice_info in Hp.
  assert (Hk : keeps (holds_piece text k)
              match detect_invoice_type text with
              | standard => parse_standard_invoice U text
              | shanghai => parse_shanghai_invoice U text
              | complex => parse_complex_invoice U text
              | generic => parse_generic_invoice U text
              end).
  { destruct (detect_invoice_type text);
      first [apply piece_parse_shanghai_invoice|apply piece_parse_generic_invoice]. }
  specialize (Hk empty_info H0).
  destruct (_ empty_info) as [[a|e] d']; [|done].
  injection Hp as <-. exact Hk.
Qed.
End Pieces.

Lemma text_fields_not_amounts (k : str) :
  In k text_fields -> k_tax <> k /\ k_total <> k.
Proof.
  intros Hk. apply list_elem_of_In in Hk. split; intros E; rewrite <- E in Hk;
    revert Hk; apply not_elem_of_keys; vm_compute; reflexivity.
Qed.

Lemma empty_info_piece (text k : str) :
  In k text_fields -> holds_piece text k empty_info.
Proof.
  intros Hk. exists []. split; [|apply contains_nil].
  unfold text_fields in Hk. cbn [In] in Hk.
  destruct Hk as [<-|[<-|[<-|[<-|[<-|[<-|[<-|[<-|[<-|[]]]]]]]]]];
    vm_compute; reflexivity.
Qed.

(** X2.  Nothing is made up.  For every text, every field of the parsed record
    other than the two amounts (the identifier, the date, the two names, the
    two credit codes, the item, the specification and the issuer) is empty or
    a piece of the text, copied as it stands there.  The two amounts are
    printed anew from their values. *)
Theorem parsed_text_fields_are_pieces_of_the_text :
  forall (U : UnicodeTables) (text : str),
  exists info : gmap str str,
    parse_invoice_info U text = Ok info /\
    forall k, In k text_fields ->
      exists v, info !! k = Some v /\ contains v text = true.
Proof.
  intros U text. destruct (parse_invoice_info_ok U text) as (info & Hp & _).
  exists info. split; [exact Hp|]. intros k Hk.
  destruct (text_fields_not_amounts k Hk) as [Htax Htotal].
  apply (piece_parse_invoice_info U text k Htax Htotal info); [|exact Hp].
  by apply empty_info_piece.
Qed.
